(** * Quantized dot-product kernels of llama-opt/q4_0_optimized.c

    A shallow embedding of [vec_dot_q4_0_q8_0_original] and
    [vec_dot_q4_0_q8_0_optimized].

    - Integers are [Z]; where the C types are narrower the wrap-around is
      written out ([Int.wrap_s8], [Int.wrap_s32]).  NEON byte registers
      are lists of 16 lanes, 32-bit registers are 4-tuples.
    - The buffers [vx] and [vy] are lists of blocks.  A load past the end
      of a list is reported ([OutOfBounds]); a prefetch loads nothing.
    - 32-bit float arithmetic is an interface, [FloatOps], so that the
      same kernel text can be run in IEEE binary32 (instance [binary32]:
      round to nearest even, one NaN, from the Standard Library's
      [SpecFloat]) and without rounding (instance [exact_ops], rationals).
      Every float operation of the source is one operation of the
      interface: [vmlaq_n_f32] is a multiplication followed by an
      addition, as the source's header says of the compiled code, and
      [vaddvq_f32] adds pairwise.
    - The kernels return the value they store to [*s]; [call_original]
      and [call_optimized] wrap them as transformers of the caller's
      memory.
    - Of the caller, llama-opt/benchmark.c, the file embeds what decides
      the values the kernels see and what is reported of them:
      [fp32_to_fp16], the two generators (loops of stores into the
      caller's arrays), and [main] up to the status of its correctness
      check.  Clock readings, the timed loops and the printing are left
      out. *)

From Stdlib Require Import ZArith List Lia Bool.
From Stdlib Require Import SpecFloat.
From Stdlib Require Import QArith Qcanon Qpower Ring.
Import ListNotations.

Local Open Scope Z_scope.

(** ** Fixed-width integers *)

Module Int.

(** value of the low 8 bits of [z] read as unsigned *)
Definition wrap_u8 (z : Z) : Z := z mod 256.

(** value of the low 8 bits of [z] read as two's complement *)
Definition wrap_s8 (z : Z) : Z := (z + 128) mod 256 - 128.

(** value of the low 32 bits of [z] read as two's complement *)
Definition wrap_s32 (z : Z) : Z := (z + 2147483648) mod 4294967296 - 2147483648.

Definition in_u8 (z : Z) : bool := (0 <=? z) && (z <? 256).
Definition in_s8 (z : Z) : bool := (-128 <=? z) && (z <? 128).
Definition in_u16 (z : Z) : bool := (0 <=? z) && (z <? 65536).
Definition in_s32 (z : Z) : bool := (-2147483648 <=? z) && (z <? 2147483648).

End Int.

(** ** Block layout *)

Definition QK4_0 : Z := 32.
Definition QK8_0 : Z := 32.

(** [block_q4_0]: a half-precision scale (its 16 stored bits) and 16 bytes,
    two 4-bit weights each. *)
Record block_q4_0 := mk_q4_0 { q4_d : Z; q4_qs : list Z }.

(** [block_q8_0]: a half-precision scale and 32 signed bytes. *)
Record block_q8_0 := mk_q8_0 { q8_d : Z; q8_qs : list Z }.

(** The values a C object of each type can hold. *)
Definition wf_q4_0 (b : block_q4_0) : bool :=
  Int.in_u16 (q4_d b) && (length (q4_qs b) =? 16)%nat && forallb Int.in_u8 (q4_qs b).

Definition wf_q8_0 (b : block_q8_0) : bool :=
  Int.in_u16 (q8_d b) && (length (q8_qs b) =? 32)%nat && forallb Int.in_s8 (q8_qs b).

(** ** Results of a call

    A load past the end of a caller's buffer has no defined result in C;
    the model reports it.  [OutOfFuel] only marks a loop whose iteration
    budget was too small; the kernels never produce it
    (see [original_never_out_of_fuel]). *)
Inductive result (A : Type) : Type :=
| Ok (a : A)
| OutOfBounds
| OutOfFuel.
Arguments Ok {A} a.
Arguments OutOfBounds {A}.
Arguments OutOfFuel {A}.

Definition bind {A B : Type} (r : result A) (k : A -> result B) : result B :=
  match r with
  | Ok a => k a
  | OutOfBounds => OutOfBounds
  | OutOfFuel => OutOfFuel
  end.

Notation "x <- r ;; k" := (bind r (fun x => k))
  (at level 61, r at next level, right associativity).
Notation "' p <- r ;; k" := (bind r (fun p => k))
  (at level 61, p pattern, r at next level, right associativity).

(** [&x[i]] followed by a load, for [0 <= i] *)
Definition load {A : Type} (buf : list A) (i : Z) : result A :=
  if i <? 0 then OutOfBounds
  else match nth_error buf (Z.to_nat i) with
       | Some b => Ok b
       | None => OutOfBounds
       end.

(** [for (; cond; ) body] on a loop state [S] *)
Fixpoint for_loop {S : Type} (fuel : nat) (cond : S -> bool)
    (body : S -> result S) (s : S) : result S :=
  if cond s then
    match fuel with
    | O => OutOfFuel
    | Datatypes.S fuel' => s' <- body s ;; for_loop fuel' cond body s'
    end
  else Ok s.

(** ** Integer lanes *)

Definition uint8x16_t := list Z.
Definition int8x16_t := list Z.
Definition int32x4_t := (Z * Z * Z * Z)%type.

Definition lanewise2 (f : Z -> Z -> Z) (a b : list Z) : list Z :=
  map (fun ab => f (fst ab) (snd ab)) (combine a b).

Definition vdupq_n_u8 (c : Z) : uint8x16_t := repeat (Int.wrap_u8 c) 16.
Definition vdupq_n_s8 (c : Z) : int8x16_t := repeat (Int.wrap_s8 c) 16.
Definition vdupq_n_s32 (c : Z) : int32x4_t := (c, c, c, c).

(** loads of 16 consecutive bytes starting at element [off] of an array *)
Definition vld1q_u8 (qs : list Z) : uint8x16_t := firstn 16 qs.
Definition vld1q_s8 (qs : list Z) (off : nat) : int8x16_t := firstn 16 (skipn off qs).

Definition vandq_u8 (a b : uint8x16_t) : uint8x16_t := lanewise2 Z.land a b.
Definition vshrq_n_u8 (a : uint8x16_t) (n : Z) : uint8x16_t :=
  map (fun v => Z.shiftr v n) a.
Definition vreinterpretq_s8_u8 (a : uint8x16_t) : int8x16_t := map Int.wrap_s8 a.
Definition vsubq_s8 (a b : int8x16_t) : int8x16_t :=
  lanewise2 (fun x y => Int.wrap_s8 (x - y)) a b.

Definition lane (a : list Z) (i : nat) : Z := nth i a 0.

(** the four byte products that SDOT adds into 32-bit lane [l] *)
Definition dot4 (a b : int8x16_t) (l : nat) : Z :=
  lane a (4 * l) * lane b (4 * l) + lane a (4 * l + 1) * lane b (4 * l + 1)
  + lane a (4 * l + 2) * lane b (4 * l + 2) + lane a (4 * l + 3) * lane b (4 * l + 3).

Definition vdotq_s32 (r : int32x4_t) (a b : int8x16_t) : int32x4_t :=
  let '(r0, r1, r2, r3) := r in
  (Int.wrap_s32 (r0 + dot4 a b 0), Int.wrap_s32 (r1 + dot4 a b 1),
   Int.wrap_s32 (r2 + dot4 a b 2), Int.wrap_s32 (r3 + dot4 a b 3)).

(** ** The scalar inner loop (lines 92-98 and 180-186) *)

(** [(x[ib].qs[j] & 0x0F) - 8] and [(x[ib].qs[j] >> 4) - 8] *)
Definition decode_nibble_pair (byte : Z) : Z * Z :=
  (Z.land byte 15 - 8, Z.shiftr byte 4 - 8).

(** state [(sumi0, sumi1)] after the iteration for index [j] *)
Definition scalar_step (xqs yqs : list Z) (st : Z * Z) (j : nat) : Z * Z :=
  let '(sumi0, sumi1) := st in
  let '(v0, v1) := decode_nibble_pair (lane xqs j) in
  (Int.wrap_s32 (sumi0 + Int.wrap_s32 (v0 * lane yqs j)),
   Int.wrap_s32 (sumi1 + Int.wrap_s32 (v1 * lane yqs (j + 16)))).

(** state after the first [k] iterations of [for (j = 0; j < qk/2; ++j)] *)
Definition scalar_sums (xqs yqs : list Z) (k : nat) : Z * Z :=
  fold_left (scalar_step xqs yqs) (seq 0 k) (0, 0).

(** [sumi0 + sumi1] once the loop is over *)
Definition scalar_block (xb : block_q4_0) (yb : block_q8_0) : Z :=
  let '(sumi0, sumi1) := scalar_sums (q4_qs xb) (q8_qs yb) (Z.to_nat (QK4_0 / 2)) in
  Int.wrap_s32 (sumi0 + sumi1).

(** ** The SDOT block product *)

(** The lanes [p] that the three copies of the vector code (the body of
    the first loop of the original, [PROCESS_BLOCK], the two-block loop of
    the optimized kernel) compute for one block pair. *)
Definition block_dot (xb : block_q4_0) (yb : block_q8_0) : int32x4_t :=
  let m4b := vdupq_n_u8 15 in
  let s8b := vdupq_n_s8 8 in
  let qx := vld1q_u8 (q4_qs xb) in
  let qxl := vsubq_s8 (vreinterpretq_s8_u8 (vandq_u8 qx m4b)) s8b in
  let qxh := vsubq_s8 (vreinterpretq_s8_u8 (vshrq_n_u8 qx 4)) s8b in
  let qyl := vld1q_s8 (q8_qs yb) 0 in
  let qyh := vld1q_s8 (q8_qs yb) 16 in
  vdotq_s32 (vdotq_s32 (vdupq_n_s32 0) qxl qyl) qxh qyh.

(** ** 32-bit float arithmetic *)

Class FloatOps (F : Type) : Type := {
  f_zero : F;                 (* 0.0f *)
  f_add : F -> F -> F;
  f_mul : F -> F -> F;
  f_of_int : Z -> F;          (* conversion of an int32 *)
  fp16_to_fp32 : Z -> F       (* widening of the 16 stored bits *)
}.

Section Kernels.
Context {F : Type} {ops : FloatOps F}.

Definition float32x4_t := (F * F * F * F)%type.

Definition vdupq_n_f32 (c : F) : float32x4_t := (c, c, c, c).

Definition vcvtq_f32_s32 (p : int32x4_t) : float32x4_t :=
  let '(p0, p1, p2, p3) := p in (f_of_int p0, f_of_int p1, f_of_int p2, f_of_int p3).

(** [a + b * c] in every lane, multiplication and addition rounded
    separately (the file's header: FMUL+FADD) *)
Definition vmlaq_n_f32 (a b : float32x4_t) (c : F) : float32x4_t :=
  let '(a0, a1, a2, a3) := a in
  let '(b0, b1, b2, b3) := b in
  (f_add a0 (f_mul b0 c), f_add a1 (f_mul b1 c),
   f_add a2 (f_mul b2 c), f_add a3 (f_mul b3 c)).

Definition vaddq_f32 (a b : float32x4_t) : float32x4_t :=
  let '(a0, a1, a2, a3) := a in
  let '(b0, b1, b2, b3) := b in
  (f_add a0 b0, f_add a1 b1, f_add a2 b2, f_add a3 b3).

(** across-vector add: two pairwise FADDP steps *)
Definition vaddvq_f32 (a : float32x4_t) : F :=
  let '(a0, a1, a2, a3) := a in f_add (f_add a0 a1) (f_add a2 a3).

(** what one block pair adds to a vector accumulator *)
Definition mla_block (xb : block_q4_0) (yb : block_q8_0)
    (acc : float32x4_t) : float32x4_t :=
  vmlaq_n_f32 acc (vcvtq_f32_s32 (block_dot xb yb))
    (f_mul (fp16_to_fp32 (q4_d xb)) (fp16_to_fp32 (q8_d yb))).

(** [(sumi0 + sumi1)*fp16_to_fp32(x[ib].d)*fp16_to_fp32(y[ib].d)] *)
Definition scalar_term (xb : block_q4_0) (yb : block_q8_0) : F :=
  f_mul (f_mul (f_of_int (scalar_block xb yb)) (fp16_to_fp32 (q4_d xb)))
        (fp16_to_fp32 (q8_d yb)).

Section Loops.
Variables (nb : Z) (x : list block_q4_0) (y : list block_q8_0).

Definition pair_state := (Z * float32x4_t * float32x4_t)%type.
Definition quad_state :=
  (Z * float32x4_t * float32x4_t * float32x4_t * float32x4_t)%type.

(** [ib + 1 < nb] *)
Definition pair_cond (st : pair_state) : bool :=
  let '(ib, _, _) := st in ib + 1 <? nb.

(** lines 56-86 *)
Definition pair_body_original (st : pair_state) : result pair_state :=
  let '(ib, sumv0, sumv1) := st in
  x0 <- load x (ib + 0) ;;
  x1 <- load x (ib + 1) ;;
  y0 <- load y (ib + 0) ;;
  y1 <- load y (ib + 1) ;;
  let m4b := vdupq_n_u8 15 in
  let s8b := vdupq_n_s8 8 in
  let v0_0 := vld1q_u8 (q4_qs x0) in
  let v0_1 := vld1q_u8 (q4_qs x1) in
  let v0_0l := vreinterpretq_s8_u8 (vandq_u8 v0_0 m4b) in
  let v0_0h := vreinterpretq_s8_u8 (vshrq_n_u8 v0_0 4) in
  let v0_1l := vreinterpretq_s8_u8 (vandq_u8 v0_1 m4b) in
  let v0_1h := vreinterpretq_s8_u8 (vshrq_n_u8 v0_1 4) in
  let v0_0ls := vsubq_s8 v0_0l s8b in
  let v0_0hs := vsubq_s8 v0_0h s8b in
  let v0_1ls := vsubq_s8 v0_1l s8b in
  let v0_1hs := vsubq_s8 v0_1h s8b in
  let v1_0l := vld1q_s8 (q8_qs y0) 0 in
  let v1_0h := vld1q_s8 (q8_qs y0) 16 in
  let v1_1l := vld1q_s8 (q8_qs y1) 0 in
  let v1_1h := vld1q_s8 (q8_qs y1) 16 in
  let p_0 := vdotq_s32 (vdotq_s32 (vdupq_n_s32 0) v0_0ls v1_0l) v0_0hs v1_0h in
  let p_1 := vdotq_s32 (vdotq_s32 (vdupq_n_s32 0) v0_1ls v1_1l) v0_1hs v1_1h in
  let sumv0 := vmlaq_n_f32 sumv0 (vcvtq_f32_s32 p_0)
                 (f_mul (fp16_to_fp32 (q4_d x0)) (fp16_to_fp32 (q8_d y0))) in
  let sumv1 := vmlaq_n_f32 sumv1 (vcvtq_f32_s32 p_1)
                 (f_mul (fp16_to_fp32 (q4_d x1)) (fp16_to_fp32 (q8_d y1))) in
  Ok (ib + 2, sumv0, sumv1).

(** [ib + 3 < nb] *)
Definition quad_cond (st : quad_state) : bool :=
  let '(ib, _, _, _, _) := st in ib + 3 <? nb.

(** lines 132-142, with [m4b] and [s8b] of lines 121-122 *)
Definition PROCESS_BLOCK (m4b : uint8x16_t) (s8b : int8x16_t)
    (ib IDX : Z) (ACC : float32x4_t) : result float32x4_t :=
  xi <- load x (ib + IDX) ;;
  yi <- load y (ib + IDX) ;;
  let qx := vld1q_u8 (q4_qs xi) in
  let qxl := vsubq_s8 (vreinterpretq_s8_u8 (vandq_u8 qx m4b)) s8b in
  let qxh := vsubq_s8 (vreinterpretq_s8_u8 (vshrq_n_u8 qx 4)) s8b in
  let qyl := vld1q_s8 (q8_qs yi) 0 in
  let qyh := vld1q_s8 (q8_qs yi) 16 in
  let p := vdotq_s32 (vdotq_s32 (vdupq_n_s32 0) qxl qyl) qxh qyh in
  Ok (vmlaq_n_f32 ACC (vcvtq_f32_s32 p)
        (f_mul (fp16_to_fp32 (q4_d xi)) (fp16_to_fp32 (q8_d yi)))).

(** lines 126-147; a prefetch loads nothing *)
Definition quad_body (m4b : uint8x16_t) (s8b : int8x16_t)
    (st : quad_state) : result quad_state :=
  let '(ib, sumv0, sumv1, sumv2, sumv3) := st in
  sumv0 <- PROCESS_BLOCK m4b s8b ib 0 sumv0 ;;
  sumv1 <- PROCESS_BLOCK m4b s8b ib 1 sumv1 ;;
  sumv2 <- PROCESS_BLOCK m4b s8b ib 2 sumv2 ;;
  sumv3 <- PROCESS_BLOCK m4b s8b ib 3 sumv3 ;;
  Ok (ib + 4, sumv0, sumv1, sumv2, sumv3).

(** lines 161-174 *)
Definition pair_body_optimized (m4b : uint8x16_t) (s8b : int8x16_t)
    (st : pair_state) : result pair_state :=
  let '(ib, sv0, sv1) := st in
  x0 <- load x ib ;;
  x1 <- load x (ib + 1) ;;
  let v0_0 := vld1q_u8 (q4_qs x0) in
  let v0_1 := vld1q_u8 (q4_qs x1) in
  let v0_0l := vsubq_s8 (vreinterpretq_s8_u8 (vandq_u8 v0_0 m4b)) s8b in
  let v0_0h := vsubq_s8 (vreinterpretq_s8_u8 (vshrq_n_u8 v0_0 4)) s8b in
  let v0_1l := vsubq_s8 (vreinterpretq_s8_u8 (vandq_u8 v0_1 m4b)) s8b in
  let v0_1h := vsubq_s8 (vreinterpretq_s8_u8 (vshrq_n_u8 v0_1 4)) s8b in
  y0 <- load y ib ;;
  y1 <- load y (ib + 1) ;;
  let v1_0l := vld1q_s8 (q8_qs y0) 0 in
  let v1_0h := vld1q_s8 (q8_qs y0) 16 in
  let v1_1l := vld1q_s8 (q8_qs y1) 0 in
  let v1_1h := vld1q_s8 (q8_qs y1) 16 in
  let p_0 := vdotq_s32 (vdotq_s32 (vdupq_n_s32 0) v0_0l v1_0l) v0_0h v1_0h in
  let p_1 := vdotq_s32 (vdotq_s32 (vdupq_n_s32 0) v0_1l v1_1l) v0_1h v1_1h in
  let sv0 := vmlaq_n_f32 sv0 (vcvtq_f32_s32 p_0)
               (f_mul (fp16_to_fp32 (q4_d x0)) (fp16_to_fp32 (q8_d y0))) in
  let sv1 := vmlaq_n_f32 sv1 (vcvtq_f32_s32 p_1)
               (f_mul (fp16_to_fp32 (q4_d x1)) (fp16_to_fp32 (q8_d y1))) in
  Ok (ib + 2, sv0, sv1).

(** [ib < nb] *)
Definition tail_cond (st : Z * F) : bool := let '(ib, _) := st in ib <? nb.

(** lines 92-99 and 180-187 *)
Definition tail_body (st : Z * F) : result (Z * F) :=
  let '(ib, sumf) := st in
  xi <- load x ib ;;
  yi <- load y ib ;;
  Ok (ib + 1, f_add sumf (scalar_term xi yi)).
End Loops.

(** No loop runs more often than there are blocks; [ib] stays below
    [nb + 4 <= 2^26 + 4], so its 32-bit additions never wrap. *)
Definition loop_fuel (nb : Z) : nat := Z.to_nat nb.

(** The value stored to [*s] by [vec_dot_q4_0_q8_0_original(n, s, vx, vy)]. *)
Definition vec_dot_q4_0_q8_0_original (n : Z)
    (vx : list block_q4_0) (vy : list block_q8_0) : result F :=
  let qk := QK4_0 in
  let nb := Z.quot n qk in
  let sumf := f_zero in
  let ib := 0 in
  let sumv0 := vdupq_n_f32 f_zero in
  let sumv1 := vdupq_n_f32 f_zero in
  '(ib, sumv0, sumv1) <-
     for_loop (loop_fuel nb) (pair_cond nb) (pair_body_original vx vy)
              (ib, sumv0, sumv1) ;;
  let sumf := f_add (vaddvq_f32 sumv0) (vaddvq_f32 sumv1) in
  '(_, sumf) <-
     for_loop (loop_fuel nb) (tail_cond nb) (tail_body vx vy) (ib, sumf) ;;
  Ok sumf.

(** The value stored to [*s] by [vec_dot_q4_0_q8_0_optimized(n, s, vx, vy)]. *)
Definition vec_dot_q4_0_q8_0_optimized (n : Z)
    (vx : list block_q4_0) (vy : list block_q8_0) : result F :=
  let qk := QK4_0 in
  let nb := Z.quot n qk in
  let sumf := f_zero in
  let ib := 0 in
  let sumv0 := vdupq_n_f32 f_zero in
  let sumv1 := vdupq_n_f32 f_zero in
  let sumv2 := vdupq_n_f32 f_zero in
  let sumv3 := vdupq_n_f32 f_zero in
  let m4b := vdupq_n_u8 15 in
  let s8b := vdupq_n_s8 8 in
  '(ib, sumv0, sumv1, sumv2, sumv3) <-
     for_loop (loop_fuel nb) (quad_cond nb) (quad_body vx vy m4b s8b)
              (ib, sumv0, sumv1, sumv2, sumv3) ;;
  let sumv0 := vaddq_f32 (vaddq_f32 sumv0 sumv1) (vaddq_f32 sumv2 sumv3) in
  let sumf := vaddvq_f32 sumv0 in
  let sv0 := vdupq_n_f32 f_zero in
  let sv1 := vdupq_n_f32 f_zero in
  '(ib, sv0, sv1) <-
     for_loop (loop_fuel nb) (pair_cond nb) (pair_body_optimized vx vy m4b s8b)
              (ib, sv0, sv1) ;;
  let sumf := f_add sumf (f_add (vaddvq_f32 sv0) (vaddvq_f32 sv1)) in
  '(_, sumf) <-
     for_loop (loop_fuel nb) (tail_cond nb) (tail_body vx vy) (ib, sumf) ;;
  Ok sumf.

(** *** The calls as state transformers

    The caller's memory, as far as a call can touch it: the two
    [const] buffers and the float that [s] points to ([__restrict__]:
    it overlaps neither buffer).  The functions have no [static] or
    global variable and call no allocator, so this is all the state
    there is. *)
Record memory := mk_memory {
  mem_vx : list block_q4_0;
  mem_vy : list block_q8_0;
  mem_s : F
}.

(** [*s = sumf] *)
Definition store_s (m : memory) (v : F) : memory :=
  {| mem_vx := mem_vx m; mem_vy := mem_vy m; mem_s := v |}.

Definition call_original (n : Z) (m : memory) : result memory :=
  sumf <- vec_dot_q4_0_q8_0_original n (mem_vx m) (mem_vy m) ;;
  Ok (store_s m sumf).

Definition call_optimized (n : Z) (m : memory) : result memory :=
  sumf <- vec_dot_q4_0_q8_0_optimized n (mem_vx m) (mem_vy m) ;;
  Ok (store_s m sumf).

End Kernels.

(** ** IEEE binary32 *)

Module B32.
Definition prec : Z := 24.
Definition emax : Z := 128.
Definition pzero : spec_float := S754_zero false.
Definition nzero : spec_float := S754_zero true.
Definition add : spec_float -> spec_float -> spec_float := SFadd prec emax.
Definition mul : spec_float -> spec_float -> spec_float := SFmul prec emax.
Definition sub : spec_float -> spec_float -> spec_float := SFsub prec emax.
Definition of_int (i : Z) : spec_float := binary_normalize prec emax i 0 false.
(** the binary32 value of a half with sign [s], exponent field [e] and
    fraction field [m] *)
Definition of_fp16_fields (s : bool) (e m : Z) : spec_float :=
  if e =? 31 then (if m =? 0 then S754_infinity s else S754_nan)
  else if e =? 0 then
    match m with
    | Zpos p => binary_round prec emax s p (-24)
    | _ => S754_zero s
    end
  else binary_round prec emax s (Z.to_pos (1024 + m)) (e - 25).

(** [(float)(__fp16)h]: sign bit 15, exponent bits 14..10, fraction bits
    9..0; every half-precision value is a binary32 value. *)
Definition of_fp16 (h : Z) : spec_float :=
  of_fp16_fields (Z.testbit h 15) (Z.land (Z.shiftr h 10) 31) (Z.land h 1023).

Definition is_finite (f : spec_float) : bool :=
  match f with
  | S754_zero _ | S754_finite _ _ _ => true
  | _ => false
  end.

(** the value of [f] is exactly the integer [z] *)
Definition represents_int (f : spec_float) (z : Z) : bool :=
  match f with
  | S754_zero _ => z =? 0
  | S754_finite s m e =>
      let v := if s then Z.neg m else Z.pos m in
      if e <? 0 then v =? z * 2 ^ (- e) else v * 2 ^ e =? z
  | _ => false
  end.

(** *** Shapes used in the proofs *)

Definition emin : Z := SpecFloat.emin prec emax.

(** a finite value whose exponent is one of the format *)
Definition above_emin (f : spec_float) : Prop :=
  match f with
  | S754_finite _ _ e => emin <= e
  | _ => True
  end.

(** what the widening of a half can be *)
Definition fp16_image (f : spec_float) : bool :=
  match f with
  | S754_finite _ m e => (Zpos m <? 2 ^ 24) && (e <=? -8)
  | _ => true
  end.

Definition fp16_check (e m : nat) : bool :=
  fp16_image (of_fp16_fields false (Z.of_nat e) (Z.of_nat m)) &&
  fp16_image (of_fp16_fields true (Z.of_nat e) (Z.of_nat m)).

End B32.

#[global] Instance binary32 : FloatOps spec_float := {
  f_zero := B32.pzero;
  f_add := B32.add;
  f_mul := B32.mul;
  f_of_int := B32.of_int;
  fp16_to_fp32 := B32.of_fp16
}.


(** ** The format contract, in the words of the specification *)

(** raw 4-bit fields of a packed byte *)
Definition nibble_lo (byte : Z) : Z := byte mod 16.
Definition nibble_hi (byte : Z) : Z := byte / 16.

(** Dequantized integer weight paired with activation slot [i < 32]: the
    low nibble of byte [i] for the first 16 slots, the high nibble of byte
    [i - 16] for the last 16. *)
Definition weight (xqs : list Z) (i : nat) : Z :=
  if (i <? 16)%nat then nibble_lo (lane xqs i) - 8
  else nibble_hi (lane xqs (i - 16)) - 8.

(** The inverted pairing: high nibbles against slots 0..15. *)
Definition weight_inverted (xqs : list Z) (i : nat) : Z :=
  if (i <? 16)%nat then nibble_hi (lane xqs i) - 8
  else nibble_lo (lane xqs (i - 16)) - 8.

(** [f 0 + ... + f (k - 1)] *)
Fixpoint zsum (f : nat -> Z) (k : nat) : Z :=
  match k with
  | O => 0
  | S k' => zsum f k' + f k'
  end.

(** product of element pair [i] of a block pair *)
Definition elem_product (xb : block_q4_0) (yb : block_q8_0) (i : nat) : Z :=
  weight (q4_qs xb) i * lane (q8_qs yb) i.

(** integer partial sum of a block pair: the 32 signed products *)
Definition block_isum (xb : block_q4_0) (yb : block_q8_0) : Z :=
  zsum (elem_product xb yb) 32.

Definition block_isum_inverted (xb : block_q4_0) (yb : block_q8_0) : Z :=
  zsum (fun i => weight_inverted (q4_qs xb) i * lane (q8_qs yb) i) 32.

(** the part of the block sum held by 32-bit lane [l]: slots [4l..4l+3]
    and [16+4l..16+4l+3] *)
Definition lane_isum (xb : block_q4_0) (yb : block_q8_0) (l : nat) : Z :=
  zsum (fun j => elem_product xb yb (4 * l + j)) 4
  + zsum (fun j => elem_product xb yb (16 + 4 * l + j)) 4.

(** the two halves of the scalar loop after [k] iterations, without wrap *)
Definition sumi0_exact (xb : block_q4_0) (yb : block_q8_0) (k : nat) : Z :=
  zsum (elem_product xb yb) k.
Definition sumi1_exact (xb : block_q4_0) (yb : block_q8_0) (k : nat) : Z :=
  zsum (fun j => elem_product xb yb (16 + j)) k.

(** ** The dot product of the specification *)

Definition block_x (vx : list block_q4_0) (k : nat) : block_q4_0 :=
  nth k vx (mk_q4_0 0 nil).
Definition block_y (vy : list block_q8_0) (k : nat) : block_q8_0 :=
  nth k vy (mk_q8_0 0 nil).


Section SpecDot.
Context {F : Type} {ops : FloatOps F}.

(** [f 0 + ... + f (k - 1)], from the left *)
Fixpoint fsum (f : nat -> F) (k : nat) : F :=
  match k with
  | O => f_zero
  | S k' => f_add (fsum f k') (f k')
  end.

(** integer partial sum of a block pair times both decoded scales *)
Definition block_term (xb : block_q4_0) (yb : block_q8_0) : F :=
  f_mul (f_mul (f_of_int (block_isum xb yb)) (fp16_to_fp32 (q4_d xb)))
        (fp16_to_fp32 (q8_d yb)).

(** the term of block pair [k] *)
Definition spec_term (vx : list block_q4_0) (vy : list block_q8_0) (k : nat) : F :=
  block_term (block_x vx k) (block_y vy k).

(** sum over all [n / 32] block pairs of the scaled partial sums *)
Definition spec_dot (n : Z) (vx : list block_q4_0) (vy : list block_q8_0) : F :=
  fsum (spec_term vx vy) (Z.to_nat (Z.quot n QK4_0)).

(** dequantize both blocks element by element, multiply paired
    elements, add the 32 products *)
Definition dequantized_dot (xb : block_q4_0) (yb : block_q8_0) : F :=
  fsum (fun i => f_mul (f_mul (f_of_int (weight (q4_qs xb) i)) (fp16_to_fp32 (q4_d xb)))
                       (f_mul (f_of_int (lane (q8_qs yb) i)) (fp16_to_fp32 (q8_d yb))))
       32.
End SpecDot.

(** ** Exact arithmetic on rationals *)

Module Exact.

Definition of_int (i : Z) : Qc := Q2Qc (inject_Z i).

(** [m * 2^e] *)
Definition scaled (m e : Z) : Qc :=
  match e with
  | Zneg p => Q2Qc (Qmake m (Pos.pow 2 p))
  | _ => Q2Qc (inject_Z (m * 2 ^ e))
  end.

(** the rational a finite half stands for; an infinity or a NaN has
    none and is read as 0 *)
Definition of_fp16 (h : Z) : Qc :=
  let s := Z.testbit h 15 in
  let e := Z.land (Z.shiftr h 10) 31 in
  let m := Z.land h 1023 in
  let v := if e =? 31 then Q2Qc 0
           else if e =? 0 then scaled m (-24)
           else scaled (1024 + m) (e - 25) in
  if s then Qcopp v else v.

(** the rational a finite binary32 value stands for *)
Definition of_b32 (f : spec_float) : option Qc :=
  match f with
  | S754_zero _ => Some (Q2Qc 0)
  | S754_finite s m e => Some (let v := scaled (Zpos m) e in if s then Qcopp v else v)
  | _ => None
  end.

End Exact.

Definition exact_ops : FloatOps Qc := {|
  f_zero := Q2Qc 0;
  f_add := Qcplus;
  f_mul := Qcmult;
  f_of_int := Exact.of_int;
  fp16_to_fp32 := Exact.of_fp16
|}.

(** ** Inputs named by the specification *)

(** every weight nibble is 8, the encoding of zero *)
Definition zero_weights (xb : block_q4_0) : bool :=
  forallb (Z.eqb 136) (q4_qs xb).

(** every activation byte is zero *)
Definition zero_activations (yb : block_q8_0) : bool :=
  forallb (Z.eqb 0) (q8_qs yb).

(** the stored scale is neither an infinity nor a NaN *)
Definition finite_scale_q4 (xb : block_q4_0) : bool := B32.is_finite (B32.of_fp16 (q4_d xb)).
Definition finite_scale_q8 (yb : block_q8_0) : bool := B32.is_finite (B32.of_fp16 (q8_d yb)).

(** the buffers hold the [n / 32] blocks of the call *)
Definition enough_blocks (n : Z) (vx : list block_q4_0) (vy : list block_q8_0) : bool :=
  (Z.quot n QK4_0 <=? Z.of_nat (length vx)) && (Z.quot n QK4_0 <=? Z.of_nat (length vy)).

(** a binary32 value that round-to-nearest sums can hold in a lane:
    any value of the format but [-0.0] *)
Definition regular (f : spec_float) : Prop := B32.above_emin f /\ f <> B32.nzero.

Definition regular4 (v : float32x4_t) : Prop :=
  let '(v0, v1, v2, v3) := v in regular v0 /\ regular v1 /\ regular v2 /\ regular v3.

(** [P z && P (z + 1) && ... ] over [k] consecutive integers *)
Fixpoint all_from (P : Z -> bool) (z : Z) (k : nat) : bool :=
  match k with
  | O => true
  | S k' => P z && all_from P (Z.succ z) k'
  end.

(** ** Agreement up to a relative error *)

Module Rel.

Definition Qcabs (q : Qc) : Qc :=
  match Qccompare q (Q2Qc 0) with Lt => Qcopp q | _ => q end.

Definition Qcmax (p q : Qc) : Qc :=
  match Qccompare p q with Lt => q | _ => p end.

Definition Qcltb (p q : Qc) : bool :=
  match Qccompare p q with Lt => true | _ => false end.

Definition Qcleb (p q : Qc) : bool :=
  match Qccompare p q with Gt => false | _ => true end.

(** [a = b], or [|a - b| < tol * max(|a|, |b|)], on the rationals two
    finite floats stand for: the most lenient reading of a relative error
    below [tol] (an error relative to either operand is at least the one
    relative to the larger).  An infinity or a NaN agrees with nothing. *)
Definition agree (tol : Qc) (a b : spec_float) : bool :=
  match Exact.of_b32 a, Exact.of_b32 b with
  | Some qa, Some qb =>
      match Qccompare qa qb with
      | Eq => true
      | _ => Qcltb (Qcabs (Qcminus qa qb)) (Qcmult tol (Qcmax (Qcabs qa) (Qcabs qb)))
      end
  | _, _ => false
  end.

(** 1e-5 *)
Definition tol_1e_5 : Qc := Q2Qc (Qmake 1 100000).

(** a stored scale between 0.01 and 10 *)
Definition moderate_scale (d : Z) : bool :=
  Int.in_u16 d && B32.is_finite (B32.of_fp16 d) &&
  Qcleb (Q2Qc (Qmake 1 100)) (Exact.of_fp16 d) &&
  Qcleb (Exact.of_fp16 d) (Q2Qc (Qmake 10 1)).

End Rel.

(** ** Concrete inputs *)

Module Inputs.




(** One block pair, every weight nibble 8, weight scale +infinity. *)
Definition inf_x : list block_q4_0 := [mk_q4_0 31744 (repeat 136 16)].
Definition one_y : list block_q8_0 := [mk_q8_0 15360 (repeat 1 32)].

(** One block pair with integer partial sum 31745 and both scales 1. *)
Definition odd_x : list block_q4_0 := [mk_q4_0 15360 (9 :: repeat 0 15)].
Definition odd_y : list block_q8_0 := [mk_q8_0 15360 (1 :: repeat (-128) 31)].

(** Three block pairs with mixed contents. *)
Definition mixed_x : list block_q4_0 :=
  [mk_q4_0 11878 (map (fun j => (7 + 13 * j) mod 256) (map Z.of_nat (seq 0 16)));
   mk_q4_0 11886 (map (fun j => (14 + 13 * j) mod 256) (map Z.of_nat (seq 0 16)));
   mk_q4_0 47104 (map (fun j => (21 + 13 * j) mod 256) (map Z.of_nat (seq 0 16)))].
Definition mixed_y : list block_q8_0 :=
  [mk_q8_0 10854 (map (fun j => (11 + 17 * j) mod 256 - 128) (map Z.of_nat (seq 0 32)));
   mk_q8_0 10870 (map (fun j => (22 + 17 * j) mod 256 - 128) (map Z.of_nat (seq 0 32)));
   mk_q8_0 10886 (map (fun j => (33 + 17 * j) mod 256 - 128) (map Z.of_nat (seq 0 32)))].

(** Nine block pairs as the benchmark's generator makes them: scale
    bits of [0.1 + 0.001 i] and [0.05 + 0.002 i], bytes [(7 i + 13 j) % 256]
    and [(11 i + 17 j) % 256 - 128]. *)
Definition bench_x : list block_q4_0 :=
  [mk_q4_0 11878 [0; 13; 26; 39; 52; 65; 78; 91; 104; 117; 130; 143; 156; 169; 182;
      195];
   mk_q4_0 11895 [7; 20; 33; 46; 59; 72; 85; 98; 111; 124; 137; 150; 163; 176; 189;
       202];
   mk_q4_0 11911 [14; 27; 40; 53; 66; 79; 92; 105; 118; 131; 144; 157; 170; 183; 196;
       209];
   mk_q4_0 11928 [21; 34; 47; 60; 73; 86; 99; 112; 125; 138; 151; 164; 177; 190; 203;
       216];
   mk_q4_0 11944 [28; 41; 54; 67; 80; 93; 106; 119; 132; 145; 158; 171; 184; 197; 210;
       223];
   mk_q4_0 11960 [35; 48; 61; 74; 87; 100; 113; 126; 139; 152; 165; 178; 191; 204;
       217; 230];
   mk_q4_0 11977 [42; 55; 68; 81; 94; 107; 120; 133; 146; 159; 172; 185; 198; 211;
       224; 237];
   mk_q4_0 11993 [49; 62; 75; 88; 101; 114; 127; 140; 153; 166; 179; 192; 205; 218;
       231; 244];
   mk_q4_0 12009 [56; 69; 82; 95; 108; 121; 134; 147; 160; 173; 186; 199; 212; 225;
       238; 251]].
Definition bench_y : list block_q8_0 :=
  [mk_q8_0 10854 [(-128); (-111); (-94); (-77); (-60); (-43); (-26); (-9); 8; 25; 42;
      59; 76; 93; 110; 127; (-112); (-95); (-78); (-61); (-44); (-27); (-10); 7; 24;
      41; 58; 75; 92; 109; 126; (-113)];
   mk_q8_0 10920 [(-117); (-100); (-83); (-66); (-49); (-32); (-15); 2; 19; 36; 53;
       70; 87; 104; 121; (-118); (-101); (-84); (-67); (-50); (-33); (-16); 1; 18; 35;
       52; 69; 86; 103; 120; (-119); (-102)];
   mk_q8_0 10985 [(-106); (-89); (-72); (-55); (-38); (-21); (-4); 13; 30; 47; 64; 81;
       98; 115; (-124); (-107); (-90); (-73); (-56); (-39); (-22); (-5); 12; 29; 46;
       63; 80; 97; 114; (-125); (-108); (-91)];
   mk_q8_0 11051 [(-95); (-78); (-61); (-44); (-27); (-10); 7; 24; 41; 58; 75; 92;
       109; 126; (-113); (-96); (-79); (-62); (-45); (-28); (-11); 6; 23; 40; 57; 74;
       91; 108; 125; (-114); (-97); (-80)];
   mk_q8_0 11117 [(-84); (-67); (-50); (-33); (-16); 1; 18; 35; 52; 69; 86; 103; 120;
       (-119); (-102); (-85); (-68); (-51); (-34); (-17); 0; 17; 34; 51; 68; 85; 102;
       119; (-120); (-103); (-86); (-69)];
   mk_q8_0 11182 [(-73); (-56); (-39); (-22); (-5); 12; 29; 46; 63; 80; 97; 114;
       (-125); (-108); (-91); (-74); (-57); (-40); (-23); (-6); 11; 28; 45; 62; 79;
       96; 113; (-126); (-109); (-92); (-75); (-58)];
   mk_q8_0 11248 [(-62); (-45); (-28); (-11); 6; 23; 40; 57; 74; 91; 108; 125; (-114);
       (-97); (-80); (-63); (-46); (-29); (-12); 5; 22; 39; 56; 73; 90; 107; 124;
       (-115); (-98); (-81); (-64); (-47)];
   mk_q8_0 11289 [(-51); (-34); (-17); 0; 17; 34; 51; 68; 85; 102; 119; (-120);
       (-103); (-86); (-69); (-52); (-35); (-18); (-1); 16; 33; 50; 67; 84; 101; 118;
       (-121); (-104); (-87); (-70); (-53); (-36)];
   mk_q8_0 11321 [(-40); (-23); (-6); 11; 28; 45; 62; 79; 96; 113; (-126); (-109);
       (-92); (-75); (-58); (-41); (-24); (-7); 10; 27; 44; 61; 78; 95; 112; (-127);
       (-110); (-93); (-76); (-59); (-42); (-25)]].

(** The same three pairs with every weight nibble 8. *)
Definition zero_x : list block_q4_0 :=
  map (fun b => mk_q4_0 (q4_d b) (repeat 136 16)) mixed_x.


End Inputs.

(** ** benchmark.c: the callers of the kernels *)

(** [buf[i] = v] *)
Definition store {A : Type} (buf : list A) (i : Z) (v : A) : result (list A) :=
  if (i <? 0) || (Z.of_nat (length buf) <=? i) then OutOfBounds
  else Ok (firstn (Z.to_nat i) buf ++ v :: skipn (S (Z.to_nat i)) buf).

Module Half.

(** binary16: 11 bits of precision, exponents below 16 *)
Definition prec : Z := 11.
Definition emax : Z := 16.

Definition sign_bit (s : bool) : Z := if s then 32768 else 0.

(** The 16 bits that store a binary16 value: sign, five exponent bits
    (biased by 15), ten fraction bits.  The model has one NaN; it is
    stored as the default NaN 0x7E00. *)
Definition bits (f : spec_float) : Z :=
  match f with
  | S754_zero s => sign_bit s
  | S754_infinity s => sign_bit s + 31744
  | S754_nan => 32256
  | S754_finite s m e =>
      sign_bit s + (if Zpos m <? 1024 then Zpos m
                    else (e + 25) * 1024 + (Zpos m - 1024))
  end.

(** sign, integer significand and exponent of a half that is neither an
    infinity nor a NaN: it stands for [(-1)^s * m * 2^e] *)
Definition decode (h : Z) : bool * Z * Z :=
  let e := Z.land (Z.shiftr h 10) 31 in
  let m := Z.land h 1023 in
  (Z.testbit h 15, if e =? 0 then m else 1024 + m, if e =? 0 then -24 else e - 25).

(** a bit pattern whose exponent field is 31 and whose fraction is not 0 *)
Definition is_nan_bits (h : Z) : bool :=
  (Z.land (Z.shiftr h 10) 31 =? 31) && negb (Z.land h 1023 =? 0).

End Half.

(** [fp32_to_fp16] (benchmark.c, lines 42-47): [(__fp16)f], round to
    nearest even into binary16, then the copy of its 16 bits. *)
Definition fp32_to_fp16 (f : spec_float) : Z :=
  Half.bits (match f with
             | S754_finite s m e => binary_round Half.prec Half.emax s m e
             | _ => f
             end).

Module Benchmark.

(** the float literals [0.1f], [0.001f], [0.05f], [0.002f], [1e-10f] and
    the double literal [1e-5] *)
Definition c_0_1f : spec_float := S754_finite false 13421773 (-27).
Definition c_0_001f : spec_float := S754_finite false 8589935 (-33).
Definition c_0_05f : spec_float := S754_finite false 13421773 (-28).
Definition c_0_002f : spec_float := S754_finite false 8589935 (-32).
Definition c_1e_10f : spec_float := S754_finite false 14411519 (-57).
Definition c_1e_5 : spec_float := S754_finite false 5902958103587057 (-69).

(** indices [0 .. k-1] of an inner loop *)
Definition indices (k : nat) : list Z := map Z.of_nat (seq 0 k).

(** [(uint8_t)((i * 7 + j * 13) % 256)] *)
Definition q4_byte (i j : Z) : Z :=
  Int.wrap_u8 (Z.rem (Int.wrap_s32 (Int.wrap_s32 (i * 7) + Int.wrap_s32 (j * 13))) 256).

(** [fp32_to_fp16(0.1f + 0.001f * (i % 100))]: the remainder converted
    to [float], the product and the sum each rounded to binary32 *)
Definition q4_scale (i : Z) : Z :=
  fp32_to_fp16 (B32.add c_0_1f (B32.mul c_0_001f (B32.of_int (Z.rem i 100)))).

(** what lines 55-59 assign to [blocks[i]]: the scale and all 16 bytes *)
Definition q4_block (i : Z) : block_q4_0 :=
  mk_q4_0 (q4_scale i) (map (q4_byte i) (indices 16)).

(** [(int8_t)((i * 11 + j * 17) % 256 - 128)] *)
Definition q8_byte (i j : Z) : Z :=
  Int.wrap_s8
    (Z.rem (Int.wrap_s32 (Int.wrap_s32 (i * 11) + Int.wrap_s32 (j * 17))) 256 - 128).

(** [fp32_to_fp16(0.05f + 0.002f * (i % 50))] *)
Definition q8_scale (i : Z) : Z :=
  fp32_to_fp16 (B32.add c_0_05f (B32.mul c_0_002f (B32.of_int (Z.rem i 50)))).

(** what lines 65-68 assign to [blocks[i]]: the scale and all 32 bytes *)
Definition q8_block (i : Z) : block_q8_0 :=
  mk_q8_0 (q8_scale i) (map (q8_byte i) (indices 32)).

(** [generate_q4_0_blocks(blocks, nb)], lines 53-61 *)
Definition generate_q4_0_blocks (blocks : list block_q4_0) (nb : Z)
    : result (list block_q4_0) :=
  st <- for_loop (loop_fuel nb) (fun st : Z * list block_q4_0 => fst st <? nb)
          (fun st => let '(i, blocks) := st in
                     blocks <- store blocks i (q4_block i) ;;
                     Ok (i + 1, blocks))
          (0, blocks) ;;
  Ok (snd st).

(** [generate_q8_0_blocks(blocks, nb)], lines 63-70 *)
Definition generate_q8_0_blocks (blocks : list block_q8_0) (nb : Z)
    : result (list block_q8_0) :=
  st <- for_loop (loop_fuel nb) (fun st : Z * list block_q8_0 => fst st <? nb)
          (fun st => let '(i, blocks) := st in
                     blocks <- store blocks i (q8_block i) ;;
                     Ok (i + 1, blocks))
          (0, blocks) ;;
  Ok (snd st).

(** [if (n < 32) n = 32; n = (n / 32) * 32;], lines 83-84 *)
Definition normalize_n (n : Z) : Z :=
  let n := if n <? 32 then 32 else n in
  Int.wrap_s32 (Z.quot n 32 * 32).

(** [(double)f]: every binary32 value is a binary64 value *)
Definition to_double (f : spec_float) : spec_float :=
  match f with
  | S754_finite s m e => binary_round 53 1024 s m e
  | _ => f
  end.

(** lines 112-119: [true] when the program prints PASS *)
Definition correctness_status (result_orig result_opt : spec_float) : bool :=
  let diff := SFabs (B32.sub result_orig result_opt) in
  let rel_err := SFdiv B32.prec B32.emax diff (B32.add (SFabs result_orig) c_1e_10f) in
  SFltb (to_double rel_err) c_1e_5.

(** [const int warmup = 1000;] *)
Definition warmup : Z := 1000.

(** lines 104-107: one iteration of the warm-up loop *)
Definition warmup_body (n : Z) (x : list block_q4_0) (y : list block_q8_0)
    (st : Z * spec_float * spec_float) : result (Z * spec_float * spec_float) :=
  let '(i, _, _) := st in
  result_orig <- vec_dot_q4_0_q8_0_original n x y ;;
  result_opt <- vec_dot_q4_0_q8_0_optimized n x y ;;
  Ok (i + 1, result_orig, result_opt).

(** Lines 83-119 of [main] for a requested element count [n]; [x] and
    [y] are the arrays [aligned_alloc] returned, [n / 32] blocks each,
    their contents arbitrary.  Returns the two results and the status
    ([true] for PASS); what is printed besides is left out. *)
Definition main_verify (n : Z) (x : list block_q4_0) (y : list block_q8_0)
    : result (spec_float * spec_float * bool) :=
  let n := normalize_n n in
  let nb := Z.quot n QK4_0 in
  x <- generate_q4_0_blocks x nb ;;
  y <- generate_q8_0_blocks y nb ;;
  let result_orig := B32.pzero in
  let result_opt := B32.pzero in
  '(_, result_orig, result_opt) <-
     for_loop (Z.to_nat warmup)
       (fun st : Z * spec_float * spec_float => fst (fst st) <? warmup)
       (warmup_body n x y) (0, result_orig, result_opt) ;;
  result_orig <- vec_dot_q4_0_q8_0_original n x y ;;
  result_opt <- vec_dot_q4_0_q8_0_optimized n x y ;;
  Ok (result_orig, result_opt, correctness_status result_orig result_opt).

(** the arrays after both generators, as lists *)
Definition q4_data (nb : Z) : list block_q4_0 := map q4_block (indices (Z.to_nat nb)).
Definition q8_data (nb : Z) : list block_q8_0 := map q8_block (indices (Z.to_nat nb)).

End Benchmark.

(** ** Checks used by the exhaustive arguments *)

(** structural equality of two values *)
Definition float_eqb (a b : spec_float) : bool :=
  match a, b with
  | S754_zero s, S754_zero t => Bool.eqb s t
  | S754_infinity s, S754_infinity t => Bool.eqb s t
  | S754_nan, S754_nan => true
  | S754_finite s m e, S754_finite t n f => Bool.eqb s t && (m =? n)%positive && (e =? f)
  | _, _ => false
  end.

(** [f] is exactly [(-1)^s * m * 2^e] *)
Definition holds (f : spec_float) (s : bool) (m e : Z) : bool :=
  match f with
  | S754_zero t => Bool.eqb t s && (m =? 0)
  | S754_finite t M E => Bool.eqb t s && (E <=? e) && (Zpos M =? m * 2 ^ (e - E))
  | _ => false
  end.

(** what the widening of a half is, in full: a finite value that is not
    zero has 24 digits, the low 13 of them zero *)
Definition half_image (f : spec_float) : bool :=
  match f with
  | S754_finite _ m e =>
      (2 ^ 23 <=? Zpos m) && (Zpos m <? 2 ^ 24) && (Zpos m mod 2 ^ 13 =? 0)
      && (-47 <=? e) && (e <=? -8)
  | _ => true
  end.

(** everything checked of one bit pattern [h] *)
Definition half_check (h : Z) : bool :=
  let f := B32.of_fp16 h in
  valid_binary B32.prec B32.emax f &&
  Bool.eqb (B32.is_finite f) (negb (Z.land (Z.shiftr h 10) 31 =? 31)) &&
  half_image f &&
  (negb (B32.is_finite f) ||
   (let '(s, m, e) := Half.decode h in holds f s m e)) &&
  (Half.is_nan_bits h || (fp32_to_fp16 f =? h)) &&
  float_eqb (B32.of_fp16 (Z.lxor h 32768)) (SFopp f).

(** both kernels on the first [nb] blocks of [x] and [y], and the status
    [main] prints for the two results *)
Definition passes (x : list block_q4_0) (y : list block_q8_0) (nb : Z) : bool :=
  match vec_dot_q4_0_q8_0_original (32 * nb) x y,
        vec_dot_q4_0_q8_0_optimized (32 * nb) x y with
  | Ok a, Ok b =>
      Benchmark.correctness_status a b && B32.is_finite a && B32.is_finite b
  | _, _ => false
  end.


(* ================================================================== *)
(** * Properties *)
(* ================================================================== *)

(** ** Fixed-width integers *)

Lemma wrap_s8_small z : -128 <= z < 128 -> Int.wrap_s8 z = z.
Proof. intros H. unfold Int.wrap_s8. rewrite Z.mod_small; lia. Qed.

Lemma wrap_s32_small z : -2147483648 <= z < 2147483648 -> Int.wrap_s32 z = z.
Proof. intros H. unfold Int.wrap_s32. rewrite Z.mod_small; lia. Qed.

Lemma in_u8_iff z : Int.in_u8 z = true <-> 0 <= z < 256.
Proof. unfold Int.in_u8. rewrite andb_true_iff, Z.leb_le, Z.ltb_lt. tauto. Qed.

Lemma in_s8_iff z : Int.in_s8 z = true <-> -128 <= z < 128.
Proof. unfold Int.in_s8. rewrite andb_true_iff, Z.leb_le, Z.ltb_lt. tauto. Qed.

Lemma in_u16_iff z : Int.in_u16 z = true <-> 0 <= z < 65536.
Proof. unfold Int.in_u16. rewrite andb_true_iff, Z.leb_le, Z.ltb_lt. tauto. Qed.

Lemma land_15 b : Z.land b 15 = b mod 16.
Proof. change 15 with (Z.ones 4). rewrite Z.land_ones by lia. reflexivity. Qed.

Lemma shiftr_4 b : Z.shiftr b 4 = b / 16.
Proof. rewrite Z.shiftr_div_pow2 by lia. reflexivity. Qed.

Lemma nibble_lo_range b : 0 <= nibble_lo b < 16.
Proof. unfold nibble_lo. apply Z.mod_pos_bound. lia. Qed.

Lemma nibble_hi_range b : 0 <= b < 256 -> 0 <= nibble_hi b < 16.
Proof.
  intros H. unfold nibble_hi. split.
  - apply Z.div_pos; lia.
  - apply Z.div_lt_upper_bound; lia.
Qed.

Lemma decode_nibble_pair_eq b :
  decode_nibble_pair b = (nibble_lo b - 8, nibble_hi b - 8).
Proof. unfold decode_nibble_pair. rewrite land_15, shiftr_4. reflexivity. Qed.

(** ** Well-formed blocks *)

Lemma lane_forallb (P : Z -> bool) (l : list Z) (i : nat) :
  forallb P l = true -> P 0 = true -> P (lane l i) = true.
Proof.
  intros Hl H0. unfold lane. revert i.
  induction l as [|a l IH]; intros [|i]; simpl in *; auto.
  - apply andb_true_iff in Hl. tauto.
  - apply andb_true_iff in Hl. apply IH. tauto.
Qed.

Lemma wf_q4_0_inv xb :
  wf_q4_0 xb = true ->
  0 <= q4_d xb < 65536 /\ length (q4_qs xb) = 16%nat /\
  forall i, 0 <= lane (q4_qs xb) i < 256.
Proof.
  unfold wf_q4_0. rewrite !andb_true_iff, in_u16_iff, Nat.eqb_eq.
  intros [[Hd Hl] Hq]. repeat split; try tauto; try lia;
    apply in_u8_iff, lane_forallb; auto.
Qed.

Lemma wf_q8_0_inv yb :
  wf_q8_0 yb = true ->
  0 <= q8_d yb < 65536 /\ length (q8_qs yb) = 32%nat /\
  forall i, -128 <= lane (q8_qs yb) i < 128.
Proof.
  unfold wf_q8_0. rewrite !andb_true_iff, in_u16_iff, Nat.eqb_eq.
  intros [[Hd Hl] Hq]. repeat split; try tauto; try lia;
    apply in_s8_iff, lane_forallb; auto.
Qed.

Lemma weight_range xb i :
  wf_q4_0 xb = true -> -8 <= weight (q4_qs xb) i <= 7.
Proof.
  intros Hx. destruct (wf_q4_0_inv _ Hx) as (_ & _ & Hq).
  unfold weight. destruct (i <? 16)%nat.
  - pose proof (nibble_lo_range (lane (q4_qs xb) i)). lia.
  - pose proof (nibble_hi_range _ (Hq (i - 16)%nat)). lia.
Qed.

Lemma elem_product_range xb yb i :
  wf_q4_0 xb = true -> wf_q8_0 yb = true ->
  -1016 <= elem_product xb yb i <= 1024.
Proof.
  intros Hx Hy. unfold elem_product.
  pose proof (weight_range xb i Hx).
  destruct (wf_q8_0_inv _ Hy) as (_ & _ & Hq). specialize (Hq i). nia.
Qed.

Lemma zsum_range (f : nat -> Z) (lo hi : Z) (k : nat) :
  (forall i, lo <= f i <= hi) ->
  Z.of_nat k * lo <= zsum f k <= Z.of_nat k * hi.
Proof.
  intros Hf. induction k as [|k IH].
  - simpl. lia.
  - cbn [zsum]. specialize (Hf k). lia.
Qed.


(** ** The scalar inner loop *)

Lemma scalar_sums_S xqs yqs k :
  scalar_sums xqs yqs (S k) = scalar_step xqs yqs (scalar_sums xqs yqs k) k.
Proof.
  unfold scalar_sums. rewrite seq_S, fold_left_app. reflexivity.
Qed.

Lemma scalar_step_exact xb yb k :
  wf_q4_0 xb = true -> wf_q8_0 yb = true -> (k < 16)%nat ->
  scalar_step (q4_qs xb) (q8_qs yb) (sumi0_exact xb yb k, sumi1_exact xb yb k) k
  = (sumi0_exact xb yb (S k), sumi1_exact xb yb (S k)).
Proof.
  intros Hx Hy Hk. unfold scalar_step. rewrite decode_nibble_pair_eq.
  pose proof (elem_product_range xb yb k Hx Hy) as P0.
  pose proof (elem_product_range xb yb (16 + k) Hx Hy) as P1.
  pose proof (zsum_range (elem_product xb yb) _ _ k
                (fun i => elem_product_range xb yb i Hx Hy)) as S0.
  pose proof (zsum_range (fun j => elem_product xb yb (16 + j)) _ _ k
                (fun i => elem_product_range xb yb (16 + i) Hx Hy)) as S1.
  assert (E0 : (nibble_lo (lane (q4_qs xb) k) - 8) * lane (q8_qs yb) k
               = elem_product xb yb k).
  { unfold elem_product, weight.
    destruct (Nat.ltb_spec k 16); [reflexivity | lia]. }
  assert (E1 : (nibble_hi (lane (q4_qs xb) k) - 8) * lane (q8_qs yb) (k + 16)
               = elem_product xb yb (16 + k)).
  { unfold elem_product, weight.
    destruct (Nat.ltb_spec (16 + k) 16); [lia|].
    replace (16 + k - 16)%nat with k by lia.
    replace (k + 16)%nat with (16 + k)%nat by lia. reflexivity. }
  rewrite E0, E1.
  unfold sumi0_exact, sumi1_exact in *. cbn [zsum].
  rewrite !(wrap_s32_small (elem_product _ _ _)) by lia.
  rewrite !wrap_s32_small by lia. reflexivity.
Qed.

Lemma scalar_sums_exact xb yb k :
  wf_q4_0 xb = true -> wf_q8_0 yb = true -> (k <= 16)%nat ->
  scalar_sums (q4_qs xb) (q8_qs yb) k = (sumi0_exact xb yb k, sumi1_exact xb yb k).
Proof.
  intros Hx Hy. induction k as [|k IH]; intros Hk.
  - reflexivity.
  - rewrite scalar_sums_S, IH by lia. apply scalar_step_exact; auto.
Qed.

Lemma zsum_split (f : nat -> Z) (a b : nat) :
  zsum f (a + b) = zsum f a + zsum (fun j => f (a + j)%nat) b.
Proof.
  induction b as [|b IH].
  - rewrite Nat.add_0_r. simpl. lia.
  - rewrite Nat.add_succ_r. cbn [zsum]. rewrite IH. lia.
Qed.

Lemma block_isum_halves xb yb :
  block_isum xb yb = sumi0_exact xb yb 16 + sumi1_exact xb yb 16.
Proof.
  unfold block_isum, sumi0_exact, sumi1_exact.
  change 32%nat with (16 + 16)%nat. apply zsum_split.
Qed.

Lemma block_isum_range xb yb :
  wf_q4_0 xb = true -> wf_q8_0 yb = true ->
  -32512 <= block_isum xb yb <= 32768.
Proof.
  intros Hx Hy.
  pose proof (zsum_range (elem_product xb yb) _ _ 32
                (fun i => elem_product_range xb yb i Hx Hy)).
  unfold block_isum. lia.
Qed.

Lemma scalar_block_exact xb yb :
  wf_q4_0 xb = true -> wf_q8_0 yb = true ->
  scalar_block xb yb = block_isum xb yb.
Proof.
  intros Hx Hy. unfold scalar_block.
  change (Z.to_nat (QK4_0 / 2)) with 16%nat.
  rewrite scalar_sums_exact by auto.
  rewrite <- block_isum_halves.
  apply wrap_s32_small. pose proof (block_isum_range xb yb Hx Hy). lia.
Qed.

(** ** The vector code *)

Lemma lane_lanewise2 f a b i :
  (i < length a)%nat -> (i < length b)%nat ->
  lane (lanewise2 f a b) i = f (lane a i) (lane b i).
Proof.
  unfold lane, lanewise2. revert b i.
  induction a as [|x a IH]; intros [|y b] [|i]; simpl; intros; try lia; auto.
  apply IH; lia.
Qed.

Lemma lane_map f a i :
  (i < length a)%nat -> lane (map f a) i = f (lane a i).
Proof.
  unfold lane. revert i.
  induction a as [|x a IH]; intros [|i]; simpl; intros; try lia; auto.
  apply IH; lia.
Qed.

Lemma lane_repeat c n i : (i < n)%nat -> lane (repeat c n) i = c.
Proof.
  unfold lane. revert i.
  induction n as [|n IH]; intros [|i]; simpl; intros; try lia; auto.
  apply IH; lia.
Qed.

Lemma lane_vld1q_u8 qs i : (i < 16)%nat -> lane (vld1q_u8 qs) i = lane qs i.
Proof.
  intros H. unfold lane, vld1q_u8. rewrite nth_firstn.
  destruct (Nat.ltb_spec i 16); [reflexivity | lia].
Qed.

Lemma lane_vld1q_s8 qs off i :
  (i < 16)%nat -> lane (vld1q_s8 qs off) i = lane qs (off + i).
Proof.
  intros H. unfold lane, vld1q_s8. rewrite nth_firstn, nth_skipn.
  destruct (Nat.ltb_spec i 16); [reflexivity | lia].
Qed.

Section BlockLanes.
Variables (xb : block_q4_0) (yb : block_q8_0).
Hypothesis Hx : wf_q4_0 xb = true.
Hypothesis Hy : wf_q8_0 yb = true.

Lemma length_qx : length (vld1q_u8 (q4_qs xb)) = 16%nat.
Proof.
  destruct (wf_q4_0_inv _ Hx) as (_ & Hl & _).
  unfold vld1q_u8. rewrite length_firstn. lia.
Qed.

(** lane [i] of [qxl]: the low nibble of byte [i], minus 8 *)
Lemma lane_qxl i :
  (i < 16)%nat ->
  lane (vsubq_s8 (vreinterpretq_s8_u8 (vandq_u8 (vld1q_u8 (q4_qs xb)) (vdupq_n_u8 15))) (vdupq_n_s8 8)) i
  = weight (q4_qs xb) i.
Proof.
  intros Hi. pose proof length_qx as Hl.
  destruct (wf_q4_0_inv _ Hx) as (_ & _ & Hq).
  unfold vsubq_s8, vreinterpretq_s8_u8, vandq_u8.
  assert (Hm : length (vdupq_n_u8 15) = 16%nat) by apply repeat_length.
  assert (Hs : length (vdupq_n_s8 8) = 16%nat) by apply repeat_length.
  rewrite lane_lanewise2;
    [| unfold lanewise2; rewrite !length_map, length_combine; lia | lia].
  rewrite lane_map by (unfold lanewise2; rewrite length_map, length_combine; lia).
  rewrite lane_lanewise2 by lia.
  unfold vdupq_n_u8, vdupq_n_s8. rewrite !lane_repeat by lia.
  rewrite lane_vld1q_u8 by lia.
  change (Int.wrap_u8 15) with 15. change (Int.wrap_s8 8) with 8.
  rewrite land_15. unfold weight.
  destruct (Nat.ltb_spec i 16); [|lia].
  pose proof (nibble_lo_range (lane (q4_qs xb) i)). unfold nibble_lo in *.
  rewrite (wrap_s8_small (_ mod 16)) by lia. apply wrap_s8_small. lia.
Qed.

(** lane [i] of [qxh]: the high nibble of byte [i], minus 8 *)
Lemma lane_qxh i :
  (i < 16)%nat ->
  lane (vsubq_s8 (vreinterpretq_s8_u8 (vshrq_n_u8 (vld1q_u8 (q4_qs xb)) 4)) (vdupq_n_s8 8)) i
  = weight (q4_qs xb) (16 + i).
Proof.
  intros Hi. pose proof length_qx as Hl.
  destruct (wf_q4_0_inv _ Hx) as (_ & _ & Hq).
  unfold vsubq_s8, vreinterpretq_s8_u8, vshrq_n_u8.
  assert (Hs : length (vdupq_n_s8 8) = 16%nat) by apply repeat_length.
  rewrite lane_lanewise2 by (rewrite ?length_map; lia).
  rewrite !lane_map by (rewrite ?length_map; lia).
  unfold vdupq_n_s8. rewrite lane_repeat by lia.
  rewrite lane_vld1q_u8 by lia.
  change (Int.wrap_s8 8) with 8. rewrite shiftr_4. unfold weight.
  destruct (Nat.ltb_spec (16 + i) 16); [lia|].
  replace (16 + i - 16)%nat with i by lia.
  pose proof (nibble_hi_range _ (Hq i)). unfold nibble_hi in *.
  rewrite (wrap_s8_small (_ / 16)) by lia. apply wrap_s8_small. lia.
Qed.

Lemma dot4_low l :
  (l < 4)%nat ->
  dot4 (vsubq_s8 (vreinterpretq_s8_u8 (vandq_u8 (vld1q_u8 (q4_qs xb)) (vdupq_n_u8 15))) (vdupq_n_s8 8))
       (vld1q_s8 (q8_qs yb) 0) l
  = zsum (fun j => elem_product xb yb (4 * l + j)) 4.
Proof.
  intros Hl. unfold dot4. rewrite !lane_qxl, !lane_vld1q_s8 by lia.
  cbn [zsum]. unfold elem_product.
  rewrite !Nat.add_0_r. cbn [Nat.add]. lia.
Qed.

Lemma dot4_high l :
  (l < 4)%nat ->
  dot4 (vsubq_s8 (vreinterpretq_s8_u8 (vshrq_n_u8 (vld1q_u8 (q4_qs xb)) 4)) (vdupq_n_s8 8))
       (vld1q_s8 (q8_qs yb) 16) l
  = zsum (fun j => elem_product xb yb (16 + 4 * l + j)) 4.
Proof.
  intros Hl. unfold dot4. rewrite !lane_qxh, !lane_vld1q_s8 by lia.
  cbn [zsum]. unfold elem_product.
  rewrite !Nat.add_0_r, !Nat.add_assoc. lia.
Qed.

Lemma lane_isum_range l : -8128 <= lane_isum xb yb l <= 8192.
Proof.
  unfold lane_isum.
  pose proof (zsum_range (fun j => elem_product xb yb (4 * l + j)) _ _ 4
                (fun i => elem_product_range xb yb _ Hx Hy)).
  pose proof (zsum_range (fun j => elem_product xb yb (16 + 4 * l + j)) _ _ 4
                (fun i => elem_product_range xb yb _ Hx Hy)).
  lia.
Qed.

Lemma block_dot_exact :
  block_dot xb yb
  = (lane_isum xb yb 0, lane_isum xb yb 1, lane_isum xb yb 2, lane_isum xb yb 3).
Proof.
  unfold block_dot. cbv zeta. unfold vdotq_s32, vdupq_n_s32.
  rewrite !dot4_low, !dot4_high by lia.
  pose proof (lane_isum_range 0). pose proof (lane_isum_range 1).
  pose proof (lane_isum_range 2). pose proof (lane_isum_range 3).
  pose proof (zsum_range (fun j => elem_product xb yb (4 * 0 + j)) _ _ 4
                (fun i => elem_product_range xb yb _ Hx Hy)).
  pose proof (zsum_range (fun j => elem_product xb yb (4 * 1 + j)) _ _ 4
                (fun i => elem_product_range xb yb _ Hx Hy)).
  pose proof (zsum_range (fun j => elem_product xb yb (4 * 2 + j)) _ _ 4
                (fun i => elem_product_range xb yb _ Hx Hy)).
  pose proof (zsum_range (fun j => elem_product xb yb (4 * 3 + j)) _ _ 4
                (fun i => elem_product_range xb yb _ Hx Hy)).
  unfold lane_isum in *.
  rewrite !(wrap_s32_small (0 + _)) by lia.
  rewrite !wrap_s32_small by lia.
  repeat f_equal; lia.
Qed.

Lemma lane_isum_total :
  lane_isum xb yb 0 + lane_isum xb yb 1 + lane_isum xb yb 2 + lane_isum xb yb 3
  = block_isum xb yb.
Proof.
  unfold lane_isum, block_isum. cbn [zsum]. cbn [Nat.add Nat.mul]. lia.
Qed.

End BlockLanes.

(** ** Loops *)

Lemma for_loop_ext {S : Type} (cond : S -> bool) (b1 b2 : S -> result S) :
  (forall s, b1 s = b2 s) ->
  forall fuel s, for_loop fuel cond b1 s = for_loop fuel cond b2 s.
Proof.
  intros E fuel. induction fuel as [|fuel IH]; intros s; simpl.
  - reflexivity.
  - destruct (cond s); [|reflexivity]. rewrite E.
    destruct (b2 s); simpl; auto.
Qed.

Lemma for_loop_exit {S : Type} (cond : S -> bool) (body : S -> result S) fuel s :
  cond s = false -> for_loop fuel cond body s = Ok s.
Proof. intros H. destruct fuel; simpl; rewrite H; reflexivity. Qed.

Lemma for_loop_step {S : Type} (cond : S -> bool) (body : S -> result S) fuel s :
  cond s = true ->
  for_loop (Datatypes.S fuel) cond body s = (s' <- body s ;; for_loop fuel cond body s').
Proof. intros H. simpl. rewrite H. reflexivity. Qed.

(** Total correctness: an invariant kept by a body that always succeeds
    and lowers a measure holds on exit. *)
Lemma for_loop_rule {S : Type} (I : S -> Prop) (m : S -> nat)
    (cond : S -> bool) (body : S -> result S) :
  (forall s, I s -> cond s = true ->
     exists s', body s = Ok s' /\ I s' /\ (m s' < m s)%nat) ->
  forall fuel s, I s -> (m s <= fuel)%nat ->
  exists s', for_loop fuel cond body s = Ok s' /\ I s' /\ cond s' = false.
Proof.
  intros Hbody fuel. induction fuel as [|fuel IH]; intros s Hs Hm.
  - destruct (cond s) eqn:C.
    + destruct (Hbody s Hs C) as (s' & _ & _ & Hlt). lia.
    + exists s. rewrite for_loop_exit by assumption. auto.
  - destruct (cond s) eqn:C.
    + destruct (Hbody s Hs C) as (s' & Hb & Hs' & Hlt).
      rewrite for_loop_step, Hb by assumption. simpl.
      apply IH; [assumption | lia].
    + exists s. rewrite for_loop_exit by assumption. auto.
Qed.


Lemma load_Ok {A : Type} (buf : list A) (i : Z) (d : A) :
  0 <= i -> (Z.to_nat i < length buf)%nat ->
  load buf i = Ok (nth (Z.to_nat i) buf d).
Proof.
  intros H0 Hl. unfold load.
  destruct (Z.ltb_spec i 0); [lia|].
  rewrite (nth_error_nth' buf d Hl). reflexivity.
Qed.


Section KernelFacts.
Context {F : Type} {ops : FloatOps F}.
Variables (nb : Z) (vx : list block_q4_0) (vy : list block_q8_0).

(** The three copies of the vector code are one computation. *)
Lemma pair_body_original_eq ib sumv0 sumv1 :
  pair_body_original vx vy (ib, sumv0, sumv1)
  = (x0 <- load vx ib ;; x1 <- load vx (ib + 1) ;;
     y0 <- load vy ib ;; y1 <- load vy (ib + 1) ;;
     Ok (ib + 2, mla_block x0 y0 sumv0, mla_block x1 y1 sumv1)).
Proof. unfold pair_body_original. rewrite Z.add_0_r. reflexivity. Qed.

Lemma pair_body_optimized_eq st :
  pair_body_optimized vx vy (vdupq_n_u8 15) (vdupq_n_s8 8) st
  = pair_body_original vx vy st.
Proof.
  destruct st as [[ib sv0] sv1]. rewrite pair_body_original_eq.
  unfold pair_body_optimized.
  destruct (load vx ib); try reflexivity;
    destruct (load vx (ib + 1)); reflexivity.
Qed.

Lemma PROCESS_BLOCK_eq ib IDX ACC :
  PROCESS_BLOCK vx vy (vdupq_n_u8 15) (vdupq_n_s8 8) ib IDX ACC
  = (xi <- load vx (ib + IDX) ;; yi <- load vy (ib + IDX) ;;
     Ok (mla_block xi yi ACC)).
Proof. reflexivity. Qed.




Lemma pair_body_index st st' :
  pair_body_original vx vy st = Ok st' -> fst (fst st') = fst (fst st) + 2.
Proof.
  destruct st as [[ib s0] s1]. rewrite pair_body_original_eq.
  destruct (load vx ib); simpl; try discriminate.
  destruct (load vx (ib + 1)); simpl; try discriminate.
  destruct (load vy ib); simpl; try discriminate.
  destruct (load vy (ib + 1)); simpl; try discriminate.
  intros E. injection E as <-. reflexivity.
Qed.

Lemma quad_body_index st st' :
  quad_body vx vy (vdupq_n_u8 15) (vdupq_n_s8 8) st = Ok st' ->
  fst (fst (fst (fst st'))) = fst (fst (fst (fst st))) + 4.
Proof.
  destruct st as [[[[ib s0] s1] s2] s3]. unfold quad_body.
  rewrite !PROCESS_BLOCK_eq.
  repeat match goal with
         | |- context [load ?b ?i] => destruct (load b i); simpl; try discriminate
         end.
  intros E. injection E as <-. reflexivity.
Qed.

Lemma tail_body_index st st' :
  tail_body vx vy st = Ok st' -> fst st' = fst st + 1.
Proof.
  destruct st as [ib sumf]. unfold tail_body.
  destruct (load vx ib); simpl; try discriminate.
  destruct (load vy ib); simpl; try discriminate.
  intros E. injection E as <-. reflexivity.
Qed.




End KernelFacts.

Section NeverOutOfFuel.
Context {F : Type} {ops : FloatOps F}.



End NeverOutOfFuel.

(** ** Binary32 arithmetic *)

Module B32Facts.
Import B32.

Lemma fexp_ge_emin e : emin <= fexp prec emax e.
Proof. unfold fexp. apply Z.le_max_r. Qed.

Lemma shr_fexp_snd m e l : emin <= snd (shr_fexp prec emax m e l).
Proof.
  unfold shr_fexp, shr.
  pose proof (fexp_ge_emin (Zdigits2 m + e)).
  destruct (fexp prec emax (Zdigits2 m + e) - e) eqn:E; simpl; lia.
Qed.

Lemma binary_round_aux_above s m e l :
  above_emin (binary_round_aux prec emax s m e l).
Proof.
  unfold binary_round_aux.
  destruct (shr_fexp prec emax m e l) as [mrs' e'].
  match goal with
  | |- context [shr_fexp prec emax ?m2 e' loc_Exact] =>
      pose proof (shr_fexp_snd m2 e' loc_Exact) as H;
      destruct (shr_fexp prec emax m2 e' loc_Exact) as [mrs'' e'']
  end.
  simpl in H.
  destruct (shr_m mrs''); simpl; auto.
  destruct (e'' <=? _); simpl; auto.
Qed.

Lemma digits2_size p : digits2_pos p = Pos.size p.
Proof. induction p; simpl; congruence. Qed.

Lemma Zdigits2_bounds p :
  2 ^ (Zdigits2 (Zpos p) - 1) <= Zpos p < 2 ^ Zdigits2 (Zpos p).
Proof.
  change (Zdigits2 (Zpos p)) with (Zpos (digits2_pos p)).
  rewrite digits2_size.
  pose proof (Pos.size_gt p) as G. pose proof (Pos.size_le p) as L.
  apply Pos2Z.pos_lt_pos in G. apply Pos2Z.pos_le_pos in L.
  rewrite Pos2Z.inj_pow in G, L.
  change (Z.pos p~0) with (2 * Z.pos p) in L.
  replace (Z.pos (Pos.size p)) with (Z.pos (Pos.size p) - 1 + 1) in L at 1 by lia.
  rewrite Z.pow_add_r in L by lia. change (2 ^ 1) with 2 in L. lia.
Qed.

Lemma shr_1_m mrs : 0 <= shr_m mrs ->
  shr_m (shr_1 mrs) = shr_m mrs / 2.
Proof.
  destruct mrs as [m r s]. simpl. intros H.
  rewrite <- Z.div2_div.
  destruct m as [|[p|p|]|p]; try reflexivity; lia.
Qed.

Lemma pow2_pos k : 0 < 2 ^ Zpos k.
Proof. apply Z.pow_pos_nonneg; lia. Qed.

Lemma pow2_xO p : 2 ^ Zpos p~0 = 2 ^ Zpos p * 2 ^ Zpos p.
Proof.
  replace (Z.pos p~0) with (Z.pos p + Z.pos p) by lia.
  apply Z.pow_add_r; lia.
Qed.

Lemma pow2_xI p : 2 ^ Zpos p~1 = 2 * (2 ^ Zpos p * 2 ^ Zpos p).
Proof.
  replace (Z.pos p~1) with (Z.succ (Z.pos p + Z.pos p)) by lia.
  rewrite Z.pow_succ_r, Z.pow_add_r by lia. reflexivity.
Qed.

Lemma iter_shr_1_m p : forall mrs, 0 <= shr_m mrs ->
  0 <= shr_m (SpecFloat.iter_pos shr_1 p mrs) /\
  shr_m (SpecFloat.iter_pos shr_1 p mrs) = shr_m mrs / 2 ^ Zpos p.
Proof.
  induction p as [p IH|p IH|]; intros mrs H; cbn [SpecFloat.iter_pos].
  - assert (H1 : 0 <= shr_m (shr_1 mrs))
      by (rewrite shr_1_m by assumption; apply Z.div_pos; lia).
    destruct (IH _ H1) as [H2 E2]. destruct (IH _ H2) as [H3 E3].
    split; [assumption|]. rewrite E3, E2, shr_1_m by assumption.
    pose proof (pow2_pos p).
    rewrite !Z.div_div by lia. rewrite pow2_xI. reflexivity.
  - destruct (IH _ H) as [H2 E2]. destruct (IH _ H2) as [H3 E3].
    split; [assumption|]. rewrite E3, E2.
    pose proof (pow2_pos p).
    rewrite !Z.div_div by lia. rewrite pow2_xO. reflexivity.
  - rewrite shr_1_m by assumption. split; [apply Z.div_pos; lia | reflexivity].
Qed.

Lemma shr_m_of_loc m l : shr_m (shr_record_of_loc m l) = m.
Proof. destruct l as [|[]]; reflexivity. Qed.

Lemma shr_fexp_pos m e l :
  0 < m -> emin <= e -> 0 < shr_m (fst (shr_fexp prec emax m e l)).
Proof.
  intros Hm He. unfold shr_fexp, shr.
  destruct (fexp prec emax (Zdigits2 m + e) - e) as [|k|k] eqn:E;
    cbn [fst]; rewrite ?shr_m_of_loc; try assumption.
  pose proof (iter_shr_1_m k (shr_record_of_loc m l)) as It.
  rewrite shr_m_of_loc in It. destruct It as [_ ->]; [lia|].
  destruct m as [|p|p]; try lia.
  pose proof (Zdigits2_bounds p) as B.
  assert (Hk : Zpos k = Zdigits2 (Zpos p) - prec).
  { unfold fexp in E. fold emin in E. lia. }
  apply Z.div_str_pos. split; [apply pow2_pos|].
  apply Z.le_trans with (2 ^ (Zdigits2 (Z.pos p) - 1)); [|lia].
  apply Z.pow_le_mono_r; [lia|]. unfold prec in Hk. lia.
Qed.

Lemma round_nearest_even_bounds m l :
  m <= round_nearest_even m l <= m + 1.
Proof. destruct l as [|[]]; simpl; try destruct (Z.even m); lia. Qed.

(** A positive mantissa at an exponent of the format never rounds to a
    zero (nor to a NaN). *)
Lemma binary_round_aux_pos s m e l :
  0 < m -> emin <= e ->
  match binary_round_aux prec emax s m e l with
  | S754_finite _ _ _ | S754_infinity _ => True
  | _ => False
  end.
Proof.
  intros Hm He. unfold binary_round_aux.
  pose proof (shr_fexp_pos m e l Hm He) as P1.
  pose proof (shr_fexp_snd m e l) as Q1.
  destruct (shr_fexp prec emax m e l) as [mrs' e']. cbn [fst snd] in *.
  pose proof (round_nearest_even_bounds (shr_m mrs') (loc_of_shr_record mrs')) as R.
  set (m2 := round_nearest_even (shr_m mrs') (loc_of_shr_record mrs')) in *.
  assert (Hm2 : 0 < m2) by lia.
  pose proof (shr_fexp_pos m2 e' loc_Exact Hm2 Q1) as P2.
  destruct (shr_fexp prec emax m2 e' loc_Exact) as [mrs'' e'']. cbn [fst] in *.
  destruct (shr_m mrs''); try lia.
  destruct (e'' <=? _); exact I.
Qed.

Lemma binary_round_pos s p e :
  emin <= e ->
  match binary_round prec emax s p e with
  | S754_finite _ _ _ | S754_infinity _ => True
  | _ => False
  end.
Proof.
  intros He. unfold binary_round, shl_align.
  pose proof (fexp_ge_emin (Zpos (digits2_pos p) + e)).
  destruct (fexp prec emax (Zpos (digits2_pos p) + e) - e) eqn:E;
    apply binary_round_aux_pos; lia.
Qed.

Lemma binary_round_above s p e : above_emin (binary_round prec emax s p e).
Proof.
  unfold binary_round.
  destruct (shl_align _ _ _). apply binary_round_aux_above.
Qed.

Lemma binary_normalize_above z e sz : above_emin (binary_normalize prec emax z e sz).
Proof. destruct z; cbn [binary_normalize]; auto using binary_round_above; exact I. Qed.

Lemma add_above a b : above_emin a -> above_emin b -> above_emin (add a b).
Proof.
  unfold add. destruct a as [sa|sa| |sa ma ea], b as [sb|sb| |sb mb eb];
    intros Ha Hb; try destruct sa; try destruct sb; cbn [SFadd]; try exact I;
    try assumption; apply binary_normalize_above.
Qed.

Lemma mul_above a b : above_emin (mul a b).
Proof.
  unfold mul. destruct a as [sa|sa| |sa ma ea], b as [sb|sb| |sb mb eb];
    cbn [SFmul]; try exact I. apply binary_round_aux_above.
Qed.

Lemma of_int_above i : above_emin (of_int i).
Proof. apply binary_normalize_above. Qed.

(** Round-to-nearest addition yields [-0.0] only from two [-0.0]. *)
Lemma add_nzero a b :
  above_emin a -> above_emin b -> add a b = nzero -> a = nzero /\ b = nzero.
Proof.
  unfold add, nzero.
  destruct a as [sa|sa| |sa ma ea], b as [sb|sb| |sb mb eb];
    intros Ha Hb; try destruct sa; try destruct sb; cbn [SFadd];
    try discriminate; auto.
  all: cbn [above_emin] in Ha, Hb.
  all: match goal with
       | |- binary_normalize _ _ ?z ?e _ = _ -> _ =>
           assert (He : emin <= e) by lia;
           destruct z as [|q|q]; cbn [binary_normalize];
           [ discriminate
           | pose proof (binary_round_pos false q e He) as P
           | pose proof (binary_round_pos true q e He) as P ]
       end.
  all: intros E; rewrite E in P; contradiction.
Qed.

Lemma add_pzero_l x : x <> nzero -> add pzero x = x.
Proof.
  unfold add, pzero, nzero. destruct x as [[]| | |]; cbn [SFadd];
    congruence.
Qed.

Lemma add_pzero_not_nzero x : above_emin x -> add pzero x <> nzero.
Proof.
  intros Hx E. apply add_nzero in E; [| exact I | assumption].
  destruct E as [E _]. discriminate.
Qed.


Lemma shr_m_le m e l :
  0 <= m -> 0 <= shr_m (fst (shr_fexp prec emax m e l)) <= m.
Proof.
  intros Hm. unfold shr_fexp, shr.
  destruct (fexp prec emax (Zdigits2 m + e) - e) as [|k|k] eqn:E;
    cbn [fst]; rewrite ?shr_m_of_loc; try lia.
  pose proof (iter_shr_1_m k (shr_record_of_loc m l)) as It.
  rewrite shr_m_of_loc in It. destruct It as [H0 ->]; [lia|].
  pose proof (pow2_pos k). split; [apply Z.div_pos; lia|].
  apply Z.div_le_upper_bound; nia.
Qed.

Lemma Zdigits2_le m k : 0 <= m < 2 ^ k -> 0 <= k -> Zdigits2 m <= k.
Proof.
  intros [H0 Hk] K. destruct m as [|p|p]; [exact K | | lia].
  pose proof (Zdigits2_bounds p) as B.
  assert (L : 2 ^ (Zdigits2 (Z.pos p) - 1) < 2 ^ k) by lia.
  apply Z.pow_lt_mono_r_iff in L; lia.
Qed.

Lemma shr_fexp_snd_le m e l k :
  0 <= m < 2 ^ k -> 0 <= k ->
  snd (shr_fexp prec emax m e l) <= Z.max e (Z.max (k + e - prec) emin).
Proof.
  intros Hm K. pose proof (Zdigits2_le m k Hm K) as D.
  unfold shr_fexp, shr.
  destruct (fexp prec emax (Zdigits2 m + e) - e) as [|q|q] eqn:E;
    cbn [snd]; unfold fexp in E; fold emin in E; lia.
Qed.

(** Products of mantissas below [2^48] at exponents up to [-16] stay
    finite. *)
Lemma binary_round_aux_finite s m e :
  0 < m < 2 ^ 48 -> e <= -16 ->
  is_finite (binary_round_aux prec emax s m e loc_Exact) = true.
Proof.
  intros Hm He. unfold binary_round_aux.
  pose proof (shr_m_le m e loc_Exact ltac:(lia)) as M1.
  pose proof (shr_fexp_snd_le m e loc_Exact 48 ltac:(lia) ltac:(lia)) as E1.
  destruct (shr_fexp prec emax m e loc_Exact) as [mrs' e']. cbn [fst snd] in *.
  pose proof (round_nearest_even_bounds (shr_m mrs') (loc_of_shr_record mrs')) as R.
  set (m2 := round_nearest_even (shr_m mrs') (loc_of_shr_record mrs')) in *.
  assert (Hm2 : 0 <= m2 < 2 ^ 49).
  { change (2 ^ 49) with (2 * 2 ^ 48). lia. }
  pose proof (shr_m_le m2 e' loc_Exact ltac:(lia)) as M2.
  pose proof (shr_fexp_snd_le m2 e' loc_Exact 49 Hm2 ltac:(lia)) as E2.
  destruct (shr_fexp prec emax m2 e' loc_Exact) as [mrs'' e'']. cbn [fst snd] in *.
  unfold emin, SpecFloat.emin, prec, emax in *.
  destruct (shr_m mrs'') as [|q|q]; [reflexivity | | lia].
  destruct (Z.leb_spec e'' (128 - 24)); [reflexivity | lia].
Qed.

Lemma fp16_image_all_true :
  forallb (fun e => forallb (fun m => fp16_check e m) (seq 0 1024)) (seq 0 32) = true.
Proof. vm_compute. reflexivity. Qed.

Lemma forallb_seq2 (Q : nat -> nat -> bool) (a b : nat) :
  forallb (fun i => forallb (fun j => Q i j) (seq 0 b)) (seq 0 a) = true ->
  forall i j, (i < a)%nat -> (j < b)%nat -> Q i j = true.
Proof.
  intros H i j Hi Hj. rewrite forallb_forall in H.
  specialize (H i ltac:(apply in_seq; lia)).
  rewrite forallb_forall in H. apply H. apply in_seq. lia.
Qed.

Lemma of_fp16_fields_image s e m :
  0 <= e < 32 -> 0 <= m < 1024 -> fp16_image (of_fp16_fields s e m) = true.
Proof.
  intros He Hm.
  pose proof (forallb_seq2 fp16_check 32 1024 fp16_image_all_true
                (Z.to_nat e) (Z.to_nat m) ltac:(lia) ltac:(lia)) as A.
  unfold fp16_check in A. rewrite !Z2Nat.id in A by lia.
  apply andb_true_iff in A. destruct s; tauto.
Qed.

Lemma of_fp16_image h : fp16_image (of_fp16 h) = true.
Proof.
  unfold of_fp16. apply of_fp16_fields_image.
  - change 31 with (Z.ones 5). rewrite Z.land_ones by lia.
    apply Z.mod_pos_bound. reflexivity.
  - change 1023 with (Z.ones 10). rewrite Z.land_ones by lia.
    apply Z.mod_pos_bound. reflexivity.
Qed.

Lemma mul_fp16_finite a b :
  is_finite (of_fp16 a) = true -> is_finite (of_fp16 b) = true ->
  is_finite (mul (of_fp16 a) (of_fp16 b)) = true.
Proof.
  pose proof (of_fp16_image a) as Ia. pose proof (of_fp16_image b) as Ib.
  destruct (of_fp16 a) as [sa|sa| |sa ma ea], (of_fp16 b) as [sb|sb| |sb mb eb];
    cbn [is_finite]; try discriminate; intros _ _; try reflexivity.
  unfold mul. cbn [SFmul]. cbn [fp16_image] in Ia, Ib.
  apply andb_true_iff in Ia, Ib.
  rewrite Z.ltb_lt, Z.leb_le in Ia, Ib.
  apply binary_round_aux_finite; [|lia].
  rewrite Pos2Z.inj_mul. change (2 ^ 48) with (2 ^ 24 * 2 ^ 24).
  split; [lia|]. apply Z.mul_lt_mono_nonneg; lia.
Qed.

Lemma mul_zero_finite sz f :
  is_finite f = true -> exists s, mul (S754_zero sz) f = S754_zero s.
Proof.
  unfold mul. destruct f as [sf|sf| |sf mf ef]; cbn; try discriminate;
    intros _; eexists; reflexivity.
Qed.

Lemma add_pzero_zero s : add pzero (S754_zero s) = pzero.
Proof. destruct s; reflexivity. Qed.

End B32Facts.

(** ** The loops on buffers that hold every block *)

Lemma for_loop_inv {S : Type} (I : S -> Prop) (cond : S -> bool)
    (body : S -> result S) :
  (forall s s', I s -> body s = Ok s' -> I s') ->
  forall fuel s s', I s -> for_loop fuel cond body s = Ok s' -> I s'.
Proof.
  intros Hb fuel. induction fuel as [|fuel IH]; intros s s' Hs; simpl.
  - destruct (cond s); [discriminate|]. intros E. injection E as <-. assumption.
  - destruct (cond s).
    + destruct (body s) as [s1| |] eqn:B; simpl; try discriminate.
      apply IH. eapply Hb; eassumption.
    + intros E. injection E as <-. assumption.
Qed.

Lemma load_In {A : Type} (buf : list A) (i : Z) (b : A) :
  load buf i = Ok b -> In b buf.
Proof.
  unfold load. destruct (i <? 0); [discriminate|].
  destruct (nth_error buf (Z.to_nat i)) eqn:E; [|discriminate].
  intros H. injection H as <-. eapply nth_error_In; eassumption.
Qed.

Lemma load_total {A : Type} (buf : list A) (i : Z) :
  0 <= i < Z.of_nat (length buf) -> exists b, load buf i = Ok b /\ In b buf.
Proof.
  intros H. unfold load. destruct (Z.ltb_spec i 0); [lia|].
  destruct (nth_error buf (Z.to_nat i)) eqn:E.
  - eexists. split; [reflexivity|]. eapply nth_error_In; eassumption.
  - apply nth_error_None in E. lia.
Qed.

Lemma load_nth {A : Type} (buf : list A) (i : Z) (b d : A) :
  load buf i = Ok b -> b = nth (Z.to_nat i) buf d.
Proof.
  unfold load. destruct (i <? 0); [discriminate|].
  destruct (nth_error buf (Z.to_nat i)) eqn:E; [|discriminate].
  intros H. injection H as <-. symmetry. apply nth_error_nth. assumption.
Qed.

Section LoopRules.
Context {F : Type} {ops : FloatOps F}.
Variables (nb : Z) (vx : list block_q4_0) (vy : list block_q8_0).
Hypothesis Hvx : nb <= Z.of_nat (length vx).
Hypothesis Hvy : nb <= Z.of_nat (length vy).

Lemma pair_loop_rule (J : pair_state -> Prop) :
  (forall ib s0 s1 x0 x1 y0 y1,
      J (ib, s0, s1) -> 0 <= ib -> ib + 1 < nb ->
      load vx ib = Ok x0 -> load vx (ib + 1) = Ok x1 ->
      load vy ib = Ok y0 -> load vy (ib + 1) = Ok y1 ->
      J (ib + 2, mla_block x0 y0 s0, mla_block x1 y1 s1)) ->
  forall st, 0 <= fst (fst st) -> J st ->
  exists st',
    for_loop (loop_fuel nb) (pair_cond nb) (pair_body_original vx vy) st = Ok st'
    /\ J st' /\ fst (fst st) <= fst (fst st') /\ pair_cond nb st' = false.
Proof.
  intros Hstep st H0 HJ.
  destruct (for_loop_rule
              (fun s : pair_state => J s /\ fst (fst st) <= fst (fst s))
              (fun s => Z.to_nat (nb - fst (fst s)))
              (pair_cond nb) (pair_body_original vx vy)) with (fuel := loop_fuel nb) (s := st)
    as (st' & E & [HJ' Hi'] & C).
  - intros [[ib s0] s1] [Hs Hi] C. cbn [fst] in *.
    unfold pair_cond in C. apply Z.ltb_lt in C.
    destruct (load_total vx ib ltac:(lia)) as (x0 & Ex0 & _).
    destruct (load_total vx (ib + 1) ltac:(lia)) as (x1 & Ex1 & _).
    destruct (load_total vy ib ltac:(lia)) as (y0 & Ey0 & _).
    destruct (load_total vy (ib + 1) ltac:(lia)) as (y1 & Ey1 & _).
    rewrite pair_body_original_eq, Ex0, Ex1, Ey0, Ey1. cbn [bind].
    eexists. split; [reflexivity|]. cbn [fst].
    split; [split; [eapply Hstep; eauto; lia | lia] | lia].
  - split; [assumption | lia].
  - unfold loop_fuel. lia.
  - exists st'. auto.
Qed.

Lemma quad_loop_rule (J : quad_state -> Prop) :
  (forall ib s0 s1 s2 s3 xa xb xc xd ya yb yc yd,
      J (ib, s0, s1, s2, s3) -> 0 <= ib -> ib + 3 < nb ->
      load vx ib = Ok xa -> load vx (ib + 1) = Ok xb ->
      load vx (ib + 2) = Ok xc -> load vx (ib + 3) = Ok xd ->
      load vy ib = Ok ya -> load vy (ib + 1) = Ok yb ->
      load vy (ib + 2) = Ok yc -> load vy (ib + 3) = Ok yd ->
      J (ib + 4, mla_block xa ya s0, mla_block xb yb s1,
         mla_block xc yc s2, mla_block xd yd s3)) ->
  forall st, 0 <= fst (fst (fst (fst st))) -> J st ->
  exists st',
    for_loop (loop_fuel nb) (quad_cond nb)
      (quad_body vx vy (vdupq_n_u8 15) (vdupq_n_s8 8)) st = Ok st'
    /\ J st' /\ fst (fst (fst (fst st))) <= fst (fst (fst (fst st')))
    /\ quad_cond nb st' = false.
Proof.
  intros Hstep st H0 HJ.
  destruct (for_loop_rule
              (fun s : quad_state =>
                 J s /\ fst (fst (fst (fst st))) <= fst (fst (fst (fst s))))
              (fun s => Z.to_nat (nb - fst (fst (fst (fst s)))))
              (quad_cond nb) (quad_body vx vy (vdupq_n_u8 15) (vdupq_n_s8 8)))
    with (fuel := loop_fuel nb) (s := st)
    as (st' & E & [HJ' Hi'] & C).
  - intros [[[[ib s0] s1] s2] s3] [Hs Hi] C. cbn [fst] in *.
    unfold quad_cond in C. apply Z.ltb_lt in C.
    destruct (load_total vx ib ltac:(lia)) as (xa & Exa & _).
    destruct (load_total vx (ib + 1) ltac:(lia)) as (xb & Exb & _).
    destruct (load_total vx (ib + 2) ltac:(lia)) as (xc & Exc & _).
    destruct (load_total vx (ib + 3) ltac:(lia)) as (xd & Exd & _).
    destruct (load_total vy ib ltac:(lia)) as (ya & Eya & _).
    destruct (load_total vy (ib + 1) ltac:(lia)) as (yb & Eyb & _).
    destruct (load_total vy (ib + 2) ltac:(lia)) as (yc & Eyc & _).
    destruct (load_total vy (ib + 3) ltac:(lia)) as (yd & Eyd & _).
    unfold quad_body. rewrite !PROCESS_BLOCK_eq. rewrite Z.add_0_r.
    rewrite Exa, Exb, Exc, Exd, Eya, Eyb, Eyc, Eyd. cbn [bind].
    eexists. split; [reflexivity|]. cbn [fst].
    split; [split; [eapply Hstep; eauto; lia | lia] | lia].
  - split; [assumption | lia].
  - unfold loop_fuel. lia.
  - exists st'. auto.
Qed.

Lemma tail_loop_rule (J : Z * F -> Prop) :
  (forall ib sumf xi yi,
      J (ib, sumf) -> 0 <= ib -> ib < nb ->
      load vx ib = Ok xi -> load vy ib = Ok yi ->
      J (ib + 1, f_add sumf (scalar_term xi yi))) ->
  forall st, 0 <= fst st -> J st ->
  exists st',
    for_loop (loop_fuel nb) (tail_cond nb) (tail_body vx vy) st = Ok st'
    /\ J st' /\ fst st <= fst st' /\ tail_cond nb st' = false.
Proof.
  intros Hstep st H0 HJ.
  destruct (for_loop_rule
              (fun s : Z * F => J s /\ fst st <= fst s)
              (fun s => Z.to_nat (nb - fst s))
              (tail_cond nb) (tail_body vx vy)) with (fuel := loop_fuel nb) (s := st)
    as (st' & E & [HJ' Hi'] & C).
  - intros [ib sumf] [Hs Hi] C. cbn [fst] in *.
    unfold tail_cond in C. apply Z.ltb_lt in C.
    destruct (load_total vx ib ltac:(lia)) as (xi & Exi & _).
    destruct (load_total vy ib ltac:(lia)) as (yi & Eyi & _).
    unfold tail_body. rewrite Exi, Eyi. cbn [bind].
    eexists. split; [reflexivity|]. cbn [fst].
    split; [split; [eapply Hstep; eauto; lia | lia] | lia].
  - split; [assumption | lia].
  - unfold loop_fuel. lia.
  - exists st'. auto.
Qed.

End LoopRules.

(** ** The kernels in binary32 *)

Section Binary32Kernels.
Import B32 B32Facts.

Lemma regular_pzero : regular pzero.
Proof. split; [exact I | discriminate]. Qed.

Lemma regular_add a b : regular a -> above_emin b -> regular (f_add a b).
Proof.
  intros [Ha Na] Hb. split.
  - apply add_above; assumption.
  - intros E. apply add_nzero in E; tauto.
Qed.

Lemma regular_add2 a b : regular a -> regular b -> regular (f_add a b).
Proof. intros Ha [Hb _]. apply regular_add; assumption. Qed.

Lemma regular4_zero : regular4 (vdupq_n_f32 f_zero).
Proof. repeat split; try exact I; discriminate. Qed.

Lemma regular4_mla xb yb acc : regular4 acc -> regular4 (mla_block xb yb acc).
Proof.
  destruct acc as [[[a0 a1] a2] a3]. unfold mla_block.
  destruct (block_dot xb yb) as [[[p0 p1] p2] p3].
  intros (H0 & H1 & H2 & H3). cbn [vcvtq_f32_s32 vmlaq_n_f32 regular4].
  repeat split; try apply add_above; try apply mul_above;
    try (apply H0 || apply H1 || apply H2 || apply H3);
    apply regular_add; auto using mul_above.
Qed.

Lemma regular_vaddvq v : regular4 v -> regular (vaddvq_f32 v).
Proof.
  destruct v as [[[a0 a1] a2] a3]. intros (H0 & H1 & H2 & H3).
  cbn [vaddvq_f32]. auto using regular_add2.
Qed.

Lemma add_pzero_regular x : regular x -> f_add f_zero x = x.
Proof. intros [_ N]. apply add_pzero_l. assumption. Qed.

Lemma pair_loop_regular nb vx vy fuel st st' :
  regular4 (snd (fst st)) -> regular4 (snd st) ->
  for_loop fuel (pair_cond nb) (pair_body_original vx vy) st = Ok st' ->
  regular4 (snd (fst st')) /\ regular4 (snd st').
Proof.
  intros H0 H1.
  apply (for_loop_inv (fun s : pair_state =>
                         regular4 (snd (fst s)) /\ regular4 (snd s))); [|tauto].
  clear. intros [[ib s0] s1] s' [H0 H1]. cbn [fst snd] in *.
  rewrite pair_body_original_eq.
  destruct (load vx ib); simpl; try discriminate.
  destruct (load vx (ib + 1)); simpl; try discriminate.
  destruct (load vy ib); simpl; try discriminate.
  destruct (load vy (ib + 1)); simpl; try discriminate.
  intros E. injection E as <-. cbn [fst snd].
  split; apply regular4_mla; assumption.
Qed.

End Binary32Kernels.

(** ** Totality *)

Section Totality.
Context {F : Type} {ops : FloatOps F}.

Lemma enough_blocks_inv n vx vy :
  enough_blocks n vx vy = true ->
  Z.quot n QK4_0 <= Z.of_nat (length vx) /\ Z.quot n QK4_0 <= Z.of_nat (length vy).
Proof.
  unfold enough_blocks. rewrite andb_true_iff, !Z.leb_le. tauto.
Qed.

Lemma original_total n vx vy :
  enough_blocks n vx vy = true ->
  exists r, vec_dot_q4_0_q8_0_original n vx vy = Ok r.
Proof.
  intros H. apply enough_blocks_inv in H. destruct H as [Hx Hy].
  unfold vec_dot_q4_0_q8_0_original. cbv zeta.
  destruct (pair_loop_rule _ vx vy Hx Hy (fun _ => True))
    with (st := (0, vdupq_n_f32 f_zero, vdupq_n_f32 f_zero))
    as ([[ib s0] s1] & E & _ & Hi & _); auto; [cbn; lia|].
  rewrite E. cbn [bind fst] in *.
  destruct (tail_loop_rule _ vx vy Hx Hy (fun _ => True))
    with (st := (ib, f_add (vaddvq_f32 s0) (vaddvq_f32 s1)))
    as ([ib' sumf] & E' & _); auto.
  rewrite E'. cbn [bind]. eauto.
Qed.

Lemma optimized_total n vx vy :
  enough_blocks n vx vy = true ->
  exists r, vec_dot_q4_0_q8_0_optimized n vx vy = Ok r.
Proof.
  intros H. apply enough_blocks_inv in H. destruct H as [Hx Hy].
  unfold vec_dot_q4_0_q8_0_optimized. cbv zeta.
  destruct (quad_loop_rule _ vx vy Hx Hy (fun _ => True))
    with (st := (0, vdupq_n_f32 f_zero, vdupq_n_f32 f_zero,
                 vdupq_n_f32 f_zero, vdupq_n_f32 f_zero))
    as ([[[[ib s0] s1] s2] s3] & E & _ & Hi & _); auto; [cbn; lia|].
  rewrite E. cbn [bind fst] in *.
  rewrite (for_loop_ext _ _ _ (pair_body_optimized_eq vx vy)).
  destruct (pair_loop_rule _ vx vy Hx Hy (fun _ => True))
    with (st := (ib, vdupq_n_f32 f_zero, vdupq_n_f32 f_zero))
    as ([[ib1 t0] t1] & E1 & _ & Hi1 & _); auto.
  rewrite E1. cbn [bind fst] in *.
  match goal with
  | |- context [for_loop _ (tail_cond _) _ (ib1, ?v)] =>
      destruct (tail_loop_rule _ vx vy Hx Hy (fun _ => True))
        with (st := (ib1, v)) as ([ib' sumf] & E' & _); auto; [cbn; lia|]
  end.
  rewrite E'. cbn [bind]. eauto.
Qed.

End Totality.

(** ** Fewer than four blocks *)

Section SmallCounts.
Import B32 B32Facts.

Lemma zero4_sum :
  vaddvq_f32 (vaddq_f32 (vaddq_f32 (vdupq_n_f32 f_zero) (vdupq_n_f32 f_zero))
                        (vaddq_f32 (vdupq_n_f32 f_zero) (vdupq_n_f32 f_zero)))
  = pzero.
Proof. reflexivity. Qed.

Lemma optimized_eq_original_below_4 n vx vy :
  Z.quot n QK4_0 <= 3 ->
  vec_dot_q4_0_q8_0_optimized n vx vy = vec_dot_q4_0_q8_0_original n vx vy.
Proof.
  intros Hnb.
  unfold vec_dot_q4_0_q8_0_optimized, vec_dot_q4_0_q8_0_original. cbv zeta.
  set (nb := Z.quot n QK4_0) in *.
  rewrite (for_loop_exit (quad_cond nb))
    by (unfold quad_cond; apply Z.ltb_ge; lia).
  cbn [bind]. rewrite zero4_sum.
  rewrite (for_loop_ext _ _ _ (pair_body_optimized_eq vx vy)).
  destruct (for_loop (loop_fuel nb) (pair_cond nb) (pair_body_original vx vy)
              (0, vdupq_n_f32 f_zero, vdupq_n_f32 f_zero))
    as [[[ib sv0] sv1]| |] eqn:E; cbn [bind]; try reflexivity.
  apply pair_loop_regular in E; cbn [fst snd]; try apply regular4_zero.
  cbn [fst snd] in E. destruct E as [R0 R1].
  change pzero with (f_zero (F := spec_float)).
  rewrite add_pzero_regular; [reflexivity|].
  apply regular_add2; apply regular_vaddvq; assumption.
Qed.

End SmallCounts.

(** ** No block, one block *)

Section NoBlockOneBlock.
Import B32 B32Facts.

Lemma quot_below n : n < 32 -> Z.quot n QK4_0 <= 0.
Proof.
  intros H. pose proof (Z.quot_le_mono n 31 32 ltac:(lia) ltac:(lia)) as Q.
  change (31 ÷ 32) with 0 in Q. exact Q.
Qed.

Lemma original_no_block n vx vy :
  Z.quot n QK4_0 <= 0 -> vec_dot_q4_0_q8_0_original n vx vy = Ok pzero.
Proof.
  intros H. unfold vec_dot_q4_0_q8_0_original. cbv zeta.
  rewrite (for_loop_exit (pair_cond _))
    by (unfold pair_cond; apply Z.ltb_ge; lia).
  cbn [bind].
  rewrite (for_loop_exit (tail_cond _))
    by (unfold tail_cond; apply Z.ltb_ge; lia).
  reflexivity.
Qed.

Lemma optimized_no_block n vx vy :
  Z.quot n QK4_0 <= 0 -> vec_dot_q4_0_q8_0_optimized n vx vy = Ok pzero.
Proof.
  intros H. rewrite optimized_eq_original_below_4 by lia.
  apply original_no_block. assumption.
Qed.



End NoBlockOneBlock.

(** ** Zero vectors *)

Lemma zsum_zero (f : nat -> Z) (k : nat) :
  (forall i, (i < k)%nat -> f i = 0) -> zsum f k = 0.
Proof.
  induction k as [|k IH]; intros H; cbn [zsum]; [reflexivity|].
  rewrite IH, H by auto with arith. reflexivity.
Qed.

Lemma lane_forallb_lt (P : Z -> bool) (l : list Z) (i : nat) :
  forallb P l = true -> (i < length l)%nat -> P (lane l i) = true.
Proof.
  unfold lane. revert i.
  induction l as [|a l IH]; intros [|i]; simpl; intros H Hi; try lia;
    apply andb_true_iff in H.
  - tauto.
  - apply IH; [tauto | lia].
Qed.

Section ZeroBlocks.
Variables (xb : block_q4_0) (yb : block_q8_0).
Hypothesis Hx : wf_q4_0 xb = true.
Hypothesis Hy : wf_q8_0 yb = true.
Hypothesis Hz : zero_weights xb = true \/ zero_activations yb = true.

Lemma elem_product_zero i : (i < 32)%nat -> elem_product xb yb i = 0.
Proof.
  intros Hi. unfold elem_product. destruct Hz as [Z0|Z0].
  - destruct (wf_q4_0_inv _ Hx) as (_ & Hl & _).
    assert (W : weight (q4_qs xb) i = 0).
    { unfold weight. destruct (Nat.ltb_spec i 16).
      - pose proof (lane_forallb_lt _ _ i Z0 ltac:(lia)) as E.
        apply Z.eqb_eq in E. rewrite <- E. reflexivity.
      - pose proof (lane_forallb_lt _ _ (i - 16) Z0 ltac:(lia)) as E.
        apply Z.eqb_eq in E. rewrite <- E. reflexivity. }
    rewrite W. reflexivity.
  - pose proof (lane_forallb _ _ i Z0 eq_refl) as E.
    apply Z.eqb_eq in E. rewrite <- E. lia.
Qed.

Lemma block_isum_zero : block_isum xb yb = 0.
Proof. apply zsum_zero. intros. apply elem_product_zero. assumption. Qed.

Lemma lane_isum_zero l : (l < 4)%nat -> lane_isum xb yb l = 0.
Proof.
  intros Hl. unfold lane_isum.
  rewrite !zsum_zero; [reflexivity | |];
    intros; apply elem_product_zero; lia.
Qed.

Lemma block_dot_zero : block_dot xb yb = (0, 0, 0, 0).
Proof.
  rewrite block_dot_exact by assumption.
  rewrite !lane_isum_zero by lia. reflexivity.
Qed.

Hypothesis Fx : finite_scale_q4 xb = true.
Hypothesis Fy : finite_scale_q8 yb = true.

Lemma mla_block_zero : mla_block xb yb (vdupq_n_f32 f_zero) = vdupq_n_f32 f_zero.
Proof.
  unfold mla_block. rewrite block_dot_zero.
  cbn [vcvtq_f32_s32 vdupq_n_f32 vmlaq_n_f32].
  pose proof (B32Facts.mul_fp16_finite _ _ Fx Fy) as Fs.
  destruct (B32Facts.mul_zero_finite false _ Fs) as [s E].
  change (f_mul (f_of_int 0)
            (f_mul (fp16_to_fp32 (q4_d xb)) (fp16_to_fp32 (q8_d yb))))
    with (B32.mul (S754_zero false)
            (B32.mul (B32.of_fp16 (q4_d xb)) (B32.of_fp16 (q8_d yb)))).
  rewrite E.
  change (f_add f_zero (S754_zero s)) with (B32.add B32.pzero (S754_zero s)).
  rewrite B32Facts.add_pzero_zero. reflexivity.
Qed.

Lemma scalar_term_zero : f_add f_zero (scalar_term xb yb) = B32.pzero.
Proof.
  unfold scalar_term. rewrite scalar_block_exact, block_isum_zero by assumption.
  destruct (B32Facts.mul_zero_finite false _ Fx) as [s E].
  change (f_mul (f_of_int 0) (fp16_to_fp32 (q4_d xb)))
    with (B32.mul (S754_zero false) (B32.of_fp16 (q4_d xb))).
  rewrite E.
  destruct (B32Facts.mul_zero_finite s _ Fy) as [s' E'].
  change (f_mul (S754_zero s) (fp16_to_fp32 (q8_d yb)))
    with (B32.mul (S754_zero s) (B32.of_fp16 (q8_d yb))).
  rewrite E'. apply B32Facts.add_pzero_zero.
Qed.

End ZeroBlocks.

(** ** Zero vectors, any number of blocks *)

Section ZeroVectors.
Import B32 B32Facts.
Variables (n : Z) (vx : list block_q4_0) (vy : list block_q8_0).
Hypothesis Hn : enough_blocks n vx vy = true.
Hypothesis Wx : forallb wf_q4_0 vx = true.
Hypothesis Wy : forallb wf_q8_0 vy = true.
Hypothesis Fx : forallb finite_scale_q4 vx = true.
Hypothesis Fy : forallb finite_scale_q8 vy = true.
Hypothesis Hz : forallb zero_weights vx = true \/ forallb zero_activations vy = true.

Lemma zero_mla i j xi yj :
  load vx i = Ok xi -> load vy j = Ok yj ->
  mla_block xi yj (vdupq_n_f32 f_zero) = vdupq_n_f32 f_zero.
Proof.
  intros Ex Ey. apply load_In in Ex, Ey.
  rewrite forallb_forall in Wx, Wy, Fx, Fy.
  apply mla_block_zero; auto.
  destruct Hz as [Z0|Z0]; rewrite forallb_forall in Z0; auto.
Qed.

Lemma zero_scalar i xi yi :
  load vx i = Ok xi -> load vy i = Ok yi ->
  f_add f_zero (scalar_term xi yi) = pzero.
Proof.
  intros Ex Ey. apply load_In in Ex, Ey.
  rewrite forallb_forall in Wx, Wy, Fx, Fy.
  apply scalar_term_zero; auto.
  destruct Hz as [Z0|Z0]; rewrite forallb_forall in Z0; auto.
Qed.

Lemma zero_pair_loop ib :
  0 <= ib ->
  exists ib',
    for_loop (loop_fuel (Z.quot n QK4_0)) (pair_cond (Z.quot n QK4_0))
      (pair_body_original vx vy) (ib, vdupq_n_f32 f_zero, vdupq_n_f32 f_zero)
    = Ok (ib', vdupq_n_f32 f_zero, vdupq_n_f32 f_zero) /\ 0 <= ib'.
Proof.
  intros H0. destruct (enough_blocks_inv _ _ _ Hn) as [Hx Hy].
  destruct (pair_loop_rule _ vx vy Hx Hy
              (fun s : pair_state => snd (fst s) = vdupq_n_f32 f_zero
                                     /\ snd s = vdupq_n_f32 f_zero))
    with (st := (ib, vdupq_n_f32 f_zero, vdupq_n_f32 f_zero))
    as ([[ib' s0] s1] & E & [J0 J1] & Hi & _); cbn [fst snd] in *; auto.
  - intros i s0 s1 x0 x1 y0 y1 [-> ->] _ _ Ex0 Ex1 Ey0 Ey1.
    split; eapply zero_mla; eassumption.
  - subst. exists ib'. split; [assumption | lia].
Qed.

Lemma zero_tail_loop ib :
  0 <= ib ->
  exists ib',
    for_loop (loop_fuel (Z.quot n QK4_0)) (tail_cond (Z.quot n QK4_0))
      (tail_body vx vy) (ib, pzero) = Ok (ib', pzero).
Proof.
  intros H0. destruct (enough_blocks_inv _ _ _ Hn) as [Hx Hy].
  destruct (tail_loop_rule _ vx vy Hx Hy (fun s : Z * spec_float => snd s = pzero))
    with (st := (ib, pzero))
    as ([ib' sumf] & E & J & _); cbn [fst snd] in *; auto.
  - intros i sumf xi yi -> _ _ Ex Ey. eapply zero_scalar; eassumption.
  - subst. eauto.
Qed.

Lemma original_zero : vec_dot_q4_0_q8_0_original n vx vy = Ok pzero.
Proof.
  unfold vec_dot_q4_0_q8_0_original. cbv zeta.
  destruct (zero_pair_loop 0 ltac:(lia)) as (ib & E & Hi). rewrite E.
  cbn [bind].
  change (f_add (vaddvq_f32 (vdupq_n_f32 f_zero)) (vaddvq_f32 (vdupq_n_f32 f_zero)))
    with pzero.
  destruct (zero_tail_loop ib Hi) as (ib' & E'). rewrite E'. reflexivity.
Qed.

Lemma optimized_zero : vec_dot_q4_0_q8_0_optimized n vx vy = Ok pzero.
Proof.
  unfold vec_dot_q4_0_q8_0_optimized. cbv zeta.
  destruct (enough_blocks_inv _ _ _ Hn) as [Hx Hy].
  destruct (quad_loop_rule _ vx vy Hx Hy
              (fun s : quad_state =>
                 snd (fst (fst (fst s))) = vdupq_n_f32 f_zero
                 /\ snd (fst (fst s)) = vdupq_n_f32 f_zero
                 /\ snd (fst s) = vdupq_n_f32 f_zero
                 /\ snd s = vdupq_n_f32 f_zero))
    with (st := (0, vdupq_n_f32 f_zero, vdupq_n_f32 f_zero,
                 vdupq_n_f32 f_zero, vdupq_n_f32 f_zero))
    as ([[[[ib s0] s1] s2] s3] & E & (J0 & J1 & J2 & J3) & Hi & _);
    cbn [fst snd] in *; auto; [| lia |].
  - intros i s0 s1 s2 s3 xa xb xc xd ya yb yc yd (-> & -> & -> & ->) _ _
           Exa Exb Exc Exd Eya Eyb Eyc Eyd.
    repeat split; eapply zero_mla; eassumption.
  - subst. rewrite E. cbn [bind]. rewrite zero4_sum.
    rewrite (for_loop_ext _ _ _ (pair_body_optimized_eq vx vy)).
    destruct (zero_pair_loop ib Hi) as (ib1 & E1 & Hi1). rewrite E1.
    cbn [bind].
    change (f_add pzero (f_add (vaddvq_f32 (vdupq_n_f32 f_zero))
                               (vaddvq_f32 (vdupq_n_f32 f_zero))))
      with pzero.
    destruct (zero_tail_loop ib1 Hi1) as (ib' & E'). rewrite E'. reflexivity.
Qed.

End ZeroVectors.

(** ** The kernels in exact arithmetic *)

Section ExactArithmetic.
Context {F : Type} {ops : FloatOps F}.
Variables (f_one : F) (f_sub : F -> F -> F) (f_opp : F -> F).
Hypothesis Fring : ring_theory f_zero f_one f_add f_mul f_sub f_opp eq.
Hypothesis of_int_add :
  forall a b, f_of_int (a + b) = f_add (f_of_int a) (f_of_int b).

Add Ring Fr : Fring.

Lemma vaddvq_mla xb yb acc :
  wf_q4_0 xb = true -> wf_q8_0 yb = true ->
  vaddvq_f32 (mla_block xb yb acc) = f_add (vaddvq_f32 acc) (block_term xb yb).
Proof.
  intros Hx Hy. unfold mla_block, block_term.
  rewrite block_dot_exact by assumption.
  rewrite <- (lane_isum_total xb yb).
  destruct acc as [[[a0 a1] a2] a3].
  cbn [vcvtq_f32_s32 vmlaq_n_f32 vaddvq_f32]. rewrite !of_int_add. ring.
Qed.

Lemma scalar_term_exact xb yb :
  wf_q4_0 xb = true -> wf_q8_0 yb = true -> scalar_term xb yb = block_term xb yb.
Proof.
  intros Hx Hy. unfold scalar_term, block_term.
  rewrite scalar_block_exact by assumption. reflexivity.
Qed.

Variables (n : Z) (vx : list block_q4_0) (vy : list block_q8_0).
Hypothesis Hn : enough_blocks n vx vy = true.
Hypothesis Wx : forallb wf_q4_0 vx = true.
Hypothesis Wy : forallb wf_q8_0 vy = true.

Lemma loaded_x i xi : load vx i = Ok xi ->
  xi = block_x vx (Z.to_nat i) /\ wf_q4_0 xi = true.
Proof.
  intros E. split; [eapply load_nth; eassumption|].
  apply load_In in E. rewrite forallb_forall in Wx. auto.
Qed.

Lemma loaded_y i yi : load vy i = Ok yi ->
  yi = block_y vy (Z.to_nat i) /\ wf_q8_0 yi = true.
Proof.
  intros E. split; [eapply load_nth; eassumption|].
  apply load_In in E. rewrite forallb_forall in Wy. auto.
Qed.

Lemma to_nat_succ i : 0 <= i -> Z.to_nat (i + 1) = S (Z.to_nat i).
Proof. intros. lia. Qed.

(** The two-block loop adds the terms of the blocks it passes. *)
Lemma exact_pair_loop ib :
  0 <= ib <= Z.max (Z.quot n QK4_0) 0 ->
  exists ib' s0 s1,
    for_loop (loop_fuel (Z.quot n QK4_0)) (pair_cond (Z.quot n QK4_0)) (pair_body_original vx vy)
      (ib, vdupq_n_f32 f_zero, vdupq_n_f32 f_zero) = Ok (ib', s0, s1)
    /\ 0 <= ib' <= Z.max (Z.quot n QK4_0) 0
    /\ f_add (fsum (spec_term vx vy) (Z.to_nat ib)) (f_add (vaddvq_f32 s0) (vaddvq_f32 s1))
       = fsum (spec_term vx vy) (Z.to_nat ib').
Proof.
  intros H0. destruct (enough_blocks_inv _ _ _ Hn) as [Hx Hy].
  destruct (pair_loop_rule (Z.quot n QK4_0) vx vy Hx Hy
              (fun s : pair_state =>
                 0 <= fst (fst s) <= Z.max (Z.quot n QK4_0) 0 /\
                 f_add (fsum (spec_term vx vy) (Z.to_nat ib))
                       (f_add (vaddvq_f32 (snd (fst s))) (vaddvq_f32 (snd s)))
                 = fsum (spec_term vx vy) (Z.to_nat (fst (fst s)))))
    with (st := (ib, vdupq_n_f32 f_zero, vdupq_n_f32 f_zero))
    as ([[ib' s0] s1] & E & [Hi J] & _ & _); cbn [fst snd] in *.
  - intros i s0 s1 x0 x1 y0 y1 [Hi J] _ C Ex0 Ex1 Ey0 Ey1.
    cbn [fst snd] in *. split; [lia|].
    apply loaded_x in Ex0, Ex1. apply loaded_y in Ey0, Ey1.
    destruct Ex0 as [-> Wx0], Ex1 as [-> Wx1], Ey0 as [-> Wy0], Ey1 as [-> Wy1].
    rewrite !vaddvq_mla by assumption.
    replace (i + 2) with (i + 1 + 1) by lia.
    rewrite !to_nat_succ by lia. cbn [fsum]. rewrite <- J.
    unfold spec_term. ring.
  - lia.
  - split; [lia|]. cbn [vdupq_n_f32 vaddvq_f32]. ring.
  - exists ib', s0, s1. auto.
Qed.

Lemma exact_tail_loop ib sumf :
  0 <= ib <= Z.max (Z.quot n QK4_0) 0 -> (Z.quot n QK4_0) <= ib + 1 ->
  sumf = fsum (spec_term vx vy) (Z.to_nat ib) ->
  exists ib',
    for_loop (loop_fuel (Z.quot n QK4_0)) (tail_cond (Z.quot n QK4_0)) (tail_body vx vy) (ib, sumf)
    = Ok (ib', fsum (spec_term vx vy) (Z.to_nat (Z.quot n QK4_0))).
Proof.
  intros H0 H1 Es. destruct (enough_blocks_inv _ _ _ Hn) as [Hx Hy].
 
  destruct (tail_loop_rule (Z.quot n QK4_0) vx vy Hx Hy
              (fun s : Z * F =>
                 0 <= fst s <= Z.max (Z.quot n QK4_0) 0 /\ snd s = fsum (spec_term vx vy) (Z.to_nat (fst s))))
    with (st := (ib, sumf))
    as ([ib' sumf'] & E & [Hi J] & _ & C); cbn [fst snd] in *.
  - intros i s xi yi [Hi J] _ C Ex Ey. cbn [fst snd] in *. split; [lia|].
    apply loaded_x in Ex. apply loaded_y in Ey.
    destruct Ex as [-> Wx0], Ey as [-> Wy0].
    rewrite scalar_term_exact by assumption.
    rewrite to_nat_succ by lia. cbn [fsum]. rewrite J. reflexivity.
  - lia.
  - split; [lia | assumption].
  - exists ib'. rewrite E. unfold tail_cond in C. apply Z.ltb_ge in C.
    replace (Z.to_nat (Z.quot n QK4_0)) with (Z.to_nat ib') by lia. subst. reflexivity.
Qed.

(** The original kernel returns the dot product of the specification. *)
Lemma original_exact :
  vec_dot_q4_0_q8_0_original n vx vy = Ok (spec_dot n vx vy).
Proof.
  unfold vec_dot_q4_0_q8_0_original. cbv zeta.
  destruct (enough_blocks_inv _ _ _ Hn) as [Hx Hy].
  destruct (pair_loop_rule (Z.quot n QK4_0) vx vy Hx Hy
              (fun s : pair_state =>
                 0 <= fst (fst s) <= Z.max (Z.quot n QK4_0) 0 /\
                 f_add (vaddvq_f32 (snd (fst s))) (vaddvq_f32 (snd s))
                 = fsum (spec_term vx vy) (Z.to_nat (fst (fst s)))))
    with (st := (0, vdupq_n_f32 f_zero, vdupq_n_f32 f_zero))
    as ([[ib s0] s1] & E & [Hi J] & _ & C); cbn [fst snd] in *.
  - intros i s0 s1 x0 x1 y0 y1 [Hi J] _ C Ex0 Ex1 Ey0 Ey1.
    cbn [fst snd] in *. split; [lia|].
    apply loaded_x in Ex0, Ex1. apply loaded_y in Ey0, Ey1.
    destruct Ex0 as [-> Wx0], Ex1 as [-> Wx1], Ey0 as [-> Wy0], Ey1 as [-> Wy1].
    rewrite !vaddvq_mla by assumption.
    replace (i + 2) with (i + 1 + 1) by lia.
    rewrite !to_nat_succ by lia. cbn [fsum]. rewrite <- J.
    unfold spec_term. ring.
  - lia.
  - split; [lia|]. cbn [vdupq_n_f32 vaddvq_f32 fsum Z.to_nat]. ring.
  - rewrite E. cbn [bind]. unfold pair_cond in C. apply Z.ltb_ge in C.
    destruct (exact_tail_loop ib _ Hi ltac:(lia) J) as (ib' & E').
    rewrite E'. reflexivity.
Qed.

(** So does the optimized kernel. *)
Lemma optimized_exact :
  vec_dot_q4_0_q8_0_optimized n vx vy = Ok (spec_dot n vx vy).
Proof.
  unfold vec_dot_q4_0_q8_0_optimized. cbv zeta.
  destruct (enough_blocks_inv _ _ _ Hn) as [Hx Hy].
  destruct (quad_loop_rule (Z.quot n QK4_0) vx vy Hx Hy
              (fun s : quad_state =>
                 0 <= fst (fst (fst (fst s))) <= Z.max (Z.quot n QK4_0) 0 /\
                 f_add (f_add (vaddvq_f32 (snd (fst (fst (fst s)))))
                              (vaddvq_f32 (snd (fst (fst s)))))
                       (f_add (vaddvq_f32 (snd (fst s))) (vaddvq_f32 (snd s)))
                 = fsum (spec_term vx vy) (Z.to_nat (fst (fst (fst (fst s)))))))
    with (st := (0, vdupq_n_f32 f_zero, vdupq_n_f32 f_zero,
                 vdupq_n_f32 f_zero, vdupq_n_f32 f_zero))
    as ([[[[ib s0] s1] s2] s3] & E & [Hi J] & _ & _); cbn [fst snd] in *.
  - intros i s0 s1 s2 s3 xa xb xc xd ya yb yc yd [Hi J] _ C
           Exa Exb Exc Exd Eya Eyb Eyc Eyd.
    cbn [fst snd] in *. split; [lia|].
    apply loaded_x in Exa, Exb, Exc, Exd. apply loaded_y in Eya, Eyb, Eyc, Eyd.
    destruct Exa as [-> ?], Exb as [-> ?], Exc as [-> ?], Exd as [-> ?],
             Eya as [-> ?], Eyb as [-> ?], Eyc as [-> ?], Eyd as [-> ?].
    rewrite !vaddvq_mla by assumption.
    replace (i + 4) with (i + 1 + 1 + 1 + 1) by lia.
    replace (i + 3) with (i + 1 + 1 + 1) by lia.
    replace (i + 2) with (i + 1 + 1) by lia.
    rewrite !to_nat_succ by lia. cbn [fsum]. rewrite <- J.
    unfold spec_term. ring.
  - lia.
  - split; [lia|]. cbn [vdupq_n_f32 vaddvq_f32 fsum Z.to_nat]. ring.
  - rewrite E. cbn [bind].
    rewrite (for_loop_ext _ _ _ (pair_body_optimized_eq vx vy)).
    destruct (exact_pair_loop ib Hi) as (ib1 & t0 & t1 & E1 & Hi1 & J1).
    rewrite E1. cbn [bind].
    assert (C1 : (Z.quot n QK4_0) <= ib1 + 1).
    { destruct (enough_blocks_inv _ _ _ Hn) as [Hx' Hy'].
      destruct (pair_loop_rule (Z.quot n QK4_0) vx vy Hx Hy (fun _ => True))
        with (st := (ib, vdupq_n_f32 f_zero, vdupq_n_f32 f_zero))
        as (st' & E2 & _ & _ & C2); auto; [cbn; lia|].
      rewrite E1 in E2. injection E2 as <-.
      unfold pair_cond in C2. apply Z.ltb_ge in C2. lia. }
    match goal with
    | |- context [for_loop _ (tail_cond _) _ (ib1, ?v)] =>
        destruct (exact_tail_loop ib1 v Hi1 C1) as (ib' & E')
    end.
    + rewrite <- J1, <- J.
      destruct s0 as [[[a0 a1] a2] a3], s1 as [[[b0 b1] b2] b3],
               s2 as [[[c0 c1] c2] c3], s3 as [[[d0 d1] d2] d3].
      cbn [vaddq_f32 vaddvq_f32]. ring.
    + rewrite E'. reflexivity.
Qed.

End ExactArithmetic.

(** ** Exact rationals form an instance *)

Lemma exact_of_int_add a b :
  Exact.of_int (a + b) = Qcplus (Exact.of_int a) (Exact.of_int b).
Proof.
  unfold Exact.of_int, Qcplus. apply Q2Qc_eq_iff. cbn [this Q2Qc].
  rewrite !Qred_correct, inject_Z_plus. reflexivity.
Qed.

Lemma exact_of_int_mul a b :
  Exact.of_int (a * b) = Qcmult (Exact.of_int a) (Exact.of_int b).
Proof.
  unfold Exact.of_int, Qcmult. apply Q2Qc_eq_iff. cbn [this Q2Qc].
  rewrite !Qred_correct, inject_Z_mult. reflexivity.
Qed.

(** ** One scale changed *)







Section ScaleIsolation.
Context {F : Type} {ops : FloatOps F}.
Variables (f_one : F) (f_sub : F -> F -> F) (f_opp : F -> F).
Hypothesis Fring : ring_theory f_zero f_one f_add f_mul f_sub f_opp eq.

Add Ring Fr' : Fring.

Lemma fsum_ext (f g : nat -> F) (m : nat) :
  (forall j, (j < m)%nat -> f j = g j) -> fsum f m = fsum g m.
Proof.
  induction m as [|m IH]; intros H; cbn [fsum]; [reflexivity|].
  rewrite IH, H by auto with arith. reflexivity.
Qed.



Hypothesis of_int_mul :
  forall a b, f_of_int (a * b) = f_mul (f_of_int a) (f_of_int b).
Hypothesis of_int_add :
  forall a b, f_of_int (a + b) = f_add (f_of_int a) (f_of_int b).

Lemma of_int_0 : f_of_int 0 = f_zero.
Proof.
  pose proof (of_int_add 0 0) as H. cbn in H.
  transitivity (f_sub (f_add (f_of_int 0) (f_of_int 0)) (f_of_int 0)); [ring|].
  rewrite <- H. ring.
Qed.

(** Without rounding, dequantizing element by element and adding the 32
    products gives the term the kernels use. *)
Lemma dequantized_dot_exact xb yb : dequantized_dot xb yb = block_term xb yb.
Proof.
  unfold dequantized_dot, block_term, block_isum.
  generalize 32%nat. intros k. induction k as [|k IH]; cbn [fsum zsum].
  - rewrite of_int_0. ring.
  - rewrite IH, of_int_add.
    change (elem_product xb yb k) with (weight (q4_qs xb) k * lane (q8_qs yb) k).
    rewrite of_int_mul. ring.
Qed.

End ScaleIsolation.

(** ** Conversion of block sums is exact *)

Lemma all_from_spec (P : Z -> bool) (k : nat) :
  forall z, all_from P z k = true ->
  forall i, z <= i < z + Z.of_nat k -> P i = true.
Proof.
  induction k as [|k IH]; intros z H i Hi; [lia|].
  cbn [all_from] in H. apply andb_true_iff in H. destruct H as [Hz Hk].
  destruct (Z.eq_dec i z) as [->|Hne]; [assumption|].
  apply (IH (Z.succ z) Hk). lia.
Qed.

Lemma of_int_block_sums :
  all_from (fun z => B32.represents_int (B32.of_int z) z) (-32768) (Z.to_nat 65537)
  = true.
Proof. vm_compute. reflexivity. Qed.

Lemma of_int_represents z :
  -32768 <= z <= 32768 -> B32.represents_int (B32.of_int z) z = true.
Proof.
  intros H.
  apply (all_from_spec (fun z => B32.represents_int (B32.of_int z) z)
           (Z.to_nat 65537) (-32768) of_int_block_sums).
  lia.
Qed.

(** ** The model on known values *)

Example of_fp16_one : B32.of_fp16 15360 = S754_finite false 8388608 (-23).
Proof. reflexivity. Qed.

Example of_fp16_largest : B32.of_fp16 31743 = S754_finite false 16769024 (-8).
Proof. reflexivity. Qed.

Example of_fp16_smallest : B32.of_fp16 1 = S754_finite false 8388608 (-47).
Proof. reflexivity. Qed.

Example of_fp16_minus_two : B32.of_fp16 49152 = S754_finite true 8388608 (-22).
Proof. reflexivity. Qed.

Example of_fp16_specials :
  B32.of_fp16 31744 = S754_infinity false /\ B32.of_fp16 64512 = S754_infinity true /\
  B32.of_fp16 32256 = S754_nan /\ B32.of_fp16 32768 = S754_zero true.
Proof. repeat split. Qed.

Example of_int_rounds : B32.of_int 16777217 = S754_finite false 8388608 1.
Proof. reflexivity. Qed.

(** On nine blocks of the benchmark's data the original runs four
    two-block iterations and one scalar iteration, the optimized kernel
    two four-block iterations and one scalar iteration; the two results
    are 1.9338150 and 1.9338112, two parts in a million apart. *)
Example benchmark_data :
  vec_dot_q4_0_q8_0_original 288 Inputs.bench_x Inputs.bench_y
  = Ok (S754_finite false 16222016 (-23)) /\
  vec_dot_q4_0_q8_0_optimized 288 Inputs.bench_x Inputs.bench_y
  = Ok (S754_finite false 16221984 (-23)) /\
  Rel.agree Rel.tol_1e_5 (S754_finite false 16221984 (-23))
                         (S754_finite false 16222016 (-23)) = true.
Proof. vm_compute. repeat split. Qed.

(* ================================================================== *)
(** * The claims *)
(* ================================================================== *)



Example inverted_pairing_differs :
  wf_q4_0 (block_x Inputs.odd_x 0) = true /\
  wf_q8_0 (block_y Inputs.odd_y 0) = true /\
  scalar_block (block_x Inputs.odd_x 0) (block_y Inputs.odd_y 0) = 31745 /\
  block_dot (block_x Inputs.odd_x 0) (block_y Inputs.odd_y 0) = (7169, 8192, 8192, 8192) /\
  block_isum_inverted (block_x Inputs.odd_x 0) (block_y Inputs.odd_y 0) = 30584.
Proof. vm_compute. repeat split. Qed.

(** C3.  Decoding a packed byte is total: for each of the 256 byte values
    [decode_nibble_pair] returns [((byte & 0x0F) - 8, (byte >> 4) - 8)],
    both components lie in [-8, 7], and adding the zero-point back
    recovers the byte.  It is a function: no error, no effect. *)
Theorem decode_nibble_pair_total (byte : Z) :
  0 <= byte < 256 ->
  decode_nibble_pair byte = (Z.land byte 15 - 8, Z.shiftr byte 4 - 8) /\
  -8 <= fst (decode_nibble_pair byte) <= 7 /\
  -8 <= snd (decode_nibble_pair byte) <= 7 /\
  (fst (decode_nibble_pair byte) + 8) + 16 * (snd (decode_nibble_pair byte) + 8) = byte.
Proof.
  intros H. split; [reflexivity|].
  rewrite decode_nibble_pair_eq. cbn [fst snd].
  pose proof (nibble_lo_range byte). pose proof (nibble_hi_range byte H).
  unfold nibble_lo, nibble_hi in *.
  pose proof (Z.div_mod byte 16 ltac:(lia)). lia.
Qed.

Lemma decode_nibble_pair_total_witness :
  0 <= 167 < 256 /\ decode_nibble_pair 167 = (-1, 2).
Proof.
  split; [lia|].
  exact (proj1 (decode_nibble_pair_total 167 ltac:(lia))).
Defined.

(** C10.  For a well-formed block pair the sum of the 32 products has
    absolute value at most 32768, and 32-bit accumulation is exact: after
    each of the 16 iterations the wrapped [sumi0], [sumi1] of the scalar
    loop are the unwrapped partial sums, [sumi0 + sumi1] is the block
    sum, and each SDOT lane is the unwrapped sum of its eight products,
    of absolute value at most 8192. *)
Theorem block_sum_no_overflow (xb : block_q4_0) (yb : block_q8_0) :
  wf_q4_0 xb = true -> wf_q8_0 yb = true ->
  Z.abs (block_isum xb yb) <= 32768 /\
  (forall k, (k <= 16)%nat ->
     scalar_sums (q4_qs xb) (q8_qs yb) k = (sumi0_exact xb yb k, sumi1_exact xb yb k) /\
     Z.abs (sumi0_exact xb yb k) <= 16384 /\ Z.abs (sumi1_exact xb yb k) <= 16384) /\
  scalar_block xb yb = block_isum xb yb /\
  block_dot xb yb
  = (lane_isum xb yb 0, lane_isum xb yb 1, lane_isum xb yb 2, lane_isum xb yb 3) /\
  (forall l, Z.abs (lane_isum xb yb l) <= 8192).
Proof.
  intros Hx Hy. repeat split.
  - pose proof (block_isum_range xb yb Hx Hy). lia.
  - apply scalar_sums_exact; assumption.
  - pose proof (zsum_range (elem_product xb yb) _ _ k
                  (fun i => elem_product_range xb yb i Hx Hy)).
    unfold sumi0_exact. lia.
  - pose proof (zsum_range (fun j => elem_product xb yb (16 + j)) _ _ k
                  (fun i => elem_product_range xb yb (16 + i) Hx Hy)).
    unfold sumi1_exact. lia.
  - apply scalar_block_exact; assumption.
  - apply block_dot_exact; assumption.
  - intros l. pose proof (lane_isum_range xb yb Hx Hy l). lia.
Qed.

Lemma block_sum_no_overflow_witness :
  Z.abs (block_isum (block_x Inputs.odd_x 0) (block_y Inputs.odd_y 0)) <= 32768.
Proof.
  exact (proj1 (block_sum_no_overflow (block_x Inputs.odd_x 0)
                  (block_y Inputs.odd_y 0) eq_refl eq_refl)).
Defined.



(** C5, as the code has it.  If every scale of both vectors is finite,
    the buffers hold the [n / 32] well-formed block pairs of the call,
    and every weight nibble is 8 or every activation byte is 0, then
    both kernels return exactly [+0.0]. *)
Theorem zero_vectors_finite_scales (n : Z)
    (vx : list block_q4_0) (vy : list block_q8_0) :
  enough_blocks n vx vy = true ->
  forallb wf_q4_0 vx = true -> forallb wf_q8_0 vy = true ->
  forallb finite_scale_q4 vx = true -> forallb finite_scale_q8 vy = true ->
  forallb zero_weights vx = true \/ forallb zero_activations vy = true ->
  vec_dot_q4_0_q8_0_original n vx vy = Ok B32.pzero /\
  vec_dot_q4_0_q8_0_optimized n vx vy = Ok B32.pzero.
Proof.
  intros. split; [apply original_zero | apply optimized_zero]; assumption.
Qed.

Lemma zero_vectors_finite_scales_witness :
  vec_dot_q4_0_q8_0_original 96 Inputs.zero_x Inputs.mixed_y = Ok B32.pzero /\
  vec_dot_q4_0_q8_0_optimized 96 Inputs.zero_x Inputs.mixed_y = Ok B32.pzero.
Proof.
  apply (zero_vectors_finite_scales 96 Inputs.zero_x Inputs.mixed_y);
    try (vm_compute; reflexivity).
  left. vm_compute. reflexivity.
Defined.

(** C5, as stated, fails: one well-formed block pair whose weight
    nibbles are all 8 and whose weight scale is +infinity makes both
    kernels return a NaN, not 0.0. *)
Lemma zero_weights_infinite_scale :
  enough_blocks 32 Inputs.inf_x Inputs.one_y = true /\
  forallb wf_q4_0 Inputs.inf_x = true /\ forallb wf_q8_0 Inputs.one_y = true /\
  forallb zero_weights Inputs.inf_x = true /\
  vec_dot_q4_0_q8_0_original 32 Inputs.inf_x Inputs.one_y = Ok S754_nan /\
  vec_dot_q4_0_q8_0_optimized 32 Inputs.inf_x Inputs.one_y = Ok S754_nan /\
  vec_dot_q4_0_q8_0_original 32 Inputs.inf_x Inputs.one_y <> Ok B32.pzero /\
  vec_dot_q4_0_q8_0_optimized 32 Inputs.inf_x Inputs.one_y <> Ok B32.pzero.
Proof. vm_compute. repeat split; discriminate. Qed.

(** C8.  When the block count [n / 32] is 1, 2 or 3 the optimized kernel
    returns bit for bit what the original returns, in binary32 and on
    any buffers (also when a load faults); on buffers that hold the
    blocks both return a value. *)
Theorem optimized_bit_identical_small (n : Z)
    (vx : list block_q4_0) (vy : list block_q8_0) :
  1 <= Z.quot n QK4_0 <= 3 ->
  vec_dot_q4_0_q8_0_optimized n vx vy = vec_dot_q4_0_q8_0_original (F := spec_float) n vx vy /\
  (enough_blocks n vx vy = true ->
   exists r : spec_float, vec_dot_q4_0_q8_0_original n vx vy = Ok r).
Proof.
  intros H. split.
  - apply optimized_eq_original_below_4. lia.
  - apply original_total.
Qed.

Lemma optimized_bit_identical_small_witness :
  vec_dot_q4_0_q8_0_optimized 96 Inputs.mixed_x Inputs.mixed_y
  = vec_dot_q4_0_q8_0_original (F := spec_float) 96 Inputs.mixed_x Inputs.mixed_y.
Proof.
  refine (proj1 (optimized_bit_identical_small 96 Inputs.mixed_x Inputs.mixed_y _)).
  vm_compute. split; discriminate.
Defined.

(** C9.  For every [n < 32], negative ones included, both kernels store
    exactly [+0.0] to [*s] whatever the buffers are, empty ones included:
    no block is loaded.  For every [n], both kernels behave as on [n]
    rounded down to a multiple of 32. *)
Theorem no_block_result (n : Z) (vx : list block_q4_0) (vy : list block_q8_0) :
  (n < 32 ->
   vec_dot_q4_0_q8_0_original n vx vy = Ok B32.pzero /\
   vec_dot_q4_0_q8_0_optimized n vx vy = Ok B32.pzero /\
   vec_dot_q4_0_q8_0_original n nil nil = Ok B32.pzero /\
   vec_dot_q4_0_q8_0_optimized n nil nil = Ok B32.pzero /\
   forall m : memory,
     call_original n m = Ok (store_s m B32.pzero) /\
     call_optimized n m = Ok (store_s m B32.pzero)) /\
  vec_dot_q4_0_q8_0_original n vx vy
  = vec_dot_q4_0_q8_0_original (F := spec_float) (32 * (n / 32)) vx vy /\
  vec_dot_q4_0_q8_0_optimized n vx vy
  = vec_dot_q4_0_q8_0_optimized (F := spec_float) (32 * (n / 32)) vx vy.
Proof.
  split.
  - intros H. pose proof (quot_below n H).
    repeat split;
      try (first [apply original_no_block | apply optimized_no_block]; assumption).
    + unfold call_original. rewrite original_no_block by assumption. reflexivity.
    + unfold call_optimized. rewrite optimized_no_block by assumption. reflexivity.
  - assert (Q : Z.quot (32 * (n / 32)) QK4_0 = n / 32).
    { unfold QK4_0. rewrite Z.mul_comm. apply Z.quot_mul. lia. }
    destruct (Z.lt_ge_cases n 0) as [Hneg|Hpos].
    + assert (n / 32 < 0) by (apply Z.div_lt_upper_bound; lia).
      pose proof (quot_below n ltac:(lia)).
      rewrite !original_no_block, !optimized_no_block by lia. auto.
    + assert (E : Z.quot n QK4_0 = Z.quot (32 * (n / 32)) QK4_0).
      { rewrite Q. unfold QK4_0. apply Z.quot_div_nonneg; lia. }
      unfold vec_dot_q4_0_q8_0_original, vec_dot_q4_0_q8_0_optimized.
      cbv zeta. rewrite <- E. auto.
Qed.

Lemma no_block_result_witness :
  vec_dot_q4_0_q8_0_original (-5) Inputs.mixed_x Inputs.mixed_y = Ok B32.pzero.
Proof.
  exact (proj1 (proj1 (no_block_result (-5) Inputs.mixed_x Inputs.mixed_y)
                  ltac:(lia))).
Defined.









(* ================================================================== *)
(** * Further properties: conversions, what the kernels read, the benchmark *)
(* ================================================================== *)

(** ** Half precision *)

Lemma float_eqb_eq a b : float_eqb a b = true -> a = b.
Proof.
  destruct a as [s|s| |s m e], b as [t|t| |t n f]; cbn [float_eqb];
    try discriminate; try reflexivity.
  - intros H. apply eqb_prop in H. congruence.
  - intros H. apply eqb_prop in H. congruence.
  - rewrite !andb_true_iff, Pos.eqb_eq, Z.eqb_eq. intros [[H1 H2] H3].
    apply eqb_prop in H1. congruence.
Qed.

Lemma land_ones_mod a n m : 0 <= n <= m ->
  Z.land (a mod 2 ^ m) (Z.ones n) = Z.land a (Z.ones n).
Proof.
  intros H. apply Z.bits_inj'. intros k Hk.
  rewrite !Z.land_spec. destruct (Z.ltb_spec k n).
  - rewrite Z.mod_pow2_bits_low by lia. reflexivity.
  - rewrite Z.ones_spec_high by lia. rewrite !andb_false_r. reflexivity.
Qed.

Lemma exponent_field_low16 h :
  Z.land (Z.shiftr (h mod 2 ^ 16) 10) 31 = Z.land (Z.shiftr h 10) 31.
Proof.
  apply Z.bits_inj'. intros k Hk.
  change 31 with (Z.ones 5).
  rewrite !Z.land_spec, !Z.shiftr_spec by lia. destruct (Z.ltb_spec k 5).
  - rewrite Z.mod_pow2_bits_low by lia. reflexivity.
  - rewrite Z.ones_spec_high by lia. rewrite !andb_false_r. reflexivity.
Qed.

Lemma of_fp16_low16 h : B32.of_fp16 (h mod 65536) = B32.of_fp16 h.
Proof.
  unfold B32.of_fp16. change 65536 with (2 ^ 16).
  f_equal.
  - apply Z.mod_pow2_bits_low. lia.
  - apply exponent_field_low16.
  - change 1023 with (Z.ones 10). apply land_ones_mod. lia.
Qed.

Lemma exact_of_fp16_low16 h : Exact.of_fp16 (h mod 65536) = Exact.of_fp16 h.
Proof.
  unfold Exact.of_fp16. change 65536 with (2 ^ 16).
  assert (E1 : Z.testbit (h mod 2 ^ 16) 15 = Z.testbit h 15)
    by (apply Z.mod_pow2_bits_low; lia).
  assert (E3 : Z.land (h mod 2 ^ 16) 1023 = Z.land h 1023).
  { change 1023 with (Z.ones 10). apply land_ones_mod. lia. }
  rewrite E1, exponent_field_low16, E3. reflexivity.
Qed.

Lemma lxor_low16 h : (Z.lxor h 32768) mod 65536 = Z.lxor (h mod 65536) 32768.
Proof.
  change 65536 with (2 ^ 16). change 32768 with (2 ^ 15).
  apply Z.bits_inj'. intros k Hk.
  destruct (Z.ltb_spec k 16).
  - rewrite Z.mod_pow2_bits_low, !Z.lxor_spec, Z.mod_pow2_bits_low by lia.
    reflexivity.
  - rewrite Z.mod_pow2_bits_high, Z.lxor_spec, Z.mod_pow2_bits_high by lia.
    rewrite Z.pow2_bits_eqb by lia.
    destruct (Z.eqb_spec 15 k); [lia | reflexivity].
Qed.

(** *** Rationals [m * 2^e] *)

Lemma scaled_spec m e : (Exact.scaled m e : Q) == inject_Z m * 2 ^ e.
Proof.
  unfold Exact.scaled. destruct e as [|p|p]; cbn [this Q2Qc].
  - rewrite Qred_correct, Z.mul_1_r. cbn [Qpower]. ring.
  - rewrite Qred_correct, inject_Z_mult, Zpower_Qpower by lia. reflexivity.
  - rewrite Qred_correct, Qmake_Qdiv.
    change (Z.neg p) with (- Z.pos p). rewrite Qpower_opp.
    rewrite Pos2Z.inj_pow, Zpower_Qpower by lia. reflexivity.
Qed.

Lemma scaled_mul m1 e1 m2 e2 :
  Exact.scaled (m1 * m2) (e1 + e2) = (Exact.scaled m1 e1 * Exact.scaled m2 e2)%Qc.
Proof.
  apply Qc_is_canon. unfold Qcmult. cbn [this Q2Qc]. rewrite Qred_correct.
  rewrite !scaled_spec, inject_Z_mult, Qpower_plus by discriminate. ring.
Qed.

Lemma scaled_shift c k e :
  0 <= k -> Exact.scaled (c * 2 ^ k) e = Exact.scaled c (e + k).
Proof.
  intros Hk. apply Qc_is_canon.
  rewrite !scaled_spec, inject_Z_mult, Zpower_Qpower, Qpower_plus by (discriminate || lia).
  change (inject_Z 2) with 2%Q. ring.
Qed.

Lemma scaled_0 e : Exact.scaled 0 e = Q2Qc 0.
Proof.
  apply Qc_is_canon. rewrite scaled_spec. cbn [this Q2Qc]. rewrite Qred_correct. ring.
Qed.

Lemma holds_exact f s m e :
  holds f s m e = true ->
  Exact.of_b32 f
  = Some (if s then Qcopp (Exact.scaled m e) else Exact.scaled m e).
Proof.
  destruct f as [t|t| |t M E]; cbn [holds Exact.of_b32]; try discriminate.
  - rewrite andb_true_iff, Z.eqb_eq. intros [_ ->].
    rewrite scaled_0. destruct s; reflexivity.
  - rewrite !andb_true_iff, Z.leb_le, Z.eqb_eq. intros [[S L] V].
    apply eqb_prop in S. subst t. rewrite V.
    rewrite scaled_shift by lia. replace (E + (e - E)) with e by lia.
    reflexivity.
Qed.

Lemma decode_exact h :
  (Z.land (Z.shiftr h 10) 31 =? 31) = false ->
  Exact.of_fp16 h
  = (let '(s, m, e) := Half.decode h in
     if s then Qcopp (Exact.scaled m e) else Exact.scaled m e).
Proof.
  intros H. unfold Exact.of_fp16, Half.decode. cbv zeta. rewrite H.
  destruct (Z.land (Z.shiftr h 10) 31 =? 0); reflexivity.
Qed.

(** *** All 65536 bit patterns *)

Lemma half_check_all : all_from half_check 0 (Z.to_nat 65536) = true.
Proof. vm_cast_no_check (eq_refl true). Qed.

Lemma mod_65536_range h : 0 <= h mod 65536 < 0 + Z.of_nat (Z.to_nat 65536).
Proof. pose proof (Z.mod_pos_bound h 65536 ltac:(lia)). lia. Qed.

Lemma half_check_at h :
  0 <= h < 65536 ->
  valid_binary B32.prec B32.emax (B32.of_fp16 h) = true /\
  B32.is_finite (B32.of_fp16 h) = negb (Z.land (Z.shiftr h 10) 31 =? 31) /\
  half_image (B32.of_fp16 h) = true /\
  (B32.is_finite (B32.of_fp16 h) = true ->
   Exact.of_b32 (B32.of_fp16 h) = Some (Exact.of_fp16 h)) /\
  (Half.is_nan_bits h = false -> fp32_to_fp16 (B32.of_fp16 h) = h) /\
  B32.of_fp16 (Z.lxor h 32768) = SFopp (B32.of_fp16 h).
Proof.
  intros H.
  pose proof (all_from_spec _ _ _ half_check_all h ltac:(lia)) as A.
  unfold half_check in A. cbv zeta in A.
  rewrite !andb_true_iff in A.
  destruct A as [[[[[A1 A2] A3] A4] A5] A6].
  apply eqb_prop in A2. apply float_eqb_eq in A6.
  repeat split; try assumption.
  - intros F. rewrite F in A4. cbn [negb orb] in A4.
    rewrite decode_exact
      by (rewrite A2 in F; destruct (Z.land (Z.shiftr h 10) 31 =? 31);
          [discriminate | reflexivity]).
    destruct (Half.decode h) as [[s m] e]. apply holds_exact. assumption.
  - intros N. rewrite N in A5. cbn [orb] in A5. apply Z.eqb_eq. assumption.
Qed.

Lemma fp16_exact_value (h : Z) :
  B32.is_finite (B32.of_fp16 h) = true ->
  Exact.of_b32 (B32.of_fp16 h) = Some (Exact.of_fp16 h).
Proof.
  intros Hf.
  pose proof (Z.mod_pos_bound h 65536 ltac:(lia)) as R.
  destruct (half_check_at (h mod 65536) R) as (_ & _ & _ & E & _).
  rewrite of_fp16_low16, exact_of_fp16_low16 in E. auto.
Qed.

Lemma half_image_of_fp16 h : half_image (B32.of_fp16 h) = true.
Proof.
  pose proof (Z.mod_pos_bound h 65536 ltac:(lia)) as R.
  destruct (half_check_at (h mod 65536) R) as (_ & _ & I & _).
  rewrite of_fp16_low16 in I. assumption.
Qed.

(** X1.  [fp16_to_fp32] is total on bit patterns: whatever integer the
    16-bit field holds, the result is a value of binary32 in canonical
    form, it depends on the low 16 bits only, it is finite exactly when
    the exponent field is not 31, and flipping bit 15 flips the sign and
    nothing else. *)
Theorem fp16_to_fp32_canonical (h : Z) :
  valid_binary B32.prec B32.emax (fp16_to_fp32 h) = true /\
  fp16_to_fp32 (h mod 65536) = fp16_to_fp32 (F := spec_float) h /\
  B32.is_finite (fp16_to_fp32 h) = negb (Z.land (Z.shiftr h 10) 31 =? 31) /\
  fp16_to_fp32 (Z.lxor h 32768) = SFopp (fp16_to_fp32 h).
Proof.
  change (@fp16_to_fp32 spec_float binary32) with B32.of_fp16.
  pose proof (Z.mod_pos_bound h 65536 ltac:(lia)) as R.
  destruct (half_check_at (h mod 65536) R) as (V & Fi & _ & _ & _ & S).
  rewrite <- lxor_low16 in S. rewrite !of_fp16_low16 in *.
  change 65536 with (2 ^ 16) in Fi. rewrite exponent_field_low16 in Fi.
  auto using of_fp16_low16.
Qed.

(** X2.  The widening is exact: a half that is neither an infinity nor a
    NaN, read as [(-1)^s * (1024 + m) * 2^(e - 25)] (or
    [(-1)^s * m * 2^-24] for a subnormal), becomes the binary32 value
    that stands for the same rational. *)
Theorem fp16_to_fp32_exact (h : Z) :
  B32.is_finite (fp16_to_fp32 h) = true ->
  Exact.of_b32 (fp16_to_fp32 h) = Some (Exact.of_fp16 h).
Proof. apply fp16_exact_value. Qed.

Lemma fp16_to_fp32_exact_witness :
  Exact.of_b32 (fp16_to_fp32 15360) = Some (Exact.of_fp16 15360).
Proof. apply fp16_to_fp32_exact. reflexivity. Defined.

(** X3.  Round trip of the benchmark's two conversions: narrowing the
    widened half gives the 16 bits back, for every bit pattern that is
    not a NaN. *)
Theorem fp16_round_trip (h : Z) :
  0 <= h < 65536 -> Half.is_nan_bits h = false ->
  fp32_to_fp16 (fp16_to_fp32 h) = h.
Proof.
  intros H N. destruct (half_check_at h H) as (_ & _ & _ & _ & T & _). auto.
Qed.

Lemma fp16_round_trip_witness : fp32_to_fp16 (fp16_to_fp32 11878) = 11878.
Proof. apply fp16_round_trip; [lia | reflexivity]. Defined.

(** ** Products that do not round *)

Section ExactProducts.
Import B32 B32Facts.

Lemma shr_1_even c :
  0 <= c ->
  shr_1 {| shr_m := 2 * c; shr_r := false; shr_s := false |}
  = {| shr_m := c; shr_r := false; shr_s := false |}.
Proof. destruct c as [|p|p]; [reflexivity | reflexivity | lia]. Qed.

Lemma iter_shr_1_exact p : forall c, 0 <= c ->
  SpecFloat.iter_pos shr_1 p
    {| shr_m := c * 2 ^ Zpos p; shr_r := false; shr_s := false |}
  = {| shr_m := c; shr_r := false; shr_s := false |}.
Proof.
  induction p as [p IH|p IH|]; intros c Hc; cbn [SpecFloat.iter_pos].
  - pose proof (pow2_pos p) as P. rewrite pow2_xI.
    replace (c * (2 * (2 ^ Z.pos p * 2 ^ Z.pos p)))
      with (2 * (c * 2 ^ Z.pos p * 2 ^ Z.pos p)) by ring.
    rewrite shr_1_even by (apply Z.mul_nonneg_nonneg; lia).
    rewrite IH by (apply Z.mul_nonneg_nonneg; lia).
    apply IH. assumption.
  - pose proof (pow2_pos p) as P. rewrite pow2_xO.
    rewrite Z.mul_assoc.
    rewrite IH by (apply Z.mul_nonneg_nonneg; lia).
    apply IH. assumption.
  - change (2 ^ 1) with 2. rewrite Z.mul_comm. apply shr_1_even. assumption.
Qed.

Lemma Zdigits2_unique p d :
  2 ^ (d - 1) <= Zpos p < 2 ^ d -> 0 < d -> Zdigits2 (Zpos p) = d.
Proof.
  intros [L U] Hd. pose proof (Zdigits2_bounds p) as [L' U'].
  assert (D : 0 < Zdigits2 (Zpos p)) by reflexivity.
  assert (A : 2 ^ (d - 1) < 2 ^ Zdigits2 (Z.pos p)) by lia.
  assert (B : 2 ^ (Zdigits2 (Z.pos p) - 1) < 2 ^ d) by lia.
  apply Z.pow_lt_mono_r_iff in A; [|lia|lia].
  apply Z.pow_lt_mono_r_iff in B; [|lia|lia].
  lia.
Qed.

Lemma fexp_canonical e : emin <= e -> fexp prec emax (24 + e) = e.
Proof. intros H. unfold fexp. fold emin. unfold prec. lia. Qed.

(** A mantissa of 24 digits followed by [k] zero bits is stored as it is. *)
Lemma binary_round_aux_exact s c k e :
  2 ^ 23 <= Zpos c < 2 ^ 24 -> 0 <= k -> emin <= e + k <= emax - prec ->
  binary_round_aux prec emax s (Zpos c * 2 ^ k) e loc_Exact
  = S754_finite s c (e + k).
Proof.
  intros Hc Hk He.
  assert (P : 0 < 2 ^ k) by (apply Z.pow_pos_nonneg; lia).
  assert (D1 : Zdigits2 (Zpos c * 2 ^ k) = 24 + k).
  { destruct (Zpos c * 2 ^ k) as [|q|q] eqn:E; try lia.
    apply Zdigits2_unique; [|lia].
    replace (24 + k - 1) with (23 + k) by lia.
    rewrite !Z.pow_add_r by lia. rewrite <- E. nia. }
  assert (D2 : Zdigits2 (Zpos c) = 24) by (apply Zdigits2_unique; [assumption | lia]).
  assert (S1 : shr_fexp prec emax (Zpos c * 2 ^ k) e loc_Exact
               = ({| shr_m := Zpos c; shr_r := false; shr_s := false |}, e + k)).
  { unfold shr_fexp. rewrite D1.
    replace (24 + k + e) with (24 + (e + k)) by lia.
    rewrite fexp_canonical by lia.
    replace (e + k - e) with k by lia.
    unfold shr, shr_record_of_loc.
    destruct k as [|p|p]; [|rewrite iter_shr_1_exact by lia; reflexivity|lia].
    rewrite Z.mul_1_r, Z.add_0_r. reflexivity. }
  assert (S2 : shr_fexp prec emax (Zpos c) (e + k) loc_Exact
               = ({| shr_m := Zpos c; shr_r := false; shr_s := false |}, e + k)).
  { unfold shr_fexp. rewrite D2. rewrite fexp_canonical by lia.
    rewrite Z.sub_diag. reflexivity. }
  unfold binary_round_aux. rewrite S1.
  cbn [shr_m loc_of_shr_record round_nearest_even]. rewrite S2. cbn [shr_m].
  destruct (Z.leb_spec (e + k) (emax - prec)); [reflexivity | lia].
Qed.

Lemma half_image_inv s m e :
  half_image (S754_finite s m e) = true ->
  exists a, 2 ^ 10 <= a < 2 ^ 11 /\ Zpos m = a * 2 ^ 13 /\ -47 <= e <= -8.
Proof.
  cbn [half_image]. rewrite !andb_true_iff, !Z.leb_le, Z.ltb_lt, Z.eqb_eq.
  intros ((((L & U) & M) & E1) & E2).
  exists (Zpos m / 2 ^ 13).
  pose proof (Z.div_mod (Zpos m) (2 ^ 13) ltac:(lia)) as D.
  rewrite M in D. change (2 ^ 13) with 8192 in *.
  change (2 ^ 23) with 8388608 in *. change (2 ^ 24) with 16777216 in *.
  change (2 ^ 10) with 1024. change (2 ^ 11) with 2048.
  repeat split; try lia.
Qed.

(** The product of two widened halves has at most 22 significant bits:
    the multiplication does not round. *)
Lemma mul_half_exact sa ma ea sb mb eb :
  half_image (S754_finite sa ma ea) = true ->
  half_image (S754_finite sb mb eb) = true ->
  exists c k,
    0 <= k /\ Zpos c * 2 ^ k = Zpos ma * Zpos mb /\
    mul (S754_finite sa ma ea) (S754_finite sb mb eb)
    = S754_finite (xorb sa sb) c (ea + eb + k).
Proof.
  intros Ha Hb.
  destruct (half_image_inv _ _ _ Ha) as (a & Ra & Ea & Xa).
  destruct (half_image_inv _ _ _ Hb) as (b & Rb & Eb & Xb).
  change (2 ^ 10) with 1024 in *. change (2 ^ 11) with 2048 in *.
  change (2 ^ 13) with 8192 in *.
  unfold mul. cbn [SFmul]. rewrite Pos2Z.inj_mul.
  assert (Hp : 1048576 <= a * b < 4194304) by nia.
  destruct (Z.ltb_spec (a * b) 2097152) as [Lo|Hi].
  - exists (Z.to_pos (8 * (a * b))), 23.
    assert (C : Zpos (Z.to_pos (8 * (a * b))) = 8 * (a * b)) by (apply Z2Pos.id; lia).
    assert (E : Zpos ma * Zpos mb = Zpos (Z.to_pos (8 * (a * b))) * 2 ^ 23).
    { rewrite C, Ea, Eb. change (2 ^ 23) with 8388608. ring. }
    split; [lia|]. split; [symmetry; exact E|].
    rewrite E. apply binary_round_aux_exact.
    + rewrite C. change (2 ^ 23) with 8388608. change (2 ^ 24) with 16777216. lia.
    + lia.
    + unfold emin, SpecFloat.emin, emax, prec. lia.
  - exists (Z.to_pos (4 * (a * b))), 24.
    assert (C : Zpos (Z.to_pos (4 * (a * b))) = 4 * (a * b)) by (apply Z2Pos.id; lia).
    assert (E : Zpos ma * Zpos mb = Zpos (Z.to_pos (4 * (a * b))) * 2 ^ 24).
    { rewrite C, Ea, Eb. change (2 ^ 24) with 16777216. ring. }
    split; [lia|]. split; [symmetry; exact E|].
    rewrite E. apply binary_round_aux_exact.
    + rewrite C. change (2 ^ 23) with 8388608. change (2 ^ 24) with 16777216. lia.
    + lia.
    + unfold emin, SpecFloat.emin, emax, prec. lia.
Qed.

End ExactProducts.

Lemma exact_finite_mul sa ma ea sb mb eb c k :
  0 <= k -> Zpos c * 2 ^ k = Zpos ma * Zpos mb ->
  Exact.of_b32 (S754_finite (xorb sa sb) c (ea + eb + k))
  = match Exact.of_b32 (S754_finite sa ma ea), Exact.of_b32 (S754_finite sb mb eb) with
    | Some p, Some q => Some (p * q)%Qc
    | _, _ => None
    end.
Proof.
  intros Hk E. cbn [Exact.of_b32]. f_equal.
  rewrite <- scaled_shift, E, scaled_mul by assumption.
  destruct sa, sb; cbn [xorb]; ring.
Qed.

(** X4.  The combined scale of a block pair,
    [fp16_to_fp32(x.d) * fp16_to_fp32(y.d)], is computed without a
    rounding error (and never overflows): for finite stored scales the
    binary32 product stands for the product of the two rationals. *)
Theorem scale_product_exact (dx dy : Z) :
  B32.is_finite (fp16_to_fp32 dx) = true ->
  B32.is_finite (fp16_to_fp32 dy) = true ->
  Exact.of_b32 (f_mul (fp16_to_fp32 dx) (fp16_to_fp32 dy))
  = Some (Exact.of_fp16 dx * Exact.of_fp16 dy)%Qc.
Proof.
  change (@fp16_to_fp32 spec_float binary32) with B32.of_fp16.
  change (@f_mul spec_float binary32) with B32.mul.
  intros Fx Fy.
  pose proof (fp16_exact_value dx Fx) as Vx. pose proof (fp16_exact_value dy Fy) as Vy.
  pose proof (half_image_of_fp16 dx) as Ix. pose proof (half_image_of_fp16 dy) as Iy.
  destruct (B32.of_fp16 dx) as [sa|sa| |sa ma ea]; try discriminate;
    destruct (B32.of_fp16 dy) as [sb|sb| |sb mb eb]; try discriminate.
  - cbn in *. injection Vx as <-. injection Vy as <-. f_equal; ring.
  - cbn [B32.mul SFmul Exact.of_b32] in *. injection Vx as <-. f_equal; ring.
  - cbn [B32.mul SFmul Exact.of_b32] in *. injection Vy as <-. f_equal; ring.
  - destruct (mul_half_exact sa ma ea sb mb eb Ix Iy) as (c & k & Hk & E & ->).
    rewrite (exact_finite_mul sa ma ea sb mb eb c k Hk E), Vx, Vy. reflexivity.
Qed.

Lemma scale_product_exact_witness :
  Exact.of_b32 (f_mul (fp16_to_fp32 11878) (fp16_to_fp32 10854))
  = Some (Exact.of_fp16 11878 * Exact.of_fp16 10854)%Qc.
Proof. apply scale_product_exact; reflexivity. Defined.

(** X5.  [vcvtq_f32_s32] and the scalar path's int-to-float conversion
    are exact on what the kernels feed them: for well-formed blocks each
    of the four SDOT lanes and the scalar block sum converts to the
    binary32 value that stands for the same integer. *)
Theorem lane_conversion_exact (xb : block_q4_0) (yb : block_q8_0) :
  wf_q4_0 xb = true -> wf_q8_0 yb = true ->
  let '(p0, p1, p2, p3) := block_dot xb yb in
  B32.represents_int (f_of_int p0) p0 = true /\
  B32.represents_int (f_of_int p1) p1 = true /\
  B32.represents_int (f_of_int p2) p2 = true /\
  B32.represents_int (f_of_int p3) p3 = true /\
  B32.represents_int (f_of_int (scalar_block xb yb)) (scalar_block xb yb) = true.
Proof.
  intros Hx Hy. rewrite (block_dot_exact xb yb Hx Hy).
  rewrite (scalar_block_exact xb yb Hx Hy).
  pose proof (lane_isum_range xb yb Hx Hy 0). pose proof (lane_isum_range xb yb Hx Hy 1).
  pose proof (lane_isum_range xb yb Hx Hy 2). pose proof (lane_isum_range xb yb Hx Hy 3).
  pose proof (block_isum_range xb yb Hx Hy).
  change (@f_of_int spec_float binary32) with B32.of_int.
  repeat split; apply of_int_represents; lia.
Qed.

Lemma lane_conversion_exact_witness :
  let '(p0, p1, p2, p3) := block_dot (Benchmark.q4_block 1) (Benchmark.q8_block 1) in
  B32.represents_int (f_of_int p0) p0 = true /\
  B32.represents_int (f_of_int p1) p1 = true /\
  B32.represents_int (f_of_int p2) p2 = true /\
  B32.represents_int (f_of_int p3) p3 = true /\
  B32.represents_int (f_of_int (scalar_block (Benchmark.q4_block 1) (Benchmark.q8_block 1)))
    (scalar_block (Benchmark.q4_block 1) (Benchmark.q8_block 1)) = true.
Proof.
  apply (lane_conversion_exact (Benchmark.q4_block 1) (Benchmark.q8_block 1));
    reflexivity.
Defined.

(** ** What the kernels read *)

Lemma for_loop_cong {S : Type} (I : S -> Prop) (cond : S -> bool)
    (b1 b2 : S -> result S) :
  (forall s, I s -> cond s = true -> b1 s = b2 s) ->
  (forall s s', I s -> cond s = true -> b1 s = Ok s' -> I s') ->
  forall fuel s, I s -> for_loop fuel cond b1 s = for_loop fuel cond b2 s.
Proof.
  intros E P fuel. induction fuel as [|fuel IH]; intros s Hs; simpl.
  - reflexivity.
  - destruct (cond s) eqn:C; [|reflexivity].
    rewrite <- (E s Hs C).
    destruct (b1 s) as [s'| |] eqn:B; simpl; try reflexivity.
    apply IH. eapply P; eassumption.
Qed.


Lemma load_firstn {A : Type} (buf : list A) (k : nat) (i : Z) :
  i < Z.of_nat k -> load (firstn k buf) i = load buf i.
Proof.
  intros H. unfold load. destruct (Z.ltb_spec i 0); [reflexivity|].
  rewrite nth_error_firstn.
  destruct (Nat.ltb_spec (Z.to_nat i) k); [reflexivity | lia].
Qed.


Section Prefix.
Context {F : Type} {ops : FloatOps F}.
Variables (nb : Z) (vx : list block_q4_0) (vy : list block_q8_0).

Lemma pair_loop_prefix fuel st :
  0 <= fst (fst st) ->
  for_loop fuel (pair_cond nb)
    (pair_body_original (firstn (Z.to_nat nb) vx) (firstn (Z.to_nat nb) vy)) st
  = for_loop fuel (pair_cond nb) (pair_body_original vx vy) st.
Proof.
  apply (for_loop_cong (fun s : pair_state => 0 <= fst (fst s))).
  - intros [[ib s0] s1] H C. cbn [fst] in H. unfold pair_cond in C.
    apply Z.ltb_lt in C. rewrite !pair_body_original_eq.
    rewrite !load_firstn by lia. reflexivity.
  - intros s s' H _ B. apply pair_body_index in B. lia.
Qed.

Lemma quad_loop_prefix fuel st :
  0 <= fst (fst (fst (fst st))) ->
  for_loop fuel (quad_cond nb)
    (quad_body (firstn (Z.to_nat nb) vx) (firstn (Z.to_nat nb) vy)
       (vdupq_n_u8 15) (vdupq_n_s8 8)) st
  = for_loop fuel (quad_cond nb)
      (quad_body vx vy (vdupq_n_u8 15) (vdupq_n_s8 8)) st.
Proof.
  apply (for_loop_cong (fun s : quad_state => 0 <= fst (fst (fst (fst s))))).
  - intros [[[[ib s0] s1] s2] s3] H C. cbn [fst] in H. unfold quad_cond in C.
    apply Z.ltb_lt in C. unfold quad_body. rewrite !PROCESS_BLOCK_eq.
    rewrite !load_firstn by lia. reflexivity.
  - intros s s' H _ B. apply quad_body_index in B. lia.
Qed.

Lemma tail_loop_prefix fuel st :
  0 <= fst st ->
  for_loop fuel (tail_cond nb)
    (tail_body (firstn (Z.to_nat nb) vx) (firstn (Z.to_nat nb) vy)) st
  = for_loop fuel (tail_cond nb) (tail_body vx vy) st.
Proof.
  apply (for_loop_cong (fun s : Z * F => 0 <= fst s)).
  - intros [ib sumf] H C. cbn [fst] in H. unfold tail_cond in C.
    apply Z.ltb_lt in C. unfold tail_body.
    rewrite !load_firstn by lia. reflexivity.
  - intros s s' H _ B. apply tail_body_index in B. lia.
Qed.

Lemma pair_loop_index fuel st st' :
  0 <= fst (fst st) ->
  for_loop fuel (pair_cond nb) (pair_body_original vx vy) st = Ok st' ->
  0 <= fst (fst st').
Proof.
  apply (for_loop_inv (fun s : pair_state => 0 <= fst (fst s))).
  intros s s' H B. apply pair_body_index in B. lia.
Qed.

Lemma quad_loop_index fuel st st' :
  0 <= fst (fst (fst (fst st))) ->
  for_loop fuel (quad_cond nb)
    (quad_body vx vy (vdupq_n_u8 15) (vdupq_n_s8 8)) st = Ok st' ->
  0 <= fst (fst (fst (fst st'))).
Proof.
  apply (for_loop_inv (fun s : quad_state => 0 <= fst (fst (fst (fst s))))).
  intros s s' H B. apply quad_body_index in B. lia.
Qed.




End Prefix.

Lemma original_prefix {F : Type} {ops : FloatOps F} n vx vy :
  vec_dot_q4_0_q8_0_original n
    (firstn (Z.to_nat (Z.quot n QK4_0)) vx) (firstn (Z.to_nat (Z.quot n QK4_0)) vy)
  = vec_dot_q4_0_q8_0_original n vx vy.
Proof.
  unfold vec_dot_q4_0_q8_0_original. cbv zeta.
  set (nb := Z.quot n QK4_0).
  rewrite pair_loop_prefix by (cbn [fst]; lia).
  destruct (for_loop (loop_fuel nb) (pair_cond nb) (pair_body_original vx vy)
              (0, vdupq_n_f32 f_zero, vdupq_n_f32 f_zero))
    as [[[ib s0] s1]| |] eqn:E; cbn [bind]; try reflexivity.
  apply pair_loop_index in E; [|cbn [fst]; lia]. cbn [fst] in E.
  rewrite tail_loop_prefix by (cbn [fst]; lia). reflexivity.
Qed.

Lemma optimized_prefix {F : Type} {ops : FloatOps F} n vx vy :
  vec_dot_q4_0_q8_0_optimized n
    (firstn (Z.to_nat (Z.quot n QK4_0)) vx) (firstn (Z.to_nat (Z.quot n QK4_0)) vy)
  = vec_dot_q4_0_q8_0_optimized n vx vy.
Proof.
  unfold vec_dot_q4_0_q8_0_optimized. cbv zeta.
  set (nb := Z.quot n QK4_0).
  rewrite quad_loop_prefix by (cbn [fst]; lia).
  destruct (for_loop (loop_fuel nb) (quad_cond nb)
              (quad_body vx vy (vdupq_n_u8 15) (vdupq_n_s8 8))
              (0, vdupq_n_f32 f_zero, vdupq_n_f32 f_zero,
               vdupq_n_f32 f_zero, vdupq_n_f32 f_zero))
    as [[[[[ib s0] s1] s2] s3]| |] eqn:E; cbn [bind]; try reflexivity.
  apply quad_loop_index in E; [|cbn [fst]; lia]. cbn [fst] in E.
  rewrite (for_loop_ext _ _ _ (pair_body_optimized_eq (firstn (Z.to_nat nb) vx)
                                 (firstn (Z.to_nat nb) vy))).
  rewrite (for_loop_ext _ _ _ (pair_body_optimized_eq vx vy)).
  rewrite pair_loop_prefix by (cbn [fst]; lia).
  destruct (for_loop (loop_fuel nb) (pair_cond nb) (pair_body_original vx vy)
              (ib, vdupq_n_f32 f_zero, vdupq_n_f32 f_zero))
    as [[[ib1 t0] t1]| |] eqn:E1; cbn [bind]; try reflexivity.
  apply pair_loop_index in E1; [|cbn [fst]; lia]. cbn [fst] in E1.
  rewrite tail_loop_prefix by (cbn [fst]; lia). reflexivity.
Qed.

(** X6.  Each kernel reads the first [n / 32] blocks of either buffer
    and nothing beyond them: on buffers cut after [n / 32] blocks it
    behaves as on the whole buffers, whatever follows the blocks and
    whether or not the call returns. *)
Theorem kernels_read_prefix {F : Type} {ops : FloatOps F}
    (n : Z) (vx : list block_q4_0) (vy : list block_q8_0) :
  vec_dot_q4_0_q8_0_original n
    (firstn (Z.to_nat (Z.quot n QK4_0)) vx) (firstn (Z.to_nat (Z.quot n QK4_0)) vy)
  = vec_dot_q4_0_q8_0_original n vx vy /\
  vec_dot_q4_0_q8_0_optimized n
    (firstn (Z.to_nat (Z.quot n QK4_0)) vx) (firstn (Z.to_nat (Z.quot n QK4_0)) vy)
  = vec_dot_q4_0_q8_0_optimized n vx vy.
Proof. split; [apply original_prefix | apply optimized_prefix]. Qed.




(** ** Signs of zero *)

Lemma quad_loop_regular nb vx vy fuel st st' :
  regular4 (snd (fst (fst (fst st)))) /\ regular4 (snd (fst (fst st))) /\
  regular4 (snd (fst st)) /\ regular4 (snd st) ->
  for_loop fuel (quad_cond nb)
    (quad_body vx vy (vdupq_n_u8 15) (vdupq_n_s8 8)) st = Ok st' ->
  regular4 (snd (fst (fst (fst st')))) /\ regular4 (snd (fst (fst st'))) /\
  regular4 (snd (fst st')) /\ regular4 (snd st').
Proof.
  apply (for_loop_inv (fun s : quad_state =>
           regular4 (snd (fst (fst (fst s)))) /\ regular4 (snd (fst (fst s))) /\
           regular4 (snd (fst s)) /\ regular4 (snd s))).
  clear. intros [[[[ib s0] s1] s2] s3] s' (H0 & H1 & H2 & H3). cbn [fst snd] in *.
  unfold quad_body. rewrite !PROCESS_BLOCK_eq.
  destruct (load vx (ib + 0)); cbn [bind]; try discriminate.
  destruct (load vy (ib + 0)); cbn [bind]; try discriminate.
  destruct (load vx (ib + 1)); cbn [bind]; try discriminate.
  destruct (load vy (ib + 1)); cbn [bind]; try discriminate.
  destruct (load vx (ib + 2)); cbn [bind]; try discriminate.
  destruct (load vy (ib + 2)); cbn [bind]; try discriminate.
  destruct (load vx (ib + 3)); cbn [bind]; try discriminate.
  destruct (load vy (ib + 3)); cbn [bind]; try discriminate.
  intros E. injection E as <-. cbn [fst snd].
  repeat split; apply regular4_mla; assumption.
Qed.

Lemma scalar_term_above xb yb : B32.above_emin (scalar_term xb yb).
Proof.
  unfold scalar_term. change (@f_mul spec_float binary32) with B32.mul.
  apply B32Facts.mul_above.
Qed.

Lemma tail_loop_regular nb vx vy fuel st st' :
  regular (snd st) ->
  for_loop fuel (tail_cond nb) (tail_body vx vy) st = Ok st' ->
  regular (snd st').
Proof.
  apply (for_loop_inv (fun s : Z * spec_float => regular (snd s))).
  clear. intros [ib sumf] s' H. cbn [snd] in H. unfold tail_body.
  destruct (load vx ib) as [xi| |]; cbn [bind]; try discriminate.
  destruct (load vy ib) as [yi| |]; cbn [bind]; try discriminate.
  intros E.
  replace s' with (ib + 1, f_add sumf (scalar_term xi yi)) by congruence.
  cbn [snd]. apply regular_add; [assumption|]. apply scalar_term_above.
Qed.

Lemma regular4_vaddq a b : regular4 a -> regular4 b -> regular4 (vaddq_f32 a b).
Proof.
  destruct a as [[[a0 a1] a2] a3], b as [[[b0 b1] b2] b3].
  intros (A0 & A1 & A2 & A3) (B0 & B1 & B2 & B3).
  cbn [vaddq_f32 regular4]. auto using regular_add2.
Qed.

Lemma original_regular n vx vy r :
  vec_dot_q4_0_q8_0_original n vx vy = Ok r -> regular r.
Proof.
  unfold vec_dot_q4_0_q8_0_original. cbv zeta.
  set (nb := Z.quot n QK4_0).
  destruct (for_loop (loop_fuel nb) (pair_cond nb) (pair_body_original vx vy)
              (0, vdupq_n_f32 f_zero, vdupq_n_f32 f_zero))
    as [[[ib s0] s1]| |] eqn:E; cbn [bind]; try discriminate.
  apply pair_loop_regular in E; cbn [fst snd]; try apply regular4_zero.
  cbn [fst snd] in E. destruct E as [R0 R1].
  destruct (for_loop (loop_fuel nb) (tail_cond nb) (tail_body vx vy) _)
    as [[ib' sumf]| |] eqn:E'; cbn [bind]; try discriminate.
  apply tail_loop_regular in E'.
  - intros H. injection H as <-. exact E'.
  - cbn [snd]. apply regular_add2; apply regular_vaddvq; assumption.
Qed.

Lemma optimized_regular n vx vy r :
  vec_dot_q4_0_q8_0_optimized n vx vy = Ok r -> regular r.
Proof.
  unfold vec_dot_q4_0_q8_0_optimized. cbv zeta.
  set (nb := Z.quot n QK4_0).
  destruct (for_loop (loop_fuel nb) (quad_cond nb)
              (quad_body vx vy (vdupq_n_u8 15) (vdupq_n_s8 8))
              (0, vdupq_n_f32 f_zero, vdupq_n_f32 f_zero,
               vdupq_n_f32 f_zero, vdupq_n_f32 f_zero))
    as [[[[[ib s0] s1] s2] s3]| |] eqn:E; cbn [bind]; try discriminate.
  apply quad_loop_regular in E;
    [|cbn [fst snd]; repeat split; try exact I; discriminate].
  cbn [fst snd] in E. destruct E as (R0 & R1 & R2 & R3).
  rewrite (for_loop_ext _ _ _ (pair_body_optimized_eq vx vy)).
  destruct (for_loop (loop_fuel nb) (pair_cond nb) (pair_body_original vx vy)
              (ib, vdupq_n_f32 f_zero, vdupq_n_f32 f_zero))
    as [[[ib1 t0] t1]| |] eqn:E1; cbn [bind]; try discriminate.
  apply pair_loop_regular in E1; cbn [fst snd]; try apply regular4_zero.
  cbn [fst snd] in E1. destruct E1 as [T0 T1].
  destruct (for_loop (loop_fuel nb) (tail_cond nb) (tail_body vx vy) _)
    as [[ib' sumf]| |] eqn:E'; cbn [bind]; try discriminate.
  apply tail_loop_regular in E'.
  - intros H. injection H as <-. exact E'.
  - cbn [snd]. apply regular_add2.
    + apply regular_vaddvq. apply regular4_vaddq; apply regular4_vaddq; assumption.
    + apply regular_add2; apply regular_vaddvq; assumption.
Qed.

(** X8.  Neither kernel ever returns [-0.0]: every accumulator starts at
    [+0.0], and a round-to-nearest sum is [-0.0] only if both operands
    are. *)
Theorem kernels_never_negative_zero
    (n : Z) (vx : list block_q4_0) (vy : list block_q8_0) (r : spec_float) :
  vec_dot_q4_0_q8_0_original n vx vy = Ok r \/
  vec_dot_q4_0_q8_0_optimized n vx vy = Ok r ->
  r <> S754_zero true.
Proof.
  intros [H|H].
  - apply original_regular in H. apply H.
  - apply optimized_regular in H. apply H.
Qed.

Lemma kernels_never_negative_zero_witness :
  S754_finite false 16222016 (-23) <> S754_zero true.
Proof.
  apply (kernels_never_negative_zero 288 Inputs.bench_x Inputs.bench_y).
  left. vm_compute. reflexivity.
Defined.

(** ** Splitting the vectors *)

Section Additivity.
Context {F : Type} {ops : FloatOps F}.
Variables (f_one : F) (f_sub : F -> F -> F) (f_opp : F -> F).
Hypothesis Fring : ring_theory f_zero f_one f_add f_mul f_sub f_opp eq.

Add Ring FrAdd : Fring.

Lemma fsum_split (f : nat -> F) (k1 k2 : nat) :
  fsum f (k1 + k2) = f_add (fsum f k1) (fsum (fun j => f (k1 + j)%nat) k2).
Proof.
  induction k2 as [|k2 IH].
  - rewrite Nat.add_0_r. cbn [fsum]. ring.
  - rewrite Nat.add_succ_r. cbn [fsum]. rewrite IH. ring.
Qed.

Lemma spec_dot_app (x1 x2 : list block_q4_0) (y1 y2 : list block_q8_0) :
  length y1 = length x1 ->
  spec_dot (32 * Z.of_nat (length x1 + length x2)) (x1 ++ x2) (y1 ++ y2)
  = f_add (spec_dot (32 * Z.of_nat (length x1)) x1 y1)
          (spec_dot (32 * Z.of_nat (length x2)) x2 y2).
Proof.
  intros Hy. unfold spec_dot, QK4_0.
  assert (Q : forall k, Z.to_nat (Z.quot (32 * Z.of_nat k) 32) = k).
  { intros k. rewrite Z.mul_comm, Z.quot_mul by lia. apply Nat2Z.id. }
  rewrite !Q, fsum_split. f_equal.
  - apply fsum_ext. intros j Hj. unfold spec_term, block_x, block_y.
    rewrite !app_nth1 by lia. reflexivity.
  - apply fsum_ext. intros j Hj. unfold spec_term, block_x, block_y.
    rewrite !app_nth2 by lia. do 2 f_equal; f_equal; lia.
Qed.

End Additivity.

(** X9.  Without rounding the kernels are additive over a split of the
    vectors at a block boundary: the result on the concatenation of two
    vectors is the sum of the results on the parts, for either kernel.
    In binary32 this holds up to the rounding of the sums only. *)
Theorem kernels_additive_exact {F : Type} (ops : FloatOps F)
    (f_one : F) (f_sub : F -> F -> F) (f_opp : F -> F)
    (x1 x2 : list block_q4_0) (y1 y2 : list block_q8_0) :
  ring_theory f_zero f_one f_add f_mul f_sub f_opp eq ->
  (forall a b, f_of_int (a + b) = f_add (f_of_int a) (f_of_int b)) ->
  length y1 = length x1 -> length y2 = length x2 ->
  forallb wf_q4_0 (x1 ++ x2) = true -> forallb wf_q8_0 (y1 ++ y2) = true ->
  exists r1 r2,
    vec_dot_q4_0_q8_0_original (32 * Z.of_nat (length x1)) x1 y1 = Ok r1 /\
    vec_dot_q4_0_q8_0_original (32 * Z.of_nat (length x2)) x2 y2 = Ok r2 /\
    vec_dot_q4_0_q8_0_original (32 * Z.of_nat (length x1 + length x2))
      (x1 ++ x2) (y1 ++ y2) = Ok (f_add r1 r2) /\
    vec_dot_q4_0_q8_0_optimized (32 * Z.of_nat (length x1 + length x2))
      (x1 ++ x2) (y1 ++ y2) = Ok (f_add r1 r2).
Proof.
  intros R A L1 L2 Wx Wy.
  rewrite forallb_app in Wx, Wy. apply andb_true_iff in Wx, Wy.
  destruct Wx as [Wx1 Wx2], Wy as [Wy1 Wy2].
  assert (Q : forall k, Z.quot (32 * Z.of_nat k) QK4_0 = Z.of_nat k).
  { intros k. unfold QK4_0. rewrite Z.mul_comm, Z.quot_mul by lia. reflexivity. }
  assert (E : forall (x : list block_q4_0) (y : list block_q8_0),
             length y = length x ->
             enough_blocks (32 * Z.of_nat (length x)) x y = true).
  { intros x y L. unfold enough_blocks. rewrite Q, L, Z.leb_refl. reflexivity. }
  exists (spec_dot (32 * Z.of_nat (length x1)) x1 y1),
         (spec_dot (32 * Z.of_nat (length x2)) x2 y2).
  rewrite <- (spec_dot_app f_one f_sub f_opp R) by assumption.
  assert (E12 : enough_blocks (32 * Z.of_nat (length x1 + length x2))
                  (x1 ++ x2) (y1 ++ y2) = true).
  { rewrite <- length_app. apply E. rewrite !length_app. lia. }
  assert (W12x : forallb wf_q4_0 (x1 ++ x2) = true)
    by (rewrite forallb_app, Wx1, Wx2; reflexivity).
  assert (W12y : forallb wf_q8_0 (y1 ++ y2) = true)
    by (rewrite forallb_app, Wy1, Wy2; reflexivity).
  repeat split.
  - apply (original_exact f_one f_sub f_opp R A); auto.
  - apply (original_exact f_one f_sub f_opp R A); auto.
  - apply (original_exact f_one f_sub f_opp R A); auto.
  - apply (optimized_exact f_one f_sub f_opp R A); auto.
Qed.

Lemma kernels_additive_exact_witness :
  exists r1 r2,
    vec_dot_q4_0_q8_0_original (ops := exact_ops)
      (32 * Z.of_nat (length (Benchmark.q4_data 2))) (Benchmark.q4_data 2) (Benchmark.q8_data 2) = Ok r1 /\
    vec_dot_q4_0_q8_0_original (ops := exact_ops)
      (32 * Z.of_nat (length (Benchmark.q4_data 3))) (Benchmark.q4_data 3) (Benchmark.q8_data 3) = Ok r2 /\
    vec_dot_q4_0_q8_0_original (ops := exact_ops)
      (32 * Z.of_nat (length (Benchmark.q4_data 2) + length (Benchmark.q4_data 3)))
      (Benchmark.q4_data 2 ++ Benchmark.q4_data 3)
      (Benchmark.q8_data 2 ++ Benchmark.q8_data 3) = Ok (Qcplus r1 r2) /\
    vec_dot_q4_0_q8_0_optimized (ops := exact_ops)
      (32 * Z.of_nat (length (Benchmark.q4_data 2) + length (Benchmark.q4_data 3)))
      (Benchmark.q4_data 2 ++ Benchmark.q4_data 3)
      (Benchmark.q8_data 2 ++ Benchmark.q8_data 3) = Ok (Qcplus r1 r2).
Proof.
  apply (kernels_additive_exact exact_ops 1%Qc Qcminus Qcopp
           (Benchmark.q4_data 2) (Benchmark.q4_data 3)
           (Benchmark.q8_data 2) (Benchmark.q8_data 3)
           Qcrt exact_of_int_add); reflexivity.
Defined.

(** ** Stores and the generator loops *)

Lemma upd_firstn {A : Type} (b : list A) (j : nat) (v : A) :
  (j < length b)%nat ->
  firstn (S j) (firstn j b ++ v :: skipn (S j) b) = firstn j b ++ [v].
Proof.
  intros H.
  assert (L : length (firstn j b) = j) by (rewrite length_firstn; lia).
  rewrite firstn_app, L.
  rewrite firstn_all2 by lia.
  replace (S j - j)%nat with 1%nat by lia. reflexivity.
Qed.

Lemma upd_skipn {A : Type} (b : list A) (j m : nat) (v : A) :
  (j < length b)%nat -> (j < m)%nat ->
  skipn m (firstn j b ++ v :: skipn (S j) b) = skipn m b.
Proof.
  intros H Hm.
  assert (L : length (firstn j b) = j) by (rewrite length_firstn; lia).
  rewrite skipn_app, L.
  rewrite skipn_all2 by lia.
  replace (m - j)%nat with (S (m - j - 1)) by lia.
  rewrite skipn_cons. cbn [app]. rewrite skipn_skipn. f_equal. lia.
Qed.

Lemma upd_length {A : Type} (b : list A) (j : nat) (v : A) :
  (j < length b)%nat -> length (firstn j b ++ v :: skipn (S j) b) = length b.
Proof.
  intros H. rewrite length_app, length_firstn. cbn [length].
  rewrite length_skipn. lia.
Qed.

Lemma fill_loop_from {A : Type} (g : Z -> A) (nb : Z) (fuel : nat) :
  forall (i : Z) (b : list A),
    0 <= i <= Z.of_nat (length b) -> (Z.to_nat (nb - i) <= fuel)%nat ->
    for_loop fuel (fun st : Z * list A => fst st <? nb)
      (fun st => let '(i, blocks) := st in
                 blocks <- store blocks i (g i) ;; Ok (i + 1, blocks))
      (i, b)
    = if nb <=? Z.of_nat (length b)
      then Ok (Z.max nb i,
               firstn (Z.to_nat i) b
               ++ map (fun k => g (i + Z.of_nat k)) (seq 0 (Z.to_nat (nb - i)))
               ++ skipn (Z.to_nat (Z.max nb i)) b)
      else OutOfBounds.
Proof.
  induction fuel as [|fuel IH]; intros i b Hi Hf.
  - rewrite for_loop_exit by (cbn [fst]; apply Z.ltb_ge; lia).
    destruct (Z.leb_spec nb (Z.of_nat (length b))); [|lia].
    replace (Z.max nb i) with i by lia.
    replace (Z.to_nat (nb - i)) with 0%nat by lia.
    cbn [seq map app]. rewrite firstn_skipn. reflexivity.
  - destruct (Z.ltb_spec i nb) as [Hlt|Hge].
    + rewrite for_loop_step by (cbn [fst]; apply Z.ltb_lt; assumption).
      unfold store.
      destruct (Z.ltb_spec i 0); [lia|].
      destruct (Z.leb_spec (Z.of_nat (length b)) i) as [Hend|Hin]; cbn [orb bind].
      * destruct (Z.leb_spec nb (Z.of_nat (length b))); [lia | reflexivity].
      * assert (Hj : (Z.to_nat i < length b)%nat) by lia.
        rewrite IH by (rewrite ?upd_length by assumption; lia).
        rewrite upd_length by assumption.
        destruct (Z.leb_spec nb (Z.of_nat (length b))); [|reflexivity].
        f_equal. f_equal; [lia|].
        replace (Z.to_nat (i + 1)) with (S (Z.to_nat i)) by lia.
        rewrite upd_firstn by assumption.
        replace (Z.max nb (i + 1)) with nb by lia.
        replace (Z.max nb i) with nb by lia.
        rewrite upd_skipn by lia.
        replace (Z.to_nat (nb - i)) with (S (Z.to_nat (nb - (i + 1)))) by lia.
        cbn [seq map]. rewrite <- seq_shift, map_map.
        rewrite <- app_assoc. cbn [app]. rewrite Z.add_0_r.
        f_equal. f_equal. f_equal.
        apply map_ext. intros k. f_equal. lia.
    + rewrite for_loop_exit by (cbn [fst]; apply Z.ltb_ge; lia).
      destruct (Z.leb_spec nb (Z.of_nat (length b))); [|lia].
      replace (Z.max nb i) with i by lia.
      replace (Z.to_nat (nb - i)) with 0%nat by lia.
      cbn [seq map app]. rewrite firstn_skipn. reflexivity.
Qed.

Lemma fill_loop {A : Type} (g : Z -> A) (nb : Z) (buf : list A) :
  for_loop (loop_fuel nb) (fun st : Z * list A => fst st <? nb)
    (fun st => let '(i, blocks) := st in
               blocks <- store blocks i (g i) ;; Ok (i + 1, blocks))
    (0, buf)
  = if nb <=? Z.of_nat (length buf)
    then Ok (Z.max nb 0,
             map g (Benchmark.indices (Z.to_nat nb)) ++ skipn (Z.to_nat nb) buf)
    else OutOfBounds.
Proof.
  rewrite fill_loop_from by (unfold loop_fuel; lia).
  destruct (nb <=? Z.of_nat (length buf)); [|reflexivity].
  f_equal. f_equal. cbn [Z.to_nat firstn app]. rewrite Z.sub_0_r.
  unfold Benchmark.indices. rewrite map_map.
  f_equal. f_equal. lia.
Qed.

Lemma generate_q4_0_blocks_eq (x : list block_q4_0) (nb : Z) :
  Benchmark.generate_q4_0_blocks x nb
  = (if nb <=? Z.of_nat (length x)
     then Ok (Benchmark.q4_data nb ++ skipn (Z.to_nat nb) x)
     else OutOfBounds).
Proof.
  unfold Benchmark.generate_q4_0_blocks. rewrite fill_loop.
  destruct (nb <=? Z.of_nat (length x)); reflexivity.
Qed.

Lemma generate_q8_0_blocks_eq (y : list block_q8_0) (nb : Z) :
  Benchmark.generate_q8_0_blocks y nb
  = (if nb <=? Z.of_nat (length y)
     then Ok (Benchmark.q8_data nb ++ skipn (Z.to_nat nb) y)
     else OutOfBounds).
Proof.
  unfold Benchmark.generate_q8_0_blocks. rewrite fill_loop.
  destruct (nb <=? Z.of_nat (length y)); reflexivity.
Qed.

(** X10.  Each generator overwrites exactly the first [nb] blocks of
    its buffer, block [i] with a value that depends on [i] only, and
    leaves the rest as it was; on a buffer of fewer than [nb] blocks it
    writes past the end.  Nothing of the allocated memory's old contents
    reaches a kernel. *)
Theorem generators_fill (x : list block_q4_0) (y : list block_q8_0) (nb : Z) :
  Benchmark.generate_q4_0_blocks x nb
  = (if nb <=? Z.of_nat (length x)
     then Ok (Benchmark.q4_data nb ++ skipn (Z.to_nat nb) x)
     else OutOfBounds) /\
  Benchmark.generate_q8_0_blocks y nb
  = (if nb <=? Z.of_nat (length y)
     then Ok (Benchmark.q8_data nb ++ skipn (Z.to_nat nb) y)
     else OutOfBounds).
Proof. split; [apply generate_q4_0_blocks_eq | apply generate_q8_0_blocks_eq]. Qed.

(** ** Generated contents *)

Lemma q4_scales_moderate :
  all_from (fun r => Rel.moderate_scale (Benchmark.q4_scale r)) 0 100 = true.
Proof. vm_compute. reflexivity. Qed.

Lemma q8_scales_moderate :
  all_from (fun r => Rel.moderate_scale (Benchmark.q8_scale r)) 0 50 = true.
Proof. vm_compute. reflexivity. Qed.

Lemma q4_scale_rem i : Benchmark.q4_scale i = Benchmark.q4_scale (Z.rem i 100).
Proof. unfold Benchmark.q4_scale. rewrite Z.rem_rem by lia. reflexivity. Qed.

Lemma q8_scale_rem i : Benchmark.q8_scale i = Benchmark.q8_scale (Z.rem i 50).
Proof. unfold Benchmark.q8_scale. rewrite Z.rem_rem by lia. reflexivity. Qed.

Lemma q4_scale_moderate i : 0 <= i -> Rel.moderate_scale (Benchmark.q4_scale i) = true.
Proof.
  intros H. rewrite q4_scale_rem.
  apply (all_from_spec _ _ _ q4_scales_moderate).
  pose proof (Z.rem_bound_pos i 100 H ltac:(lia)). lia.
Qed.

Lemma q8_scale_moderate i : 0 <= i -> Rel.moderate_scale (Benchmark.q8_scale i) = true.
Proof.
  intros H. rewrite q8_scale_rem.
  apply (all_from_spec _ _ _ q8_scales_moderate).
  pose proof (Z.rem_bound_pos i 50 H ltac:(lia)). lia.
Qed.

Lemma moderate_scale_inv d :
  Rel.moderate_scale d = true ->
  Int.in_u16 d = true /\ B32.is_finite (B32.of_fp16 d) = true.
Proof.
  unfold Rel.moderate_scale. rewrite !andb_true_iff. tauto.
Qed.

Lemma wrap_u8_range z : Int.in_u8 (Int.wrap_u8 z) = true.
Proof.
  unfold Int.in_u8, Int.wrap_u8.
  pose proof (Z.mod_pos_bound z 256 ltac:(lia)).
  apply andb_true_iff. rewrite Z.leb_le, Z.ltb_lt. lia.
Qed.

Lemma wrap_s8_range z : Int.in_s8 (Int.wrap_s8 z) = true.
Proof.
  unfold Int.in_s8, Int.wrap_s8.
  pose proof (Z.mod_pos_bound (z + 128) 256 ltac:(lia)).
  apply andb_true_iff. rewrite Z.leb_le, Z.ltb_lt. lia.
Qed.

Lemma forallb_map_all {A B : Type} (P : B -> bool) (f : A -> B) (l : list A) :
  (forall a, P (f a) = true) -> forallb P (map f l) = true.
Proof. intros H. induction l as [|a l IH]; cbn; [reflexivity|]. rewrite H, IH. reflexivity. Qed.

Lemma q4_block_wf i : 0 <= i -> wf_q4_0 (Benchmark.q4_block i) = true.
Proof.
  intros H. unfold wf_q4_0, Benchmark.q4_block. cbn [q4_d q4_qs].
  destruct (moderate_scale_inv _ (q4_scale_moderate i H)) as [U _].
  rewrite U. cbn [andb]. rewrite length_map.
  change (length (Benchmark.indices 16)) with 16%nat. cbn [Nat.eqb andb].
  apply forallb_map_all. intros j. apply wrap_u8_range.
Qed.

Lemma q8_block_wf i : 0 <= i -> wf_q8_0 (Benchmark.q8_block i) = true.
Proof.
  intros H. unfold wf_q8_0, Benchmark.q8_block. cbn [q8_d q8_qs].
  destruct (moderate_scale_inv _ (q8_scale_moderate i H)) as [U _].
  rewrite U. cbn [andb]. rewrite length_map.
  change (length (Benchmark.indices 32)) with 32%nat. cbn [Nat.eqb andb].
  apply forallb_map_all. intros j. apply wrap_s8_range.
Qed.

Lemma indices_In k z : In z (Benchmark.indices k) -> 0 <= z < Z.of_nat k.
Proof.
  unfold Benchmark.indices. rewrite in_map_iff. intros (j & <- & Hj).
  apply in_seq in Hj. lia.
Qed.

(** The nine block pairs written out in [Inputs] are the first nine the
    generators produce. *)
Example bench_inputs_generated :
  Inputs.bench_x = Benchmark.q4_data 9 /\ Inputs.bench_y = Benchmark.q8_data 9.
Proof. split; vm_compute; reflexivity. Qed.

(** X11.  The generated data is valid input for the kernels: every
    block is well formed (16-bit scale, 16 bytes in 0..255, 32 bytes in
    -128..127), every scale is finite and lies between 0.01 and 10, and
    there are [nb] blocks of each kind. *)
Theorem generated_blocks_well_formed (nb : Z) :
  forallb wf_q4_0 (Benchmark.q4_data nb) = true /\
  forallb wf_q8_0 (Benchmark.q8_data nb) = true /\
  forallb (fun b => Rel.moderate_scale (q4_d b)) (Benchmark.q4_data nb) = true /\
  forallb (fun b => Rel.moderate_scale (q8_d b)) (Benchmark.q8_data nb) = true /\
  Z.of_nat (length (Benchmark.q4_data nb)) = Z.max nb 0 /\
  Z.of_nat (length (Benchmark.q8_data nb)) = Z.max nb 0.
Proof.
  unfold Benchmark.q4_data, Benchmark.q8_data.
  repeat split.
  - apply forallb_forall. intros b Hb. apply in_map_iff in Hb.
    destruct Hb as (i & <- & Hi). apply indices_In in Hi. apply q4_block_wf. lia.
  - apply forallb_forall. intros b Hb. apply in_map_iff in Hb.
    destruct Hb as (i & <- & Hi). apply indices_In in Hi. apply q8_block_wf. lia.
  - apply forallb_forall. intros b Hb. apply in_map_iff in Hb.
    destruct Hb as (i & <- & Hi). apply indices_In in Hi.
    apply q4_scale_moderate. lia.
  - apply forallb_forall. intros b Hb. apply in_map_iff in Hb.
    destruct Hb as (i & <- & Hi). apply indices_In in Hi.
    apply q8_scale_moderate. lia.
  - unfold Benchmark.indices. rewrite !length_map, length_seq. lia.
  - unfold Benchmark.indices. rewrite !length_map, length_seq. lia.
Qed.

(** X12.  For block counts that fit the program's [int] arithmetic the
    generators' casts never wrap: byte [j] of block [i] is
    [(7 i + 13 j) mod 256] for the weights and
    [(11 i + 17 j) mod 256 - 128] for the activations, and both
    sequences of blocks repeat with period 6400. *)
Theorem generated_bytes (i j : Z) :
  0 <= i < 2 ^ 26 -> 0 <= j < 32 ->
  Benchmark.q4_byte i j = (7 * i + 13 * j) mod 256 /\
  Benchmark.q8_byte i j = (11 * i + 17 * j) mod 256 - 128 /\
  Benchmark.q4_block (i + 6400) = Benchmark.q4_block i /\
  Benchmark.q8_block (i + 6400) = Benchmark.q8_block i.
Proof.
  intros Hi Hj.
  assert (B4 : forall i j, 0 <= i < 2 ^ 27 -> 0 <= j < 32 ->
               Benchmark.q4_byte i j = (7 * i + 13 * j) mod 256).
  { clear. intros i j Hi Hj. unfold Benchmark.q4_byte.
    rewrite (wrap_s32_small (i * 7)) by lia.
    rewrite (wrap_s32_small (j * 13)) by lia.
    rewrite wrap_s32_small by lia.
    rewrite Z.rem_mod_nonneg by lia.
    unfold Int.wrap_u8. rewrite Z.mod_mod by lia. f_equal. lia. }
  assert (B8 : forall i j, 0 <= i < 2 ^ 27 -> 0 <= j < 32 ->
               Benchmark.q8_byte i j = (11 * i + 17 * j) mod 256 - 128).
  { clear. intros i j Hi Hj. unfold Benchmark.q8_byte.
    rewrite (wrap_s32_small (i * 11)) by lia.
    rewrite (wrap_s32_small (j * 17)) by lia.
    rewrite wrap_s32_small by lia.
    rewrite Z.rem_mod_nonneg by lia.
    pose proof (Z.mod_pos_bound (i * 11 + j * 17) 256 ltac:(lia)).
    rewrite wrap_s8_small by lia. f_equal. f_equal. lia. }
  split; [apply B4; lia|]. split; [apply B8; lia|].
  split.
  - unfold Benchmark.q4_block. f_equal.
    + rewrite q4_scale_rem, (q4_scale_rem i). f_equal.
      rewrite !Z.rem_mod_nonneg by lia.
      replace (i + 6400) with (i + 64 * 100) by lia. apply Z.mod_add. lia.
    + apply map_ext_in. intros k Hk. apply indices_In in Hk.
      rewrite !B4 by lia.
      replace (7 * (i + 6400) + 13 * k) with (7 * i + 13 * k + 175 * 256) by lia.
      apply Z.mod_add. lia.
  - unfold Benchmark.q8_block. f_equal.
    + rewrite q8_scale_rem, (q8_scale_rem i). f_equal.
      rewrite !Z.rem_mod_nonneg by lia.
      replace (i + 6400) with (i + 128 * 50) by lia. apply Z.mod_add. lia.
    + apply map_ext_in. intros k Hk. apply indices_In in Hk.
      rewrite !B8 by lia. f_equal.
      replace (11 * (i + 6400) + 17 * k) with (11 * i + 17 * k + 275 * 256) by lia.
      apply Z.mod_add. lia.
Qed.

(** X13.  The element count [main] works with: at least 32, a multiple
    of 32, the requested count rounded down (or 32 for a smaller
    request), and normalising again changes nothing; the arithmetic
    stays inside [int]. *)
Theorem normalize_n_multiple (n : Z) :
  - 2 ^ 31 <= n < 2 ^ 31 ->
  let m := Benchmark.normalize_n n in
  32 <= m /\ m = 32 * Z.quot m QK4_0 /\ m <= Z.max n 32 < m + 32 /\
  Benchmark.normalize_n m = m.
Proof.
  intros Hn.
  assert (E : forall k, 32 <= k < 2 ^ 31 ->
              Benchmark.normalize_n k = 32 * (k / 32)).
  { intros k Hk. unfold Benchmark.normalize_n.
    destruct (Z.ltb_spec k 32); [lia|].
    rewrite Z.quot_div_nonneg by lia.
    pose proof (Z.div_mod k 32 ltac:(lia)).
    pose proof (Z.mod_pos_bound k 32 ltac:(lia)).
    rewrite wrap_s32_small by lia. lia. }
  assert (E' : Benchmark.normalize_n n = 32 * (Z.max n 32 / 32)).
  { destruct (Z.ltb_spec n 32) as [Hlt|Hge].
    - unfold Benchmark.normalize_n. apply Z.ltb_lt in Hlt. rewrite Hlt.
      replace (Z.max n 32) with 32 by (apply Z.ltb_lt in Hlt; lia). reflexivity.
    - rewrite E by lia. replace (Z.max n 32) with n by lia. reflexivity. }
  cbv zeta. unfold QK4_0.
  pose proof (Z.div_mod (Z.max n 32) 32 ltac:(lia)) as D.
  pose proof (Z.mod_pos_bound (Z.max n 32) 32 ltac:(lia)) as M.
  set (q := Z.max n 32 / 32) in *.
  assert (1 <= q) by lia.
  rewrite E'.
  assert (Q : Z.quot (32 * q) 32 = q).
  { rewrite Z.quot_div_nonneg by lia. rewrite Z.mul_comm. apply Z.div_mul. lia. }
  rewrite Q. repeat split; try lia.
  rewrite E by lia.
  replace (32 * q / 32) with q
    by (rewrite (Z.mul_comm 32 q); symmetry; apply Z.div_mul; lia).
  reflexivity.
Qed.

Lemma generated_bytes_witness :
  Benchmark.q4_byte 5 3 = (7 * 5 + 13 * 3) mod 256 /\
  Benchmark.q8_byte 5 3 = (11 * 5 + 17 * 3) mod 256 - 128 /\
  Benchmark.q4_block (5 + 6400) = Benchmark.q4_block 5 /\
  Benchmark.q8_block (5 + 6400) = Benchmark.q8_block 5.
Proof. apply (generated_bytes 5 3); lia. Defined.

Lemma normalize_n_multiple_witness :
  32 <= Benchmark.normalize_n 100 /\
  Benchmark.normalize_n 100 = 32 * Z.quot (Benchmark.normalize_n 100) QK4_0 /\
  Benchmark.normalize_n 100 <= Z.max 100 32 < Benchmark.normalize_n 100 + 32 /\
  Benchmark.normalize_n (Benchmark.normalize_n 100) = Benchmark.normalize_n 100.
Proof. apply (normalize_n_multiple 100). lia. Defined.
(** ** The correctness check of [main] *)

Lemma binary_round_aux_sign s m e l :
  match binary_round_aux B32.prec B32.emax s m e l with
  | S754_zero t | S754_infinity t | S754_finite t _ _ => t = s
  | S754_nan => True
  end.
Proof.
  unfold binary_round_aux.
  destruct (shr_fexp B32.prec B32.emax m e l) as [mrs' e'].
  destruct (shr_fexp B32.prec B32.emax _ e' loc_Exact) as [mrs'' e''].
  destruct (shr_m mrs''); try reflexivity; try exact I.
  destruct (e'' <=? B32.emax - B32.prec); reflexivity.
Qed.

Lemma binary_round_sign s p e :
  match binary_round B32.prec B32.emax s p e with
  | S754_zero t | S754_infinity t | S754_finite t _ _ => t = s
  | S754_nan => True
  end.
Proof.
  unfold binary_round. destruct (shl_align p e _). apply binary_round_aux_sign.
Qed.

(** the denominator [fabsf(result_orig) + 1e-10f] is positive *)
Lemma denominator_cases a :
  match B32.add (SFabs a) Benchmark.c_1e_10f with
  | S754_zero s => s = false /\ exists m e, a = S754_finite false m e \/ a = S754_finite true m e
  | S754_infinity s | S754_finite s _ _ => s = false
  | S754_nan => True
  end.
Proof.
  destruct a as [s|s| |s m e]; try (cbn; auto; fail).
  unfold B32.add, Benchmark.c_1e_10f. cbn [SFabs SFadd cond_Zopp].
  set (ez := Z.min e (-57)).
  destruct (shl_align m e ez) as [m1 e1]. destruct (shl_align 14411519 (-57) ez) as [m2 e2].
  cbn [fst]. rewrite <- Pos2Z.inj_add. cbn [binary_normalize].
  pose proof (binary_round_sign false (m1 + m2) ez) as S.
  destruct (binary_round B32.prec B32.emax false (m1 + m2) ez); auto.
  split; [assumption|]. exists m, e. destruct s; auto.
Qed.

Lemma denominator_positive a :
  B32.above_emin a -> B32.is_finite a = true ->
  match B32.add (SFabs a) Benchmark.c_1e_10f with
  | S754_infinity s | S754_finite s _ _ => s = false
  | _ => False
  end.
Proof.
  destruct a as [s|s| |s m e]; try discriminate; intros Ha _.
  - cbn. reflexivity.
  - cbn [B32.above_emin] in Ha.
    unfold B32.add, Benchmark.c_1e_10f. cbn [SFabs SFadd cond_Zopp].
    set (ez := Z.min e (-57)).
    destruct (shl_align m e ez) as [m1 e1]. destruct (shl_align 14411519 (-57) ez) as [m2 e2].
    cbn [fst]. rewrite <- Pos2Z.inj_add. cbn [binary_normalize].
    pose proof (binary_round_sign false (m1 + m2) ez) as S.
    pose proof (B32Facts.binary_round_pos false (m1 + m2) ez) as P.
    assert (He : B32.emin <= ez) by (unfold B32.emin, SpecFloat.emin, B32.prec, B32.emax in *; lia).
    specialize (P He).
    destruct (binary_round B32.prec B32.emax false (m1 + m2) ez); auto.
Qed.

Lemma sub_self a : B32.is_finite a = true -> B32.sub a a = S754_zero false.
Proof.
  destruct a as [[]|s| |s m e]; try discriminate; intros _; try reflexivity.
  unfold B32.sub. cbn [SFsub]. rewrite Z.sub_diag. reflexivity.
Qed.

Lemma status_non_finite a b :
  B32.is_finite a = false \/ B32.is_finite b = false ->
  Benchmark.correctness_status a b = false.
Proof.
  intros H. unfold Benchmark.correctness_status. cbv zeta.
  pose proof (denominator_cases a) as D.
  assert (Hd : SFabs (B32.sub a b) = S754_nan \/
               (SFabs (B32.sub a b) = S754_infinity false /\
                (B32.is_finite a = true \/
                 B32.add (SFabs a) Benchmark.c_1e_10f = S754_infinity false))).
  { destruct a as [sa|sa| |sa ma ea], b as [sb|sb| |sb mb eb];
      cbn [B32.is_finite] in H; try (destruct H; discriminate);
      unfold B32.sub; cbn [SFsub SFabs]; auto;
      try (destruct sa, sb; cbn; auto; fail). }
  destruct Hd as [-> | [-> Hd]]; [reflexivity|].
  destruct Hd as [Fa | ->]; [|reflexivity].
  destruct (B32.add (SFabs a) Benchmark.c_1e_10f) as [s|s| |s m e];
    try reflexivity.
  - destruct D as [-> _]. reflexivity.
  - subst s. reflexivity.
Qed.

Lemma status_equal a :
  B32.above_emin a -> B32.is_finite a = true ->
  Benchmark.correctness_status a a = true.
Proof.
  intros Ha Fa. unfold Benchmark.correctness_status. cbv zeta.
  rewrite sub_self by assumption. cbn [SFabs].
  pose proof (denominator_positive a Ha Fa) as D.
  destruct (B32.add (SFabs a) Benchmark.c_1e_10f) as [s|s| |s m e];
    try contradiction; subst s; reflexivity.
Qed.

(** X14.  The correctness check reports FAIL whenever one of the two
    results is an infinity or a NaN, also when both kernels return the
    same such value: the difference or the quotient is then a NaN or an
    infinity, and neither is below 1e-5. *)
Theorem check_fails_on_non_finite (result_orig result_opt : spec_float) :
  B32.is_finite result_orig = false \/ B32.is_finite result_opt = false ->
  Benchmark.correctness_status result_orig result_opt = false.
Proof. apply status_non_finite. Qed.

Lemma check_fails_on_non_finite_witness :
  Benchmark.correctness_status S754_nan S754_nan = false.
Proof. apply check_fails_on_non_finite. left. reflexivity. Defined.

(** X15.  When both kernels return the same value the check reports
    PASS exactly if that value is finite: the difference is [+0.0] and
    the denominator [fabsf(result_orig) + 1e-10f] is positive, never
    zero. *)
Theorem check_passes_on_equal (n : Z) (vx : list block_q4_0) (vy : list block_q8_0)
    (r : spec_float) :
  vec_dot_q4_0_q8_0_original n vx vy = Ok r ->
  vec_dot_q4_0_q8_0_optimized n vx vy = Ok r ->
  Benchmark.correctness_status r r = B32.is_finite r.
Proof.
  intros Ho _. apply original_regular in Ho. destruct Ho as [Ha _].
  destruct (B32.is_finite r) eqn:Fr.
  - apply status_equal; assumption.
  - apply status_non_finite. left. assumption.
Qed.

Lemma check_passes_on_equal_witness :
  Benchmark.correctness_status (S754_finite false 8764995 (-18))
                               (S754_finite false 8764995 (-18))
  = B32.is_finite (S754_finite false 8764995 (-18)).
Proof.
  apply (check_passes_on_equal 96 (Benchmark.q4_data 3) (Benchmark.q8_data 3));
    vm_compute; reflexivity.
Defined.

(** ** [main] on the generated data *)

Lemma data_enough (n : Z) :
  enough_blocks n (Benchmark.q4_data (Z.quot n QK4_0))
                  (Benchmark.q8_data (Z.quot n QK4_0)) = true.
Proof.
  unfold enough_blocks, Benchmark.q4_data, Benchmark.q8_data, Benchmark.indices.
  rewrite !length_map, !length_seq.
  apply andb_true_iff. rewrite !Z.leb_le. lia.
Qed.

(** the warm-up loop runs to its end when the two calls return *)
Lemma warmup_returns (n : Z) (x : list block_q4_0) (y : list block_q8_0) a b st :
  vec_dot_q4_0_q8_0_original n x y = Ok a ->
  vec_dot_q4_0_q8_0_optimized n x y = Ok b ->
  0 <= fst (fst st) ->
  exists st',
    for_loop (Z.to_nat Benchmark.warmup)
      (fun st : Z * spec_float * spec_float => fst (fst st) <? Benchmark.warmup)
      (Benchmark.warmup_body n x y) st = Ok st'.
Proof.
  intros Ha Hb H0.
  destruct (for_loop_rule
              (fun s : Z * spec_float * spec_float => 0 <= fst (fst s))
              (fun s => Z.to_nat (Benchmark.warmup - fst (fst s)))
              (fun st : Z * spec_float * spec_float => fst (fst st) <? Benchmark.warmup)
              (Benchmark.warmup_body n x y))
    with (fuel := Z.to_nat Benchmark.warmup) (s := st) as (st' & E & _).
  - intros [[i r0] r1] Hi C. cbn [fst] in *. apply Z.ltb_lt in C.
    unfold Benchmark.warmup_body. rewrite Ha, Hb. cbn [bind].
    eexists. split; [reflexivity|]. cbn [fst]. split; lia.
  - assumption.
  - lia.
  - exists st'. assumption.
Qed.

Lemma main_verify_eq (n : Z) (x : list block_q4_0) (y : list block_q8_0) :
  Z.of_nat (length x) = Z.quot (Benchmark.normalize_n n) QK4_0 ->
  Z.of_nat (length y) = Z.quot (Benchmark.normalize_n n) QK4_0 ->
  Benchmark.main_verify n x y
  = (result_orig <- vec_dot_q4_0_q8_0_original (Benchmark.normalize_n n)
                      (Benchmark.q4_data (Z.quot (Benchmark.normalize_n n) QK4_0))
                      (Benchmark.q8_data (Z.quot (Benchmark.normalize_n n) QK4_0)) ;;
     result_opt <- vec_dot_q4_0_q8_0_optimized (Benchmark.normalize_n n)
                      (Benchmark.q4_data (Z.quot (Benchmark.normalize_n n) QK4_0))
                      (Benchmark.q8_data (Z.quot (Benchmark.normalize_n n) QK4_0)) ;;
     Ok (result_orig, result_opt,
         Benchmark.correctness_status result_orig result_opt)).
Proof.
  intros Hx Hy. unfold Benchmark.main_verify. cbv zeta.
  destruct (original_total _ _ _ (data_enough (Benchmark.normalize_n n))) as [a Ha].
  destruct (optimized_total _ _ _ (data_enough (Benchmark.normalize_n n))) as [b Hb].
  set (nb := Z.quot (Benchmark.normalize_n n) QK4_0) in *.
  assert (Lx : (nb <=? Z.of_nat (length x)) = true) by (apply Z.leb_le; lia).
  assert (Ly : (nb <=? Z.of_nat (length y)) = true) by (apply Z.leb_le; lia).
  assert (Sx : skipn (Z.to_nat nb) x = []) by (apply skipn_all2; lia).
  assert (Sy : skipn (Z.to_nat nb) y = []) by (apply skipn_all2; lia).
  rewrite generate_q4_0_blocks_eq, Lx. cbn [bind].
  rewrite generate_q8_0_blocks_eq, Ly. cbn [bind].
  rewrite Sx, Sy, !app_nil_r.
  destruct (warmup_returns _ _ _ a b (0, B32.pzero, B32.pzero) Ha Hb (Z.le_refl 0))
    as ([[i r0] r1] & W).
  rewrite W. cbn [bind]. reflexivity.
Qed.

(** X16.  [main]'s verification never reads or writes outside its two
    arrays and always reaches the check: for every requested count, on
    arrays of [n / 32] blocks as [main] allocates them, both generators
    and both kernels return, neither result is [-0.0], and the outcome
    does not depend on what the allocated memory held. *)
Theorem main_verify_returns (n : Z) (x : list block_q4_0) (y : list block_q8_0) :
  Z.of_nat (length x) = Z.quot (Benchmark.normalize_n n) QK4_0 ->
  Z.of_nat (length y) = Z.quot (Benchmark.normalize_n n) QK4_0 ->
  exists result_orig result_opt,
    Benchmark.main_verify n x y
    = Ok (result_orig, result_opt,
          Benchmark.correctness_status result_orig result_opt) /\
    result_orig <> S754_zero true /\ result_opt <> S754_zero true /\
    forall x' y',
      Z.of_nat (length x') = Z.of_nat (length x) ->
      Z.of_nat (length y') = Z.of_nat (length y) ->
      Benchmark.main_verify n x' y' = Benchmark.main_verify n x y.
Proof.
  intros Hx Hy.
  destruct (original_total _ _ _ (data_enough (Benchmark.normalize_n n))) as [ro Ho].
  destruct (optimized_total _ _ _ (data_enough (Benchmark.normalize_n n))) as [rp Hp].
  exists ro, rp. rewrite main_verify_eq by assumption.
  rewrite Ho, Hp. cbn [bind]. split; [reflexivity|].
  split; [apply (original_regular _ _ _ _ Ho)|].
  split; [apply (optimized_regular _ _ _ _ Hp)|].
  intros x' y' Hx' Hy'. rewrite main_verify_eq by lia.
  rewrite Ho, Hp. reflexivity.
Qed.

Lemma main_verify_returns_witness :
  exists result_orig result_opt,
    Benchmark.main_verify 100 (repeat (mk_q4_0 0 []) 3) (repeat (mk_q8_0 0 []) 3)
    = Ok (result_orig, result_opt,
          Benchmark.correctness_status result_orig result_opt) /\
    result_orig <> S754_zero true /\ result_opt <> S754_zero true /\
    forall x' y',
      Z.of_nat (length x') = Z.of_nat (length (repeat (mk_q4_0 0 []) 3)) ->
      Z.of_nat (length y') = Z.of_nat (length (repeat (mk_q8_0 0 []) 3)) ->
      Benchmark.main_verify 100 x' y'
      = Benchmark.main_verify 100 (repeat (mk_q4_0 0 []) 3) (repeat (mk_q8_0 0 []) 3).
Proof. apply main_verify_returns; reflexivity. Defined.

Lemma firstn_seq_min (n s l : nat) : firstn n (seq s l) = seq s (Nat.min n l).
Proof.
  revert s l. induction n as [|n IH]; intros s [|l]; cbn; try reflexivity.
  f_equal. apply IH.
Qed.

Lemma data_prefix4 (q k : Z) :
  q <= k -> firstn (Z.to_nat q) (Benchmark.q4_data k) = Benchmark.q4_data q.
Proof.
  intros H. unfold Benchmark.q4_data, Benchmark.indices.
  rewrite !firstn_map, firstn_seq_min. do 3 f_equal. lia.
Qed.

Lemma data_prefix8 (q k : Z) :
  q <= k -> firstn (Z.to_nat q) (Benchmark.q8_data k) = Benchmark.q8_data q.
Proof.
  intros H. unfold Benchmark.q8_data, Benchmark.indices.
  rewrite !firstn_map, firstn_seq_min. do 3 f_equal. lia.
Qed.

Lemma benchmark_small_sizes :
  (let x := Benchmark.q4_data 32 in
   let y := Benchmark.q8_data 32 in
   all_from (passes x y) 1 32) = true.
Proof. vm_cast_no_check (eq_refl true). Qed.

Lemma benchmark_default_size :
  passes (Benchmark.q4_data 128) (Benchmark.q8_data 128) 128 = true.
Proof. vm_cast_no_check (eq_refl true). Qed.

Lemma passes_prefix (k q : Z) :
  1 <= q <= k ->
  passes (Benchmark.q4_data k) (Benchmark.q8_data k) q = true ->
  exists result_orig result_opt,
    vec_dot_q4_0_q8_0_original (32 * q) (Benchmark.q4_data q) (Benchmark.q8_data q)
    = Ok result_orig /\
    vec_dot_q4_0_q8_0_optimized (32 * q) (Benchmark.q4_data q) (Benchmark.q8_data q)
    = Ok result_opt /\
    Benchmark.correctness_status result_orig result_opt = true /\
    B32.is_finite result_orig = true /\ B32.is_finite result_opt = true.
Proof.
  intros Hq A.
  assert (Q : Z.quot (32 * q) QK4_0 = q).
  { unfold QK4_0. rewrite Z.mul_comm, Z.quot_mul by lia. reflexivity. }
  rewrite <- (data_prefix4 q k) by lia. rewrite <- (data_prefix8 q k) by lia.
  pose proof (original_prefix (ops := binary32) (32 * q)
                (Benchmark.q4_data k) (Benchmark.q8_data k)) as Po.
  pose proof (optimized_prefix (ops := binary32) (32 * q)
                (Benchmark.q4_data k) (Benchmark.q8_data k)) as Pp.
  rewrite Q in Po, Pp. rewrite Po, Pp. clear Po Pp.
  unfold passes in A.
  destruct (vec_dot_q4_0_q8_0_original (32 * q) (Benchmark.q4_data k)
              (Benchmark.q8_data k)) as [a| |]; try discriminate.
  destruct (vec_dot_q4_0_q8_0_optimized (32 * q) (Benchmark.q4_data k)
              (Benchmark.q8_data k)) as [b| |]; try discriminate.
  apply andb_true_iff in A. destruct A as [A Fb].
  apply andb_true_iff in A. destruct A as [A Fa].
  exists a, b. auto.
Qed.

Lemma normalize_n_blocks (n : Z) :
  - 2 ^ 31 <= n < 2 ^ 31 ->
  exists q, 1 <= q /\ Benchmark.normalize_n n = 32 * q /\
            Z.quot (Benchmark.normalize_n n) QK4_0 = q /\
            (n < 32 -> q = 1) /\ (32 <= n -> 32 * q <= n < 32 * q + 32).
Proof.
  intros Hn. unfold Benchmark.normalize_n.
  destruct (Z.ltb_spec n 32).
  - exists 1. repeat split; lia.
  - exists (n / 32). rewrite Z.quot_div_nonneg by lia.
    pose proof (Z.div_mod n 32 ltac:(lia)).
    pose proof (Z.mod_pos_bound n 32 ltac:(lia)).
    rewrite wrap_s32_small by lia.
    replace (n / 32 * 32) with (32 * (n / 32)) by lia.
    unfold QK4_0. rewrite Z.quot_div_nonneg by lia.
    rewrite (Z.mul_comm 32), Z.div_mul by lia. repeat split; lia.
Qed.

(** X17.  On its own data the benchmark reports PASS, with two finite
    results, for every requested count below 1056 (up to 32 blocks,
    negative and too small requests included) and for the default count
    4096 (up to 4127, which rounds down to it). *)
Theorem main_verify_passes (n : Z) (x : list block_q4_0) (y : list block_q8_0) :
  - 2 ^ 31 <= n < 1056 \/ 4096 <= n < 4128 ->
  Z.of_nat (length x) = Z.quot (Benchmark.normalize_n n) QK4_0 ->
  Z.of_nat (length y) = Z.quot (Benchmark.normalize_n n) QK4_0 ->
  exists result_orig result_opt,
    Benchmark.main_verify n x y = Ok (result_orig, result_opt, true) /\
    B32.is_finite result_orig = true /\ B32.is_finite result_opt = true.
Proof.
  intros Hn Hx Hy. rewrite main_verify_eq by assumption.
  destruct (normalize_n_blocks n ltac:(lia)) as (q & Hq1 & -> & Q & Lo & Hi).
  rewrite Q.
  assert (P : exists k, 1 <= q <= k /\
                passes (Benchmark.q4_data k) (Benchmark.q8_data k) q = true).
  { destruct Hn as [Hn|Hn].
    - exists 32. split; [lia|].
      pose proof (all_from_spec _ _ _ benchmark_small_sizes q ltac:(lia)) as A.
      exact A.
    - exists 128. replace q with 128 by lia. split; [lia|].
      exact benchmark_default_size. }
  destruct P as (k & Hk & A).
  destruct (passes_prefix k q Hk A) as (a & b & Ea & Eb & S & Fa & Fb).
  exists a, b. rewrite Ea, Eb. cbn [bind]. rewrite S. auto.
Qed.

Lemma main_verify_passes_witness :
  exists result_orig result_opt,
    Benchmark.main_verify 100 (repeat (mk_q4_0 0 []) 3) (repeat (mk_q8_0 0 []) 3)
    = Ok (result_orig, result_opt, true) /\
    B32.is_finite result_orig = true /\ B32.is_finite result_opt = true.
Proof. apply main_verify_passes; [left; lia | reflexivity | reflexivity]. Defined.
